(** * Service Manager query core: criteria model, query-string parser,
      validation, merging and the storage helpers that consume criteria.

    Shallow embedding of [pkg/query/selection.go], of the two revisions of
    the postgres storage helpers and of the loop of the OIDC label filter
    that adds criteria to a context, followed by the properties established
    about them.

    Conventions.
    - A Go [string] is an immutable byte sequence: Rocq's [string] (a list of
      8-bit [ascii]).  [len], indexing and slicing are byte based; [range]
      over a string decodes UTF-8 ([GoString.runes]).
    - A Go [int] is 64 bits wide.  Every [int] below is a length, an index
      into a string held in memory or a counter bounded by one, so no
      operation can wrap; they are [Z] (or [nat] for lengths and counters).
      The one place where the width is observable is [strconv.Atoi], whose
      range check is written out.
    - A run-time panic (index or slice bounds out of range) is an outcome of
      its own, distinct from a returned [error]. *)

From Stdlib Require Import ZArith Ascii String Lia.
From stdpp Require Import base option list gmap strings.

Local Open Scope Z_scope.

(** ** Outcomes: returned value, returned error, or run-time panic *)

(** The texts of the messages built with [fmt.Sprintf]/[fmt.Errorf]; one
    constructor per construction site, carrying the formatted operands. *)
Inductive Message : Type :=
| MsgLimitInvalid (limit : Z)
    (* "limit (%d) is invalid. Limit should be positive number" *)
| MsgOrderByNone
    (* "order by result expects field and order type, but has none" *)
| MsgOrderByNoType (field : string)
    (* "order by result for field %s expects order type, but has none" *)
| MsgMultipleValues (rightOp : list string) (operator : string)
    (* "multiple values %s received for single value operation %s" *)
| MsgNullableOnlyFields
    (* "nullable operations are supported only for field queries" *)
| MsgNotNumeric (operator : string) (rightOp0 : string)
    (* "%s is numeric operator, but the right operand %s is not numeric or datetime" *)
| MsgSeparatorInLeftOp (criteriaType leftOp possibleKey : string)
    (* "separator %c is not allowed in %s with left operand %s. Maybe you meant %s? ..." *)
| MsgNewLine (criteriaType leftOp op : string)
    (* "%s with key %s has value %s contaning forbidden new line character" *)
| MsgDuplicateLabelKey (leftOp : string)
    (* "duplicate label query key: %s" *)
| MsgDuplicateFieldKey (leftOp : string)
    (* "duplicate field query key: %s" *)
| MsgNotValid (input criteriaType : string)
    (* "%s is not a valid %s" *)
| MsgBrackets (operator criteriaType leftOp : string)
    (* "operator %s for %s %s requires right operand to be surrounded in %c%c" *)
| MsgUnsupportedFieldKey (leftOp : string)
    (* "unsupported field query key: %s" *).

Inductive error : Type :=
| AtoiError (s : string)
    (* fmt.Errorf("could not cast string to int: %s", err.Error()) *)
| UnsupportedQueryError (m : Message)
    (* &util.UnsupportedQueryError{Message: m} *)
| UnsupportedQuery (m : Message)
    (* &query.UnsupportedQuery{Message: m}, the older revision's error type *).

Inductive panic : Type :=
| IndexOutOfRange
| SliceBoundsOutOfRange.

Inductive outcome (A : Type) : Type :=
| Ok (a : A)
| Err (e : error)
| Panic (p : panic).
Arguments Ok {A} a.
Arguments Err {A} e.
Arguments Panic {A} p.

#[global] Instance outcome_ret : MRet outcome := @Ok.
#[global] Instance outcome_bind : MBind outcome := fun A B f m =>
  match m with
  | Ok a => f a
  | Err e => Err e
  | Panic p => Panic p
  end.

Definition isOk {A} (o : outcome A) : bool :=
  match o with Ok _ => true | _ => false end.

Definition isErr {A} (o : outcome A) : bool :=
  match o with Err _ => true | _ => false end.

(** ** Go strings *)

Module GoString.

Definition byte := ascii.
Definition rune := Z.

Definition byteZ (b : byte) : Z := Z.of_N (N_of_ascii b).
Definition byteOfZ (z : Z) : byte := ascii_of_N (Z.to_N z).

Definition bytes (s : string) : list byte := list_ascii_of_string s.
Definition ofBytes (bs : list byte) : string := string_of_list_ascii bs.

(** [len(s)] *)
Definition len (s : string) : Z := Z.of_nat (String.length s).

(** [s[i]]: panics unless [0 <= i < len(s)]. *)
Definition index (s : string) (i : Z) : outcome byte :=
  if (0 <=? i) && (i <? len s) then
    match String.get (Z.to_nat i) s with
    | Some b => Ok b
    | None => Panic IndexOutOfRange
    end
  else Panic IndexOutOfRange.

(** [s[lo:hi]]: panics unless [0 <= lo <= hi <= len(s)]. *)
Definition slice (s : string) (lo hi : Z) : outcome string :=
  if (0 <=? lo) && (lo <=? hi) && (hi <=? len s) then
    Ok (String.substring (Z.to_nat lo) (Z.to_nat (hi - lo)) s)
  else Panic SliceBoundsOutOfRange.

(** [s[lo:]] and [s[:hi]] *)
Definition sliceFrom (s : string) (lo : Z) : outcome string := slice s lo (len s).
Definition sliceTo (s : string) (hi : Z) : outcome string := slice s 0 hi.

(** [strings.HasPrefix(s, prefix)] *)
Definition HasPrefix (s prefix : string) : bool := String.prefix prefix s.

(** [strings.IndexByte]; [strings.IndexRune(s, r)] with [r < utf8.RuneSelf]
    is exactly this search for the byte [r], and the code only ever looks
    for ASCII runes. *)
Fixpoint indexByteFrom (bs : list byte) (b : byte) (pos : Z) : Z :=
  match bs with
  | [] => -1
  | x :: rest => if Ascii.eqb x b then pos else indexByteFrom rest b (pos + 1)
  end.

Definition IndexRune (s : string) (r : rune) : Z :=
  indexByteFrom (bytes s) (byteOfZ r) 0.

(** [strings.ContainsRune(s, r)] is [IndexRune(s, r) >= 0]. *)
Definition ContainsRune (s : string) (r : rune) : bool :=
  0 <=? IndexRune s r.

(** *** UTF-8, as [range] over a string and [Builder.WriteRune] use it *)

Definition RuneError : rune := 65533.

Definition inRange (lo hi x : Z) : bool := (lo <=? x) && (x <=? hi).

(** [utf8.DecodeRuneInString] on a non-empty string [b0 :: rest]: the rune
    and its width in bytes.  Ill-formed input decodes to [RuneError] of
    width 1. *)
Definition decodeRune (b0 : byte) (rest : list byte) : rune * nat :=
  let x0 := byteZ b0 in
  let bad := (RuneError, 1%nat) in
  if x0 <? 128 then (x0, 1%nat)
  else
    (* size and accepted range of the second byte, from the first *)
    let class : option (nat * Z * Z) :=
      if inRange 194 223 x0 then Some (2%nat, 128, 191)
      else if x0 =? 224 then Some (3%nat, 160, 191)
      else if inRange 225 236 x0 then Some (3%nat, 128, 191)
      else if x0 =? 237 then Some (3%nat, 128, 159)
      else if inRange 238 239 x0 then Some (3%nat, 128, 191)
      else if x0 =? 240 then Some (4%nat, 144, 191)
      else if inRange 241 243 x0 then Some (4%nat, 128, 191)
      else if x0 =? 244 then Some (4%nat, 128, 143)
      else None in
    match class with
    | None => bad
    | Some (size, lo, hi) =>
      match rest with
      | b1 :: rest1 =>
        let x1 := byteZ b1 in
        if negb (inRange lo hi x1) then bad
        else if (size =? 2)%nat then
          (Z.lor (Z.shiftl (Z.land x0 31) 6) (Z.land x1 63), 2%nat)
        else
          match rest1 with
          | b2 :: rest2 =>
            let x2 := byteZ b2 in
            if negb (inRange 128 191 x2) then bad
            else if (size =? 3)%nat then
              (Z.lor (Z.lor (Z.shiftl (Z.land x0 15) 12)
                            (Z.shiftl (Z.land x1 63) 6))
                     (Z.land x2 63), 3%nat)
            else
              match rest2 with
              | b3 :: _ =>
                let x3 := byteZ b3 in
                if negb (inRange 128 191 x3) then bad
                else
                  (Z.lor (Z.lor (Z.lor (Z.shiftl (Z.land x0 7) 18)
                                       (Z.shiftl (Z.land x1 63) 12))
                                (Z.shiftl (Z.land x2 63) 6))
                         (Z.land x3 63), 4%nat)
              | [] => bad
              end
          | [] => bad
          end
      | [] => bad
      end
    end.

(** The runes [for _, ch := range s] yields, in order. *)
Fixpoint runesOf (bs : list byte) : list rune :=
  match bs with
  | [] => []
  | b0 :: t1 =>
    let '(r, w) := decodeRune b0 t1 in
    match w, t1 with
    | 2%nat, _ :: t2 => r :: runesOf t2
    | 3%nat, _ :: _ :: t3 => r :: runesOf t3
    | 4%nat, _ :: _ :: _ :: t4 => r :: runesOf t4
    | _, _ => r :: runesOf t1
    end
  end.

Definition runes (s : string) : list rune := runesOf (bytes s).

(** [utf8.AppendRune]: the bytes [Builder.WriteRune(r)] appends. *)
Definition encodeRune (r : rune) : string :=
  let cont (x : Z) := byteOfZ (Z.lor 128 (Z.land x 63)) in
  let enc3 (x : Z) :=
    ofBytes [byteOfZ (Z.lor 224 (Z.shiftr x 12));
             cont (Z.shiftr x 6); cont x] in
  if inRange 0 127 r then ofBytes [byteOfZ r]
  else if inRange 128 2047 r then
    ofBytes [byteOfZ (Z.lor 192 (Z.shiftr r 6)); cont r]
  else if (r <? 0) || (1114111 <? r) || inRange 55296 57343 r then
    enc3 RuneError
  else if r <=? 65535 then enc3 r
  else
    ofBytes [byteOfZ (Z.lor 240 (Z.shiftr r 18));
             cont (Z.shiftr r 12); cont (Z.shiftr r 6); cont r].

(** Every byte is below [utf8.RuneSelf]. *)
Definition isASCII (s : string) : Prop :=
  Forall (fun b => byteZ b < 128) (bytes s).

End GoString.
Import GoString.

(** ** strconv.Atoi

    An optional sign followed by one or more decimal digits whose value fits
    a 64-bit [int]; anything else is an error ([None]). *)

Definition isDigit (b : byte) : bool := inRange 48 57 (byteZ b).

Fixpoint digitsValue (acc : Z) (ds : list byte) : option Z :=
  match ds with
  | [] => Some acc
  | d :: ds' =>
    if isDigit d then digitsValue (acc * 10 + (byteZ d - 48)) ds' else None
  end.

Definition Atoi (s : string) : option Z :=
  match bytes s with
  | [] => None
  | c :: rest =>
    let '(neg, ds) :=
      if byteZ c =? 43 then (false, rest)
      else if byteZ c =? 45 then (true, rest)
      else (false, c :: rest) in
    match ds with
    | [] => None
    | _ :: _ =>
      match digitsValue 0 ds with
      | None => None
      | Some un =>
        if neg then (if un <=? 2 ^ 63 then Some (- un) else None)
        else (if un <? 2 ^ 63 then Some un else None)
      end
    end
  end.

(** ** What the development takes from outside the repository

    [strconv.ParseFloat] and [time.Parse] belong to the Go standard library
    and the growth of a slice that [append] has to reallocate is chosen by
    the Go runtime; the repository fixes none of them.  Only whether the two
    parsers accept a string matters here, and of the growth policy only that
    the new array is large enough. *)
Class GoEnv : Type := {
  (** [strconv.ParseFloat(str, 64)] returns a nil error *)
  ParseFloat64_ok : string -> bool;
  (** [time.Parse(time.RFC3339, str)] returns a nil error *)
  ParseRFC3339_ok : string -> bool;
  (** capacity of the array [append] allocates when the old capacity
      [oldCap] cannot hold [needed] elements *)
  growslice : nat -> nat -> nat;
  growslice_ge : forall oldCap needed : nat, (needed <= growslice oldCap needed)%nat
}.

(** ** Operators and criteria (pkg/query/selection.go) *)

(** [type Operator string] *)
Definition Operator := string.

Definition EqualsOperator : Operator := "=".
Definition NotEqualsOperator : Operator := "!=".
Definition GreaterThanOperator : Operator := "gt".
Definition GreaterThanOrEqualOperator : Operator := "gte".
Definition LessThanOperator : Operator := "lt".
Definition LessThanOrEqualOperator : Operator := "lte".
Definition InOperator : Operator := "in".
Definition NotInOperator : Operator := "notin".
Definition EqualsOrNilOperator : Operator := "eqornil".
Definition NoOperator : Operator := "nop".

Definition IsMultiVariate (op : Operator) : bool :=
  String.eqb op InOperator || String.eqb op NotInOperator.

Definition IsNullable (op : Operator) : bool :=
  String.eqb op EqualsOrNilOperator.

Definition IsNumeric (op : Operator) : bool :=
  String.eqb op LessThanOperator || String.eqb op GreaterThanOperator
  || String.eqb op LessThanOrEqualOperator
  || String.eqb op GreaterThanOrEqualOperator.

Definition operators : list Operator :=
  [EqualsOperator; NotEqualsOperator; InOperator; NotInOperator;
   GreaterThanOperator; GreaterThanOrEqualOperator; LessThanOperator;
   LessThanOrEqualOperator; EqualsOrNilOperator].

Definition OpenBracket : rune := 91.
Definition CloseBracket : rune := 93.
Definition Separator : rune := 124.
Definition OperandSeparator : rune := 32.
Definition Backslash : byte := byteOfZ 92.
Definition NewLine : rune := 10.

(** [type CriterionType string] *)
Definition CriterionType := string.

Definition FieldQuery : CriterionType := "fieldQuery".
Definition LabelQuery : CriterionType := "labelQuery".
Definition ResultQuery : CriterionType := "resultQuery".

Definition OrderBy : string := "orderBy".
Definition Limit : string := "limit".

(** [type OrderType string] *)
Definition OrderType := string.
Definition AscOrder : OrderType := "asc".
Definition DescOrder : OrderType := "desc".

Definition supportedQueryTypes : list CriterionType := [FieldQuery; LabelQuery].

(** The struct [Criterion]; the fields [Operator] and [Type] carry a
    trailing underscore because the first is also the name of the type and
    the second is reserved. *)
Record Criterion : Type := mkCriterion {
  LeftOp : string;
  Operator_ : Operator;
  RightOp : list string;
  Type_ : CriterionType
}.

#[global] Instance Criterion_eq_dec : EqDecision Criterion.
Proof. solve_decision. Defined.

Definition newCriterion (leftOp : string) (operator : Operator)
    (rightOp : list string) (criteriaType : CriterionType) : Criterion :=
  {| LeftOp := leftOp; Operator_ := operator; RightOp := rightOp;
     Type_ := criteriaType |}.

Definition ByField (operator : Operator) (leftOp : string)
    (rightOp : list string) : Criterion :=
  newCriterion leftOp operator rightOp FieldQuery.

Definition ByLabel (operator : Operator) (leftOp : string)
    (rightOp : list string) : Criterion :=
  newCriterion leftOp operator rightOp LabelQuery.

Definition OrderResultBy (field : string) (orderType : OrderType) : Criterion :=
  newCriterion OrderBy NoOperator [field; orderType] ResultQuery.

(** [strconv.Itoa] *)
Fixpoint itoaDigits (fuel : nat) (n : Z) (acc : list byte) : list byte :=
  match fuel with
  | O => acc
  | S fuel' =>
    let acc' := byteOfZ (48 + n mod 10) :: acc in
    if n <? 10 then acc' else itoaDigits fuel' (n / 10) acc'
  end.

Definition Itoa (n : Z) : string :=
  if n <? 0 then ofBytes (byteOfZ 45 :: itoaDigits 20 (- n) [])
  else ofBytes (itoaDigits 20 n []).

Definition LimitResultBy (limit : Z) : Criterion :=
  newCriterion Limit NoOperator [Itoa limit] ResultQuery.

(** [xs[i]] on a slice of strings *)
Definition indexList {A} (xs : list A) (i : Z) : outcome A :=
  if (0 <=? i) && (i <? Z.of_nat (length xs)) then
    match xs !! Z.to_nat i with
    | Some x => Ok x
    | None => Panic IndexOutOfRange
    end
  else Panic IndexOutOfRange.

(** [strings.FieldsFunc(s, func(r rune) bool { return r == Separator })]:
    the maximal runs of bytes other than the separator, in order. *)
Fixpoint fieldsLoop (bs cur : list byte) (acc : list string) : list string :=
  let flush := match cur with [] => acc | _ :: _ => acc ++ [ofBytes cur] end in
  match bs with
  | [] => flush
  | b :: rest =>
    if byteZ b =? Separator then fieldsLoop rest [] flush
    else fieldsLoop rest (cur ++ [b]) acc
  end.

Definition FieldsFuncSeparator (s : string) : list string :=
  fieldsLoop (bytes s) [] [].

Definition isNumeric `{GoEnv} (str : string) : bool :=
  match Atoi str with
  | Some _ => true
  | None => ParseFloat64_ok str
  end.

Definition isDateTime `{GoEnv} (str : string) : bool := ParseRFC3339_ok str.

(** The loop over the right operands at the end of [Validate]. *)
Fixpoint checkNewLines (c : Criterion) (ops : list string) : outcome unit :=
  match ops with
  | [] => Ok tt
  | op :: rest =>
    if ContainsRune op NewLine then
      Err (UnsupportedQueryError (MsgNewLine (Type_ c) (LeftOp c) op))
    else checkNewLines c rest
  end.

(** [func (c Criterion) Validate() error]; [Ok tt] is the nil error. *)
Definition Validate `{GoEnv} (c : Criterion) : outcome unit :=
  if String.eqb (Type_ c) ResultQuery then
    _ ← (if String.eqb (LeftOp c) Limit then
           r0 ← indexList (RightOp c) 0;
           match Atoi r0 with
           | None => Err (AtoiError r0)
           | Some limit =>
             if limit <? 1 then Err (UnsupportedQueryError (MsgLimitInvalid limit))
             else Ok tt
           end
         else Ok tt);
    _ ← (if String.eqb (LeftOp c) OrderBy then
           if (length (RightOp c) <? 1)%nat then
             Err (UnsupportedQueryError MsgOrderByNone)
           else if (length (RightOp c) <? 2)%nat then
             r0 ← indexList (RightOp c) 0;
             Err (UnsupportedQueryError (MsgOrderByNoType r0))
           else Ok tt
         else Ok tt);
    Ok tt
  else
    if (1 <? length (RightOp c))%nat && negb (IsMultiVariate (Operator_ c)) then
      Err (UnsupportedQueryError (MsgMultipleValues (RightOp c) (Operator_ c)))
    else if IsNullable (Operator_ c) && negb (String.eqb (Type_ c) FieldQuery) then
      Err (UnsupportedQueryError MsgNullableOnlyFields)
    else
      _ ← (if IsNumeric (Operator_ c) then
             r0 ← indexList (RightOp c) 0;
             if negb (isNumeric r0) && negb (isDateTime r0) then
               Err (UnsupportedQueryError (MsgNotNumeric (Operator_ c) r0))
             else Ok tt
           else Ok tt);
      _ ← (if ContainsRune (LeftOp c) Separator then
             let parts := FieldsFuncSeparator (LeftOp c) in
             possibleKey ← indexList parts (Z.of_nat (length parts) - 1);
             Err (UnsupportedQueryError
                    (MsgSeparatorInLeftOp (Type_ c) (LeftOp c) possibleKey))
           else Ok tt);
      checkNewLines c (RightOp c).

(** ** The query-string parser *)

(** The state [findRightOp] carries around its loop: the elements closed so
    far, the running [offset] and the contents of [rightOpBuffer]. *)
Record scan : Type := mkScan {
  sRightOp : list string;
  sOffset : Z;
  sBuf : string
}.

(** One iteration of [for _, ch := range remaining]; the boolean tells
    whether the iteration left the loop through [break].  The conditions
    are evaluated left to right and short-circuit as in the source, so an
    index is only read (and can only panic) where the source reads it. *)
Definition findRightOp_step (remaining : string) (ch : rune) (st : scan)
    : outcome (scan * bool) :=
  let off := sOffset st in
  if ch =? Separator then
    boundary ←
      (if off + 1 <? len remaining then
         next ← index remaining (off + 1);
         if byteZ next =? Separator then
           prev ← index remaining (off - 1);
           Ok (negb (Ascii.eqb prev Backslash))
         else Ok false
       else Ok false);
    if (boundary : bool) then
      Ok (mkScan (sRightOp st ++ [sBuf st]) (off + 1) EmptyString, false)
    else
      prev ← index remaining (off - 1);
      if byteZ prev =? Separator then
        Ok (mkScan (sRightOp st) (off + 1) (sBuf st), false)
      else if negb (Ascii.eqb prev Backslash) then
        Ok (mkScan (sRightOp st ++ [sBuf st]) off EmptyString, true)
      else
        tmp ← sliceTo (sBuf st) (off - 1);
        Ok (mkScan (sRightOp st) (off + 1) (tmp +:+ encodeRune ch), false)
  else
    Ok (mkScan (sRightOp st) (off + 1) (sBuf st +:+ encodeRune ch), false).

Fixpoint findRightOp_loop (remaining : string) (chs : list rune) (st : scan)
    : outcome scan :=
  match chs with
  | [] => Ok st
  | ch :: rest =>
    match findRightOp_step remaining ch st with
    | Ok (st', false) => findRightOp_loop remaining rest st'
    | Ok (st', true) => Ok st'
    | Err e => Err e
    | Panic p => Panic p
    end
  end.

(** The elements and the offset as they stand when the loop and the flush of
    a non-empty buffer are done, before any bracket is looked at. *)
Definition splitRightOp (remaining : string) : outcome (list string * Z) :=
  st ← findRightOp_loop remaining (runes remaining) (mkScan [] 0 EmptyString);
  Ok (if 0 <? len (sBuf st) then sRightOp st ++ [sBuf st] else sRightOp st,
      sOffset st).

(** The bracket handling of a multivariate operand. *)
Definition stripBrackets (rightOp : list string) (leftOp : string)
    (operator : Operator) (criteriaType : CriterionType)
    : outcome (list string) :=
  let bracketError :=
    UnsupportedQueryError (MsgBrackets operator criteriaType leftOp) in
  firstElement ← indexList rightOp 0;
  rightOp1 ←
    (if IndexRune firstElement OpenBracket =? 0 then
       t ← sliceFrom firstElement 1;
       Ok (<[0%nat := t]> rightOp)
     else Err bracketError);
  lastElement ← indexList rightOp1 (Z.of_nat (length rightOp1) - 1);
  lastByte ← index lastElement (len lastElement - 1);
  if byteZ lastByte =? CloseBracket then
    t ← sliceTo lastElement (len lastElement - 1);
    Ok (<[(length rightOp1 - 1)%nat := t]> rightOp1)
  else Err bracketError.

(** [findRightOp]: the right operands and the offset at which the scan
    stopped.  On an error the source returns [(nil, -1, err)]. *)
Definition findRightOp (remaining leftOp : string) (operator : Operator)
    (criteriaType : CriterionType) : outcome (list string * Z) :=
  '(rightOp, offset) ← splitRightOp remaining;
  rightOp ←
    (if (0 <? length rightOp)%nat && IsMultiVariate operator then
       stripBrackets rightOp leftOp operator criteriaType
     else Ok rightOp);
  Ok (if (length rightOp =? 0)%nat then rightOp ++ [EmptyString] else rightOp,
      offset).

(** [fmt.Sprintf("%c%s%c", OperandSeparator, op, OperandSeparator)] *)
Definition operatorPattern (op : Operator) : string :=
  encodeRune OperandSeparator +:+ op +:+ encodeRune OperandSeparator.

(** The inner loop of [process]: the first operator, in the order of
    [operators], whose pattern starts [remaining]. *)
Definition matchOperator (remaining : string) : option Operator :=
  List.find (fun op => HasPrefix remaining (operatorPattern op)) operators.

(** The outer loop of [process] from the loop test on, with the loop
    variables as arguments.  Every iteration advances [i], so [fuel] bounds
    the number of iterations still to run; [None] means it ran out. *)
Fixpoint process_loop `{GoEnv} (fuel : nat) (input : string)
    (criteriaType : CriterionType) (i j : Z) (leftOp : string)
    (operator : Operator) (c : list Criterion)
    : option (outcome (list Criterion)) :=
  match fuel with
  | O => None
  | S fuel' =>
    if negb (i <? len input) then Some (Ok c)
    else if negb (String.eqb leftOp EmptyString)
            && negb (String.eqb operator EmptyString) then
      match
        (remaining ← sliceFrom input (i + len operator + 1);
         '(rightOp, offset) ← findRightOp remaining leftOp operator criteriaType;
         let criterion := newCriterion leftOp operator rightOp criteriaType in
         _ ← Validate criterion;
         Ok (criterion, offset))
      with
      | Ok (criterion, offset) =>
        let i' := i + (offset + len operator + len (encodeRune Separator)) in
        process_loop fuel' input criteriaType (i' + 1) (i' + 1)
                     EmptyString EmptyString (c ++ [criterion])
      | Err e => Some (Err e)
      | Panic p => Some (Panic p)
      end
    else
      match sliceFrom input i with
      | Ok remaining =>
        match matchOperator remaining with
        | Some op =>
          match slice input j i with
          | Ok l => process_loop fuel' input criteriaType (i + 1) j l op c
          | Err e => Some (Err e)
          | Panic p => Some (Panic p)
          end
        | None =>
          process_loop fuel' input criteriaType (i + 1) j leftOp operator c
        end
      | Err e => Some (Err e)
      | Panic p => Some (Panic p)
      end
  end.

(** [process(input, criteriaType)] *)
Definition process `{GoEnv} (input : string) (criteriaType : CriterionType)
    : option (outcome (list Criterion)) :=
  if String.eqb input EmptyString then Some (Ok [])
  else
    match process_loop (S (String.length input)) input criteriaType 0 0
                       EmptyString EmptyString [] with
    | Some (Ok c) =>
      if (length c =? 0)%nat then
        Some (Err (UnsupportedQueryError (MsgNotValid input criteriaType)))
      else Some (Ok c)
    | r => r
    end.

(** ** Slices of criteria and the store they live in

    [mergeCriteria] appends to a slice it was handed, and [append] writes
    into the spare capacity of the slice's array when there is any, so the
    arrays are modelled: a store maps an array to its cells ([cap] of them)
    and a slice is an array with a length and a capacity.  No slice
    expression is ever applied to a slice of criteria, so every slice starts
    at the first cell of its array. *)

Abbreviation loc := positive (only parsing).
Abbreviation store := (gmap positive (list Criterion)) (only parsing).

(** [arr] is [None] for a slice that has no array: the nil slice and
    [[]Criterion{}], both of length and capacity zero. *)
Record Slice : Type := mkSlice {
  arr : option loc;
  slen : nat;
  scap : nat
}.

(** The zero value of [Criterion], which fills the unused cells of a new
    array. *)
Definition zeroCriterion : Criterion :=
  {| LeftOp := EmptyString; Operator_ := EmptyString; RightOp := [];
     Type_ := EmptyString |}.

Definition cells (h : store) (s : Slice) : list Criterion :=
  match arr s with
  | Some l => match h !! l with Some cs => cs | None => [] end
  | None => []
  end.

(** The elements [s[0], ..., s[len(s)-1]]. *)
Definition view (h : store) (s : Slice) : list Criterion :=
  take (slen s) (cells h s).

Definition emptySlice : Slice := {| arr := None; slen := 0; scap := 0 |}.

(** A slice is well formed in a store when its array is allocated with
    [cap] cells and its length does not exceed its capacity. *)
Definition slice_wf (h : store) (s : Slice) : Prop :=
  (slen s <= scap s)%nat /\ length (cells h s) = scap s /\
  match arr s with Some l => is_Some (h !! l) | None => True end.

(** A new array holding [xs] followed by zero values up to [cap] cells. *)
Definition allocSlice (h : store) (xs : list Criterion) (cap : nat)
    : Slice * store :=
  let l := fresh (dom h) in
  ({| arr := Some l; slen := length xs; scap := cap |},
   <[l := xs ++ replicate (cap - length xs) zeroCriterion]> h).

(** [append(s, xs...)]: in place when the capacity suffices, into a new
    array otherwise. *)
Definition append `{GoEnv} (h : store) (s : Slice) (xs : list Criterion)
    : Slice * store :=
  let n := (slen s + length xs)%nat in
  if (n <=? scap s)%nat then
    ({| arr := arr s; slen := n; scap := scap s |},
     match arr s with
     | Some l => <[l := take (slen s) (cells h s) ++ xs ++ drop n (cells h s)]> h
     | None => h
     end)
  else
    allocSlice h (view h s ++ xs) (growslice (scap s) n).

(** ** mergeCriteria *)

Abbreviation counts := (gmap string nat) (only parsing).

(** [m[k]++] *)
Definition increment (m : counts) (k : string) : counts :=
  <[k := S (default 0%nat (m !! k))]> m.

(** Body of the first loop of [mergeCriteria]. *)
Definition countStep (acc : counts * counts) (criterion : Criterion)
    : counts * counts :=
  let '(fieldQueryLeftOperands, labelQueryLeftOperands) := acc in
  let fieldQueryLeftOperands :=
    if String.eqb (Type_ criterion) FieldQuery
    then increment fieldQueryLeftOperands (LeftOp criterion)
    else fieldQueryLeftOperands in
  let labelQueryLeftOperands :=
    if String.eqb (Type_ criterion) LabelQuery
    then increment labelQueryLeftOperands (LeftOp criterion)
    else labelQueryLeftOperands in
  (fieldQueryLeftOperands, labelQueryLeftOperands).

Definition countLoop (cs : list Criterion) : counts * counts :=
  fold_left countStep cs (∅, ∅).

(** [count, ok := m[leftOp]; ok && count > 1] *)
Definition moreThanOnce (m : counts) (leftOp : string) : bool :=
  match m !! leftOp with
  | Some count => (1 <? count)%nat
  | None => false
  end.

(** Body of the second loop of [mergeCriteria]. *)
Definition checkStep `{GoEnv} (fieldQueryLeftOperands labelQueryLeftOperands : counts)
    (newCriterion : Criterion) : outcome unit :=
  let leftOp := LeftOp newCriterion in
  if moreThanOnce labelQueryLeftOperands leftOp
     && String.eqb (Type_ newCriterion) LabelQuery then
    Err (UnsupportedQueryError (MsgDuplicateLabelKey leftOp))
  else if moreThanOnce fieldQueryLeftOperands leftOp
          && String.eqb (Type_ newCriterion) FieldQuery then
    Err (UnsupportedQueryError (MsgDuplicateFieldKey leftOp))
  else Validate newCriterion.

Fixpoint checkLoop `{GoEnv} (fieldQueryLeftOperands labelQueryLeftOperands : counts)
    (c2 : list Criterion) : outcome unit :=
  match c2 with
  | [] => Ok tt
  | newCriterion :: rest =>
    match checkStep fieldQueryLeftOperands labelQueryLeftOperands newCriterion with
    | Ok _ => checkLoop fieldQueryLeftOperands labelQueryLeftOperands rest
    | Err e => Err e
    | Panic p => Panic p
    end
  end.

(** [mergeCriteria(c1, c2)] run in a store.  The first [append] builds the
    slice the counting loop ranges over; it is not kept, but what it wrote
    stays in the store whatever the outcome. *)
Definition mergeCriteria `{GoEnv} (h : store) (c1 c2 : Slice)
    : outcome Slice * store :=
  let result := c1 in
  let '(all, h1) := append h c1 (view h c2) in
  let '(fieldQueryLeftOperands, labelQueryLeftOperands) :=
    countLoop (view h1 all) in
  match checkLoop fieldQueryLeftOperands labelQueryLeftOperands (view h1 c2) with
  | Ok _ =>
    let '(result, h2) := append h1 result (view h1 c2) in
    (Ok result, h2)
  | Err e => (Err e, h1)
  | Panic p => (Panic p, h1)
  end.

(** ** The criteria carried by a context

    Of a [context.Context] only the values stored under [criteriaCtxKey]
    matter: a context is the chain of those values, innermost first. *)
Definition Context := list Slice.

Definition background : Context := [].

(** [context.WithValue(ctx, criteriaCtxKey{}, criteria)] *)
Definition ContextWithCriteria (ctx : Context) (criteria : Slice) : Context :=
  criteria :: ctx.

Definition CriteriaForContext (ctx : Context) : Slice :=
  match ctx with
  | [] => emptySlice
  | currentCriteria :: _ => currentCriteria
  end.

(** [AddCriteria(ctx, newCriteria...)] called with the criteria spelled out
    as arguments: the call allocates the variadic slice, of length and
    capacity [len(newCriteria)]. *)
Definition AddCriteria `{GoEnv} (h : store) (ctx : Context)
    (newCriteria : list Criterion) : outcome Context * store :=
  let '(variadic, h0) := allocSlice h newCriteria (length newCriteria) in
  let currentCriteria := CriteriaForContext ctx in
  match mergeCriteria h0 currentCriteria variadic with
  | (Ok criteria, h') => (Ok (ContextWithCriteria ctx criteria), h')
  | (Err e, h') => (Err e, h')
  | (Panic p, h') => (Panic p, h')
  end.

(** ** Storage helpers (storage/postgres) *)

(** The revision of the helpers that still has [list]. *)
Module PostgresV1.

(** [validateFieldQueryParams(baseEntity, criteria)]; [dbTags] are the [db]
    tags of the fields of [baseEntity], which is all the function reads of
    it. *)
Definition availableColumns (dbTags : list string) : gmap string bool :=
  fold_left (fun m dbTag => <[dbTag := true]> m) dbTags ∅.

Fixpoint validateLoop (columns : gmap string bool) (criteria : list Criterion)
    : outcome unit :=
  match criteria with
  | [] => Ok tt
  | criterion :: rest =>
    if negb (default false (columns !! LeftOp criterion)) then
      Err (UnsupportedQuery (MsgUnsupportedFieldKey (LeftOp criterion)))
    else validateLoop columns rest
  end.

Definition validateFieldQueryParams (dbTags : list string)
    (criteria : list Criterion) : outcome unit :=
  validateLoop (availableColumns dbTags) criteria.

(** [strings.Join] *)
Fixpoint Join (elems : list string) (sep : string) : string :=
  match elems with
  | [] => EmptyString
  | [e] => e
  | e :: rest => e +:+ sep +:+ Join rest sep
  end.

(** The inner loop of [list]: one disjunct per value of a key. *)
Definition orPairsOf (key : string) (values : list string) : list string :=
  map (fun value =>
         if negb (String.eqb value EmptyString)
         then key +:+ "='" +:+ value +:+ "'"
         else key +:+ " IS NULL") values.

(** [list(ctx, db, table, filter, dtos)]: the statement text and the
    arguments it hands to [db.SelectContext].  [filter] lists the entries
    of the map in the order the [range] visits them. *)
Definition list' (table : string) (filter : list (string * list string))
    : string * list string :=
  let sqlQuery := "SELECT * FROM " +:+ table in
  let sqlQuery :=
    if negb (length filter =? 0)%nat then
      let andPairs :=
        map (fun '(key, values) =>
               " (" +:+ Join (orPairsOf key values) " OR " +:+ ") ") filter in
      sqlQuery +:+ " WHERE " +:+ Join andPairs " AND "
    else sqlQuery in
  (sqlQuery, []).

End PostgresV1.

(** The later revision, where the columns are computed by the caller. *)
Module PostgresV2.

Fixpoint validateFieldQueryParams (columns : gmap string bool)
    (criteria : list Criterion) : outcome unit :=
  match criteria with
  | [] => Ok tt
  | criterion :: rest =>
    if String.eqb (Type_ criterion) FieldQuery
       && negb (default false (columns !! LeftOp criterion)) then
      Err (UnsupportedQueryError (MsgUnsupportedFieldKey (LeftOp criterion)))
    else validateFieldQueryParams columns rest
  end.

End PostgresV2.

(** ** The callers of the parser and of the merge, further storage helpers *)

(** [ByLeftOp.Less]: the order of the left operands as strings, byte by
    byte. *)
Definition Less (a b : Criterion) : bool := String.ltb (LeftOp a) (LeftOp b).

(** The slice [process] hands back: nil for no criteria, an array of its own
    otherwise.  Its capacity is never looked at. *)
Definition sliceOf (h : gmap positive (list Criterion)) (cs : list Criterion)
    : Slice * gmap positive (list Criterion) :=
  match cs with
  | [] => (emptySlice, h)
  | _ :: _ => allocSlice h cs (length cs)
  end.

(** The loop of [BuildCriteriaFromRequest] over the query types; [query]
    gives the value of the request parameter of each type. *)
Fixpoint buildLoop `{GoEnv} (h : gmap positive (list Criterion)) (criteria : Slice)
    (query : CriterionType -> string) (types : list CriterionType)
    : option (outcome Slice * gmap positive (list Criterion)) :=
  match types with
  | [] => Some (Ok criteria, h)
  | queryType :: rest =>
    match process (query queryType) queryType with
    | None => None
    | Some (Ok querySegments) =>
      let '(segments, h0) := sliceOf h querySegments in
      match mergeCriteria h0 criteria segments with
      | (Ok criteria', h1) => buildLoop h1 criteria' query rest
      | (Err e, h1) => Some (Err e, h1)
      | (Panic p, h1) => Some (Panic p, h1)
      end
    | Some (Err e) => Some (Err e, h)
    | Some (Panic p) => Some (Panic p, h)
    end
  end.

(** [BuildCriteriaFromRequest]; [sortByLeftOp] is what [sort.Sort] makes of
    the criteria under [Less]. *)
Definition BuildCriteriaFromRequest `{GoEnv}
    (sortByLeftOp : list Criterion -> list Criterion)
    (query : CriterionType -> string) : option (outcome (list Criterion)) :=
  match buildLoop ∅ emptySlice query supportedQueryTypes with
  | Some (Ok criteria, h) => Some (Ok (sortByLeftOp (view h criteria)))
  | Some (Err e, _) => Some (Err e)
  | Some (Panic p, _) => Some (Panic p)
  | None => None
  end.

(** How the loop of [OIDCLabelCriteriaFilter.Run] ends: the request goes on
    with the new context, or the filter returns the error it builds from the
    label key, the claim value and the error of [AddCriteria], or a panic of
    [AddCriteria] goes through. *)
Inductive filterResult : Type :=
| FilterNext (ctx : Context)
| FilterError (labelKey value : string) (cause : error)
| FilterPanic (p : panic).

(** The label criterion the filter adds for one entry of
    [LabelCriteriaKeysGroupedByClaims]; a claim the token lacks reads as the
    empty string. *)
Definition claimCriterion (claims : gmap string string)
    (entry : string * string) : Criterion :=
  ByLabel EqualsOperator (snd entry) [default EmptyString (claims !! fst entry)].

(** The loop of [Run] over the entries of [LabelCriteriaKeysGroupedByClaims],
    listed in the order the [range] visits them. *)
Fixpoint addLabelCriteria `{GoEnv} (h : gmap positive (list Criterion))
    (ctx : Context) (claims : gmap string string)
    (entries : list (string * string))
    : filterResult * gmap positive (list Criterion) :=
  match entries with
  | [] => (FilterNext ctx, h)
  | entry :: rest =>
    let criterion := claimCriterion claims entry in
    match AddCriteria h ctx [criterion] with
    | (Ok ctx', h') => addLabelCriteria h' ctx' claims rest
    | (Err e, h') =>
      (FilterError (snd entry) (default EmptyString (claims !! fst entry)) e, h')
    | (Panic p, h') => (FilterPanic p, h')
    end
  end.

(** [strings.Split(tag, ",")[0]]: the text before the first comma, the whole
    tag when it has none.  [Split] with a non-empty separator returns at
    least one element, so the index is in range. *)
Fixpoint beforeComma (tag : string) : string :=
  match tag with
  | EmptyString => EmptyString
  | String b rest =>
    if byteZ b =? 44 then EmptyString else String b (beforeComma rest)
  end.

(** [columnsByTags] of the later revision; of a [tagType] only [Tag] is
    read. *)
Definition columnsByTags (tags : list string) : gmap string bool :=
  fold_left (fun availableColumns dbTag =>
               <[beforeComma dbTag := true]> availableColumns) tags ∅.

(** A [json.RawMessage] or [sqlxtypes.JSONText]: a byte slice, which can be
    nil. *)
Definition jsonBytes := option string.

(** [len(item)] *)
Definition jsonLen (item : jsonBytes) : Z :=
  match item with Some s => len s | None => 0 end.

(** [string(item)] *)
Definition jsonString (item : jsonBytes) : string :=
  match item with Some s => s | None => EmptyString end.

(** [getJSONText] *)
Definition getJSONText (item : jsonBytes) : jsonBytes :=
  if (jsonLen item =? len "null") && String.eqb (jsonString item) "null"
  then Some "{}"
  else item.

(** [getJSONRawMessage] *)
Definition getJSONRawMessage (item : jsonBytes) : jsonBytes :=
  if (jsonLen item <=? len "null")
     && (String.eqb (jsonString item) "{}" || String.eqb (jsonString item) "null")
  then None
  else item.

(** ** An environment to run the code in

    The general results below hold for every [GoEnv].  Closed examples need
    one: this one accepts as floats the decimal numerals with an optional
    fraction, as timestamps the strings shaped [dddd-dd-ddTdd:dd:ddZ], and
    doubles the capacity of a slice that has to grow, which is what the Go
    runtime does for the slices of a few criteria met below.  No example
    depends on what the two parsers accept beyond that. *)

Fixpoint allDigits (bs : list byte) : bool :=
  match bs with
  | [] => true
  | b :: rest => isDigit b && allDigits rest
  end.

Fixpoint splitAtDot (bs acc : list byte) : list byte * option (list byte) :=
  match bs with
  | [] => (acc, None)
  | b :: rest =>
    if byteZ b =? 46 then (acc, Some rest) else splitAtDot rest (acc ++ [b])
  end.

Definition decimalNumeral (s : string) : bool :=
  let bs := bytes s in
  let bs := match bs with
            | b :: rest => if (byteZ b =? 43) || (byteZ b =? 45) then rest else bs
            | [] => bs
            end in
  match splitAtDot bs [] with
  | (int, None) => negb (length int =? 0)%nat && allDigits int
  | (int, Some frac) =>
    negb ((length int + length frac)%nat =? 0)%nat && allDigits int && allDigits frac
  end.

Fixpoint matchesShape (shape bs : list byte) : bool :=
  match shape, bs with
  | [], [] => true
  | p :: shape', b :: bs' =>
    (if byteZ p =? 100 then isDigit b else Ascii.eqb p b) && matchesShape shape' bs'
  | _, _ => false
  end.

Definition utcTimestamp (s : string) : bool :=
  matchesShape (bytes "dddd-dd-ddTdd:dd:ddZ") (bytes s).

Definition exampleEnv : GoEnv := {|
  ParseFloat64_ok := decimalNumeral;
  ParseRFC3339_ok := utcTimestamp;
  growslice := fun oldCap needed => Nat.max needed (2 * oldCap);
  growslice_ge := fun oldCap needed => Nat.le_max_l needed (2 * oldCap)
|}.

(** * Vocabulary of the statements *)

(** Slices that a write past the end of [s] cannot reach: those of another
    array and those of the same array that are no longer than [s]. *)
Definition outOfReach (s t : Slice) : Prop :=
  arr t <> arr s \/ (slen t <= slen s)%nat.

(** The left operands of the criteria of one type, in order. *)
Fixpoint keysOf (ty : CriterionType) (cs : list Criterion) : list string :=
  match cs with
  | [] => []
  | c :: rest =>
    if String.eqb (Type_ c) ty then LeftOp c :: keysOf ty rest
    else keysOf ty rest
  end.

Definition occurrences (ty : CriterionType) (cs : list Criterion) (k : string)
    : nat :=
  count_occ String.string_dec (keysOf ty cs) k.

(** No two field criteria and no two label criteria share a left operand. *)
Definition noDuplicateKeys (cs : list Criterion) : Prop :=
  NoDup (keysOf FieldQuery cs) /\ NoDup (keysOf LabelQuery cs).

(** What the second loop of [mergeCriteria] decides for the elements
    [incoming] merged into [existing]. *)
Definition checkIncoming `{GoEnv} (existing incoming : list Criterion)
    : outcome unit :=
  checkLoop (fst (countLoop (existing ++ incoming)))
            (snd (countLoop (existing ++ incoming))) incoming.

(** The error of the second loop for a key met more than once among the
    criteria of type [ty]. *)
Definition duplicateKeyError (ty : CriterionType) (k : string) : error :=
  UnsupportedQueryError
    (if String.eqb ty LabelQuery then MsgDuplicateLabelKey k
     else MsgDuplicateFieldKey k).

(** A store with the three arrays of the example: the existing field
    criterion and the two incoming criteria, all keyed [x]. *)
Definition exampleStore : gmap positive (list Criterion) :=
  <[1%positive := [ByField EqualsOperator "x" ["1"]]]>
    (<[2%positive := [ByField EqualsOperator "x" ["2"]]]>
       (<[3%positive := [ByLabel EqualsOperator "x" ["2"]]]> ∅)).

Definition sliceAt (l : positive) : Slice :=
  {| arr := Some l; slen := 1; scap := 1 |}.

(** The contexts a chain of [AddCriteria] calls leads to, with the store
    each is read in.  The chain starts from a context that carries no
    criteria, in any store; every call is made on the context the chain has
    reached, and a call that does not succeed leaves the context as it is
    (and its writes in the store). *)
Inductive reachable `{GoEnv} : gmap positive (list Criterion) -> Context -> Prop :=
| reach_background (h : gmap positive (list Criterion)) :
    reachable h background
| reach_added (h h' : gmap positive (list Criterion)) (ctx ctx' : Context)
    (newCriteria : list Criterion) :
    reachable h ctx ->
    AddCriteria h ctx newCriteria = (Ok ctx', h') ->
    reachable h' ctx'
| reach_refused (h h' : gmap positive (list Criterion)) (ctx : Context)
    (newCriteria : list Criterion) (r : outcome Context) :
    reachable h ctx ->
    AddCriteria h ctx newCriteria = (r, h') -> isOk r = false ->
    reachable h' ctx.

(** One more call in a chain: the context moves on when the call succeeds
    and stays when it does not. *)
Definition chainStep `{GoEnv} (st : gmap positive (list Criterion) * Context)
    (newCriteria : list Criterion) : gmap positive (list Criterion) * Context :=
  match AddCriteria (fst st) (snd st) newCriteria with
  | (Ok ctx', h') => (h', ctx')
  | (_, h') => (h', snd st)
  end.

(** The identity stage adds a label criterion after the request's own field
    criterion; a second field criterion keyed [x] is refused. *)
Definition exampleChain : gmap positive (list Criterion) * Context :=
  @chainStep exampleEnv
    (@chainStep exampleEnv
       (@chainStep exampleEnv (∅, background) [ByField EqualsOperator "x" ["1"]])
       [ByLabel EqualsOperator "x" ["2"]])
    [ByField EqualsOperator "x" ["3"]].

(** Two handles derived from one origin.  The origin holds four field
    criteria in an array that has room for six; the first handle is two calls
    further down, the second call on the origin adds one criterion keyed
    like the last of the first handle. *)
Definition forkOrigin : gmap positive (list Criterion) * Context :=
  @chainStep exampleEnv
    (@chainStep exampleEnv (∅, background)
       [ByField EqualsOperator "a" ["1"]; ByField EqualsOperator "b" ["1"];
        ByField EqualsOperator "c" ["1"]])
    [ByField EqualsOperator "d" ["1"]].

Definition forkFirst : gmap positive (list Criterion) * Context :=
  @chainStep exampleEnv
    (@chainStep exampleEnv forkOrigin [ByField EqualsOperator "y" ["1"]])
    [ByField EqualsOperator "z" ["1"]].

Definition forkSecond : outcome Context * gmap positive (list Criterion) :=
  @AddCriteria exampleEnv (fst forkFirst) (snd forkOrigin)
    [ByField EqualsOperator "z" ["2"]].

(** ** Vocabulary of the further properties *)

(** A byte that the scan of a right operand copies as it is: ASCII, neither
    the separator nor the backslash. *)
Definition isPlain (b : byte) : bool :=
  (byteZ b <? 128) && negb (byteZ b =? Separator) && negb (Ascii.eqb b Backslash).

(** A text made of such bytes. *)
Definition plainValue (v : string) : bool := forallb isPlain (bytes v).

(** Where the scan of a right operand stops: at the end of the text or at a
    separator that is not doubled. *)
Definition endsValue (tail : string) : bool :=
  match tail with
  | EmptyString => true
  | String b tail' =>
    (byteZ b =? Separator)
    && match tail' with
       | EmptyString => true
       | String b' _ => negb (byteZ b' =? Separator)
       end
  end.

(** An element of a right operand that can be spelled: plain and not
    empty. *)
Definition plainElement (v : string) : bool :=
  plainValue v && negb (String.eqb v EmptyString).

(** What [findRightOp] returns of a scan: the elements with the buffer
    flushed. *)
Definition flushed (st : scan) : list string :=
  if 0 <? len (sBuf st) then sRightOp st ++ [sBuf st] else sRightOp st.

(** The text of a right operand as a query string spells it: the elements
    joined by doubled separators, between brackets for a multivariate
    operator. *)
Definition operandText (op : Operator) (vs : list string) : string :=
  if IsMultiVariate op then "[" +:+ PostgresV1.Join vs "||" +:+ "]" else PostgresV1.Join vs "||".

(** Right operands that can be spelled: at least one, exactly one unless the
    operator is multivariate, each non-empty and made of ASCII bytes other
    than the separator and the backslash. *)
Definition printableOperand (op : Operator) (vs : list string) : bool :=
  negb (length vs =? 0)%nat && forallb plainElement vs
  && (IsMultiVariate op || (length vs =? 1)%nat).

(** A byte other than the space and the separator. *)
Definition isKeyByte (b : byte) : bool :=
  negb (byteZ b =? OperandSeparator) && negb (byteZ b =? Separator).

(** A left operand that can be spelled: not empty, without a space and
    without a separator. *)
Definition plainKey (k : string) : bool :=
  negb (String.eqb k EmptyString) && forallb isKeyByte (bytes k).

(** A criterion that can be spelled as a query string: a key, one of the
    operators and right operands that can be spelled. *)
Definition printable (c : Criterion) : bool :=
  plainKey (LeftOp c)
  && existsb (String.eqb (Operator_ c)) operators
  && printableOperand (Operator_ c) (RightOp c).

(** One criterion as a query string spells it. *)
Definition segmentText (c : Criterion) : string :=
  LeftOp c +:+ operatorPattern (Operator_ c)
  +:+ operandText (Operator_ c) (RightOp c).

(** A list of criteria as a query string spells it. *)
Definition queryText (cs : list Criterion) : string :=
  PostgresV1.Join (map segmentText cs) "|".

(** Whether an operator pattern starts somewhere in the text. *)
Fixpoint anyOperator (s : string) : bool :=
  match s with
  | EmptyString => false
  | String _ rest =>
    match matchOperator s with
    | Some _ => true
    | None => anyOperator rest
    end
  end.

(** What holds of a criterion the parser has built for the type
    [criteriaType]. *)
Definition parsed `{GoEnv} (criteriaType : CriterionType) (c : Criterion) : Prop :=
  Type_ c = criteriaType /\ LeftOp c <> EmptyString /\ In (Operator_ c) operators
  /\ RightOp c <> [] /\ Validate c = Ok tt.

(** What the second loop of [mergeCriteria] asks of an incoming criterion
    [c], [all] being the criteria of both slices: it is valid, and if it is
    a field (label) criterion its left operand occurs once among the field
    (label) criteria. *)
Definition passesMerge (validate : Criterion -> outcome unit) (all : list Criterion)
    (c : Criterion) : Prop :=
  validate c = Ok tt
  /\ (Type_ c = FieldQuery -> (occurrences FieldQuery all (LeftOp c) <= 1)%nat)
  /\ (Type_ c = LabelQuery -> (occurrences LabelQuery all (LeftOp c) <= 1)%nat).

(** A sort to run the examples with: insertion under [Less]. *)
Fixpoint insertByLeftOp (c : Criterion) (cs : list Criterion) : list Criterion :=
  match cs with
  | [] => [c]
  | x :: rest => if Less c x then c :: x :: rest else x :: insertByLeftOp c rest
  end.

(** Insertion sort by left operand. *)
Definition insertionSort (cs : list Criterion) : list Criterion :=
  foldr insertByLeftOp [] cs.

(** The query parameters of an example request: two field criteria out of
    order and one label criterion. *)
Definition exampleQuery (queryType : CriterionType) : string :=
  if String.eqb queryType FieldQuery then "b = 1|a = 2" else "x = y".

(** What [Builder.WriteRune] has written after a list of runes. *)
Definition encodeRunes (chs : list rune) : string :=
  foldr (fun ch acc => encodeRune ch +:+ acc) EmptyString chs.

(** No byte of the text is the separator. *)
Definition separatorFree (s : string) : Prop :=
  Forall (fun b => byteZ b <> Separator) (bytes s).

(** * Properties *)

(** ** Strings *)

Lemma len_nonneg (s : string) : 0 <= len s.
Proof. unfold len. lia. Qed.

Lemma length_append (a b : string) :
  String.length (a +:+ b) = (String.length a + String.length b)%nat.
Proof. induction a as [|c a IH]; simpl; [reflexivity | now rewrite IH]. Qed.

Lemma len_append (a b : string) : len (a +:+ b) = len a + len b.
Proof. unfold len. rewrite length_append. lia. Qed.

Lemma substring_zero (n : nat) (s : string) :
  String.substring n 0 s = EmptyString.
Proof.
  revert n. induction s as [|c s IH]; intros [|n]; simpl; auto.
Qed.

Lemma substring_all (s : string) :
  String.substring 0 (String.length s) s = s.
Proof. induction s as [|c s IH]; simpl; [reflexivity | now rewrite IH]. Qed.

Lemma substring_append_l (a b : string) :
  String.substring 0 (String.length a) (a +:+ b) = a.
Proof.
  induction a as [|c a IH]; simpl.
  - apply substring_zero.
  - now rewrite IH.
Qed.

Lemma substring_append_r (a b : string) (n : nat) :
  String.substring (String.length a) n (a +:+ b) = String.substring 0 n b.
Proof. induction a as [|c a IH]; simpl; auto. Qed.

Lemma slice_ok (s : string) (lo hi : Z) :
  0 <= lo -> lo <= hi -> hi <= len s ->
  slice s lo hi = Ok (String.substring (Z.to_nat lo) (Z.to_nat (hi - lo)) s).
Proof.
  intros H1 H2 H3. unfold slice.
  destruct (Z.leb_spec 0 lo); [|lia].
  destruct (Z.leb_spec lo hi); [|lia].
  destruct (Z.leb_spec hi (len s)); [|lia].
  reflexivity.
Qed.

Lemma sliceFrom_append (a b : string) :
  sliceFrom (a +:+ b) (len a) = Ok b.
Proof.
  unfold sliceFrom. rewrite slice_ok.
  - rewrite len_append. unfold len.
    replace (Z.of_nat (String.length a) + Z.of_nat (String.length b)
             - Z.of_nat (String.length a)) with (Z.of_nat (String.length b)) by lia.
    rewrite !Nat2Z.id, substring_append_r, substring_all. reflexivity.
  - apply len_nonneg.
  - rewrite len_append. pose proof (len_nonneg b). lia.
  - lia.
Qed.

Lemma sliceFrom_end (s : string) : sliceFrom s (len s) = Ok EmptyString.
Proof.
  unfold sliceFrom. rewrite slice_ok; try lia; [|apply len_nonneg].
  rewrite Z.sub_diag. simpl. now rewrite substring_zero.
Qed.

Lemma slice_prefix_append (a b : string) :
  slice (a +:+ b) 0 (len a) = Ok a.
Proof.
  rewrite slice_ok; try lia.
  - rewrite Z.sub_0_r. unfold len. rewrite Nat2Z.id. simpl.
    now rewrite substring_append_l.
  - apply len_nonneg.
  - rewrite len_append. pose proof (len_nonneg b). lia.
Qed.

(** ** The parser always returns *)

Lemma findRightOp_step_offset (remaining : string) (ch : rune) (st st' : scan)
    (b : bool) :
  findRightOp_step remaining ch st = Ok (st', b) -> sOffset st <= sOffset st'.
Proof.
  unfold findRightOp_step. intros Hstep.
  repeat match type of Hstep with
  | context [if ?c then _ else _] => destruct c
  | context [mbind _ ?m] => destruct m; simpl in Hstep
  | Ok _ = Ok _ => inversion Hstep; subst; clear Hstep; simpl; lia
  | _ => discriminate
  end.
Qed.

Lemma findRightOp_loop_offset (remaining : string) (chs : list rune)
    (st st' : scan) :
  findRightOp_loop remaining chs st = Ok st' -> sOffset st <= sOffset st'.
Proof.
  revert st. induction chs as [|ch chs IH]; simpl; intros st Hloop.
  - inversion Hloop. lia.
  - destruct (findRightOp_step remaining ch st) as [[st1 [|]]| |] eqn:Hstep;
      try discriminate.
    + inversion Hloop; subst. eapply findRightOp_step_offset; eauto.
    + apply findRightOp_step_offset in Hstep. apply IH in Hloop. lia.
Qed.

Lemma findRightOp_offset_nonneg (remaining leftOp : string) (operator : Operator)
    (criteriaType : CriterionType) (rightOp : list string) (offset : Z) :
  findRightOp remaining leftOp operator criteriaType = Ok (rightOp, offset) ->
  0 <= offset.
Proof.
  unfold findRightOp, splitRightOp. intros Hf.
  destruct (findRightOp_loop remaining (runes remaining) (mkScan [] 0 EmptyString))
    as [st| |] eqn:Hloop; simpl in Hf; try discriminate.
  apply findRightOp_loop_offset in Hloop. simpl in Hloop.
  match type of Hf with
  | context [mbind _ ?m] => destruct m; simpl in Hf; try discriminate
  end.
  inversion Hf; subst. exact Hloop.
Qed.

(** The fuel [process] starts with is enough: the parser returns (a list,
    an error or a panic) on every input. *)
Lemma process_loop_returns `{GoEnv} (fuel : nat) (input : string)
    (criteriaType : CriterionType) (i j : Z) (leftOp : string)
    (operator : Operator) (c : list Criterion) :
  (0 < fuel)%nat -> len input - i < Z.of_nat fuel ->
  exists r, process_loop fuel input criteriaType i j leftOp operator c = Some r.
Proof.
  revert i j leftOp operator c.
  induction fuel as [|fuel IH]; intros i j leftOp operator c Hpos Hfuel; [lia|].
  cbn [process_loop].
  destruct (Z.ltb_spec i (len input)) as [Hlt|Hge]; cbn [negb]; [|eauto].
  destruct (negb (String.eqb leftOp EmptyString)
            && negb (String.eqb operator EmptyString)).
  - destruct (sliceFrom input (i + len operator + 1)) as [remaining| |];
      cbn [mbind outcome_bind]; eauto.
    destruct (findRightOp remaining leftOp operator criteriaType)
      as [[rightOp offset]| |] eqn:Hfind; cbn [mbind outcome_bind]; eauto.
    apply findRightOp_offset_nonneg in Hfind.
    destruct (Validate (newCriterion leftOp operator rightOp criteriaType));
      cbn [mbind outcome_bind]; eauto.
    pose proof (len_nonneg operator). pose proof (len_nonneg (encodeRune Separator)).
    apply IH; lia.
  - destruct (sliceFrom input i) as [remaining| |]; eauto.
    destruct (matchOperator remaining) as [op|].
    + destruct (slice input j i); eauto. apply IH; lia.
    + apply IH; lia.
Qed.

Theorem process_returns `{GoEnv} (input : string) (criteriaType : CriterionType) :
  exists r, process input criteriaType = Some r.
Proof.
  unfold process. destruct (String.eqb input EmptyString); [eauto|].
  destruct (process_loop_returns (S (String.length input)) input criteriaType
              0 0 EmptyString EmptyString []) as [r Hr].
  - lia.
  - unfold len. lia.
  - rewrite Hr. destruct r as [c| |]; eauto.
    destruct (length c =? 0)%nat; eauto.
Qed.

(** ** Escaped separators (C2) *)

(** C2.  A backslash before a separator makes the separator part of the
    value: [name = foo\|bar] yields the single criterion with right operand
    [foo|bar].  The backslash is cut at [offset-1] of the buffer, which is
    its position only until one backslash has been dropped: of two escaped
    separators in one value the second keeps its backslash, so
    [name = a\|b\|c] yields [a|b\|c] and not [a|b|c]. *)
Theorem escaped_separator_second_keeps_backslash `{GoEnv} :
  process "name = foo\|bar" FieldQuery
    = Some (Ok [ByField EqualsOperator "name" ["foo|bar"]])
  /\ process "name = a\|b\|c" FieldQuery
    = Some (Ok [ByField EqualsOperator "name" ["a|b\|c"]]).
Proof. split; vm_compute; reflexivity. Qed.

(** Once an element of a list has been closed the buffer is shorter than
    [offset-1] and the cut panics. *)
Lemma escaped_separator_in_list_panics `{GoEnv} :
  process "status in [a||b\|c]" FieldQuery = Some (Panic SliceBoundsOutOfRange).
Proof. vm_compute; reflexivity. Qed.

(** A value that starts a segment with a separator is indexed at [-1]. *)
Lemma leading_separator_panics `{GoEnv} :
  process "a = |b = 1" FieldQuery = Some (Panic IndexOutOfRange).
Proof. vm_compute; reflexivity. Qed.

(** ** Brackets of a multivariate operand (C3) *)

Lemma get_append_last (a : string) (c : byte) :
  String.get (String.length a) (a +:+ String c EmptyString) = Some c.
Proof. induction a as [|d a IH]; simpl; auto. Qed.

Lemma index_append_last (a : string) (c : byte) :
  index (a +:+ String c EmptyString) (len (a +:+ String c EmptyString) - 1) = Ok c.
Proof.
  unfold index. rewrite len_append.
  replace (len a + len (String c EmptyString) - 1) with (len a)
    by (unfold len; simpl; lia).
  pose proof (len_nonneg a) as Hlen.
  destruct (Z.leb_spec 0 (len a)); [|lia].
  destruct (Z.ltb_spec (len a) (len a + len (String c EmptyString)));
    [|unfold len in *; simpl in *; lia].
  simpl. unfold len. rewrite Nat2Z.id, get_append_last. reflexivity.
Qed.

Lemma sliceTo_append_last (a : string) (c : byte) :
  sliceTo (a +:+ String c EmptyString) (len (a +:+ String c EmptyString) - 1)
  = Ok a.
Proof.
  rewrite len_append.
  replace (len a + len (String c EmptyString) - 1) with (len a)
    by (unfold len; simpl; lia).
  apply slice_prefix_append.
Qed.

Lemma sliceFrom_tail (c : byte) (s : string) : sliceFrom (String c s) 1 = Ok s.
Proof. apply (sliceFrom_append (String c EmptyString) s). Qed.

Lemma indexList_last {A} (init : list A) (x : A) :
  indexList (init ++ [x]) (Z.of_nat (length (init ++ [x])) - 1) = Ok x.
Proof.
  unfold indexList. rewrite length_app. simpl.
  replace (Z.of_nat (length init + 1) - 1) with (Z.of_nat (length init)) by lia.
  destruct (Z.leb_spec 0 (Z.of_nat (length init))); [|lia].
  destruct (Z.ltb_spec (Z.of_nat (length init)) (Z.of_nat (length init + 1))); [|lia].
  simpl. rewrite Nat2Z.id, list_lookup_middle; auto.
Qed.

Lemma insert_last {A} (init : list A) (x y : A) :
  <[(length (init ++ [x]) - 1)%nat := y]> (init ++ [x]) = init ++ [y].
Proof.
  rewrite length_app. simpl.
  replace (length init + 1 - 1)%nat with (length init + 0)%nat by lia.
  now rewrite insert_app_r.
Qed.

(** What [stripBrackets] does to a list of elements whose first element has
    been stripped of its opening bracket already. *)
Lemma stripBrackets_open (first' : string) (rest : list string)
    (leftOp : string) (operator : Operator) (criteriaType : CriterionType) :
  stripBrackets (String "[" first' :: rest) leftOp operator criteriaType
  = (lastElement ← indexList (first' :: rest)
                      (Z.of_nat (length (first' :: rest)) - 1);
     lastByte ← index lastElement (len lastElement - 1);
     if byteZ lastByte =? CloseBracket then
       t ← sliceTo lastElement (len lastElement - 1);
       Ok (<[(length (first' :: rest) - 1)%nat := t]> (first' :: rest))
     else Err (UnsupportedQueryError (MsgBrackets operator criteriaType leftOp))).
Proof.
  unfold stripBrackets.
  change (indexList (String "[" first' :: rest) 0) with (Ok (String "[" first')).
  cbn [mbind outcome_bind].
  change (IndexRune (String "[" first') OpenBracket =? 0) with true.
  cbn iota. rewrite sliceFrom_tail. reflexivity.
Qed.

(** C3, amended.  The elements of a multivariate operand are separated by
    two separators: [status in [a||b||c]] yields the right operands a, b, c,
    and [status in a] fails with the bracket error.  In general, when the
    operand of a multivariate operator splits into at least one element, a
    first element that does not start with the opening bracket is an error;
    otherwise the opening bracket is stripped and the last element must end
    with the closing bracket, which is stripped too; a last element that
    ends with another byte is an error. *)
Theorem multivariate_brackets `{GoEnv} :
  process "status in [a||b||c]" FieldQuery
    = Some (Ok [ByField InOperator "status" ["a"; "b"; "c"]])
  /\ process "status in a" FieldQuery
    = Some (Err (UnsupportedQueryError (MsgBrackets InOperator FieldQuery "status")))
  /\ forall (remaining leftOp : string) (operator : Operator)
       (criteriaType : CriterionType) (first : string) (rest : list string)
       (offset : Z),
       IsMultiVariate operator = true ->
       splitRightOp remaining = Ok (first :: rest, offset) ->
       let bracketError :=
         Err (UnsupportedQueryError (MsgBrackets operator criteriaType leftOp)) in
       (IndexRune first OpenBracket <> 0 ->
        findRightOp remaining leftOp operator criteriaType = bracketError)
       /\ (forall (first' : string) (init : list string) (last' : string),
             first = String "[" first' ->
             first' :: rest = init ++ [last' +:+ "]"] ->
             findRightOp remaining leftOp operator criteriaType
             = Ok (init ++ [last'], offset))
       /\ (forall (first' : string) (init : list string) (last' : string)
             (b : byte),
             first = String "[" first' ->
             first' :: rest = init ++ [last' +:+ String b EmptyString] ->
             byteZ b <> CloseBracket ->
             findRightOp remaining leftOp operator criteriaType = bracketError).
Proof.
  split; [vm_compute; reflexivity|].
  split; [vm_compute; reflexivity|].
  intros remaining leftOp operator criteriaType first rest offset Hmulti Hsplit
         bracketError.
  unfold findRightOp. rewrite Hsplit. cbn [mbind outcome_bind].
  rewrite Hmulti. cbn [length Nat.ltb Nat.leb andb].
  repeat split.
  - intros Hno. unfold stripBrackets.
    change (indexList (first :: rest) 0) with (Ok first).
    cbn [mbind outcome_bind].
    destruct (Z.eqb_spec (IndexRune first OpenBracket) 0); [contradiction|].
    reflexivity.
  - intros first' init last' -> Hlast.
    rewrite stripBrackets_open, Hlast, indexList_last.
    cbn [mbind outcome_bind].
    rewrite index_append_last. cbn [mbind outcome_bind].
    change (byteZ "]"%char =? CloseBracket) with true. cbn iota.
    rewrite sliceTo_append_last. cbn [mbind outcome_bind].
    rewrite insert_last, length_app. simpl.
    destruct (Nat.eqb_spec (length init + 1) 0); [lia|reflexivity].
  - intros first' init last' b -> Hlast Hb.
    rewrite stripBrackets_open, Hlast, indexList_last.
    cbn [mbind outcome_bind].
    rewrite index_append_last. cbn [mbind outcome_bind].
    destruct (Z.eqb_spec (byteZ b) CloseBracket); [contradiction|].
    reflexivity.
Qed.

Lemma multivariate_brackets_witness :
  findRightOp "[a||b]" "status" InOperator FieldQuery = Ok (["a"; "b"], 6).
Proof.
  refine (proj1 (proj2 (proj2 (proj2 (@multivariate_brackets exampleEnv))
            "[a||b]" "status" InOperator FieldQuery "[a" ["b]"] 6 _ _))
            "a" ["a"] "b" _ _); reflexivity.
Defined.

(** The single separator of [status in [a|b|c]] ends the operand after its
    first element, which has no closing bracket. *)
Lemma single_separator_list_rejected :
  @process exampleEnv "status in [a|b|c]" FieldQuery
  = Some (Err (UnsupportedQueryError (MsgBrackets InOperator FieldQuery "status"))).
Proof. vm_compute; reflexivity. Qed.

(** ** An input that ends after the operator (C10) *)

Lemma operatorPattern_eq (op : Operator) :
  operatorPattern op = String " " (op +:+ " ").
Proof. reflexivity. Qed.

Lemma len_operatorPattern (op : Operator) : len (operatorPattern op) = len op + 2.
Proof.
  rewrite operatorPattern_eq. unfold len. simpl. rewrite length_append. simpl. lia.
Qed.

Lemma matchOperator_pattern (op : Operator) :
  In op operators -> matchOperator (operatorPattern op) = Some op.
Proof.
  unfold operators. simpl.
  intros [<-|[<-|[<-|[<-|[<-|[<-|[<-|[<-|[<-|[]]]]]]]]]]; vm_compute; reflexivity.
Qed.

Lemma operators_nonempty (op : Operator) : In op operators -> 1 <= len op.
Proof.
  unfold operators. simpl.
  intros [<-|[<-|[<-|[<-|[<-|[<-|[<-|[<-|[<-|[]]]]]]]]]]; vm_compute; discriminate.
Qed.

(** While no operator pattern starts at the current position and no left
    operand is pending, the scan moves on by one byte. *)
Lemma process_loop_scan `{GoEnv} (n fuel : nat) (input : string)
    (criteriaType : CriterionType) (i j : Z) (c : list Criterion) :
  0 <= i -> i + Z.of_nat n <= len input ->
  (forall k remaining, i <= k < i + Z.of_nat n ->
     sliceFrom input k = Ok remaining -> matchOperator remaining = None) ->
  process_loop (n + fuel) input criteriaType i j EmptyString EmptyString c
  = process_loop fuel input criteriaType (i + Z.of_nat n) j EmptyString EmptyString c.
Proof.
  revert i. induction n as [|n IH]; intros i Hi Hlen Hnone.
  - simpl. now rewrite Z.add_0_r.
  - cbn [Nat.add process_loop].
    destruct (Z.ltb_spec i (len input)); [|lia]. cbn [negb].
    change (negb (String.eqb EmptyString EmptyString)) with false. cbn [andb].
    unfold sliceFrom at 1. rewrite slice_ok by lia.
    rewrite (Hnone i _ ltac:(lia) ltac:(unfold sliceFrom; apply slice_ok; lia)).
    rewrite IH; [f_equal; lia|lia|lia|].
    intros k remaining Hk. apply Hnone. lia.
Qed.

Lemma findRightOp_empty (leftOp : string) (operator : Operator)
    (criteriaType : CriterionType) :
  findRightOp EmptyString leftOp operator criteriaType = Ok ([EmptyString], 0).
Proof. reflexivity. Qed.

Lemma eqb_nonempty (s : string) : s <> EmptyString -> String.eqb s EmptyString = false.
Proof. destruct s; [congruence|reflexivity]. Qed.

(** C10, amended.  When the input is a non-empty left operand followed by an
    operator token and nothing else, and that token is the first one the
    scan meets, the pending value is closed as one empty string and the
    criterion built from it is validated like any other; the outcome of the
    parse is the outcome of that validation: exactly that criterion when it
    is accepted, its error when it is refused, its panic when it panics.
    In a field or label query a numeric operator is refused, the empty string
    being neither a number nor a timestamp for the Go library, and in a label
    query so is the nullable operator. *)
Theorem trailing_operator_empty_operand `{GoEnv} (leftOp : string)
    (operator : Operator) (criteriaType : CriterionType) :
  leftOp <> EmptyString ->
  In operator operators ->
  (forall k remaining, 0 <= k < len leftOp ->
     sliceFrom (leftOp +:+ operatorPattern operator) k = Ok remaining ->
     matchOperator remaining = None) ->
  process (leftOp +:+ operatorPattern operator) criteriaType
  = match Validate (newCriterion leftOp operator [EmptyString] criteriaType) with
    | Ok _ => Some (Ok [newCriterion leftOp operator [EmptyString] criteriaType])
    | Err e => Some (Err e)
    | Panic p => Some (Panic p)
    end
  /\ (criteriaType = FieldQuery \/ criteriaType = LabelQuery ->
      IsNumeric operator = true ->
      ParseFloat64_ok EmptyString = false ->
      ParseRFC3339_ok EmptyString = false ->
      process (leftOp +:+ operatorPattern operator) criteriaType
      = Some (Err (UnsupportedQueryError (MsgNotNumeric operator EmptyString))))
  /\ (criteriaType = LabelQuery ->
      operator = EqualsOrNilOperator ->
      process (leftOp +:+ operatorPattern operator) criteriaType
      = Some (Err (UnsupportedQueryError MsgNullableOnlyFields))).
Proof.
  intros Hleft Hop Hnone.
  assert (Hprocess :
    process (leftOp +:+ operatorPattern operator) criteriaType
    = match Validate (newCriterion leftOp operator [EmptyString] criteriaType) with
      | Ok _ => Some (Ok [newCriterion leftOp operator [EmptyString] criteriaType])
      | Err e => Some (Err e)
      | Panic p => Some (Panic p)
      end).
  { assert (Hlen : len (leftOp +:+ operatorPattern operator)
                   = len leftOp + len operator + 2).
    { rewrite len_append, len_operatorPattern. lia. }
    pose proof (operators_nonempty operator Hop) as Hop1.
    pose proof (len_nonneg leftOp) as Hl0.
    unfold process.
    rewrite eqb_nonempty.
    2:{ destruct leftOp; [congruence|discriminate]. }
    replace (S (String.length (leftOp +:+ operatorPattern operator)))
      with (String.length leftOp + S (S (S (Z.to_nat (len operator)))))%nat.
    2:{ unfold len in *. lia. }
    rewrite process_loop_scan; [|lia|unfold len in *; lia|].
    2:{ intros k remaining Hk. apply Hnone. unfold len in *. lia. }
    fold (len leftOp). rewrite Z.add_0_l.
    cbn [process_loop].
    (* the operator is met at the end of the left operand *)
    rewrite sliceFrom_append, (matchOperator_pattern _ Hop), slice_prefix_append.
    rewrite Hlen.
    destruct (Z.ltb_spec (len leftOp) (len leftOp + len operator + 2)); [|lia].
    cbn [negb].
    change (negb (String.eqb EmptyString EmptyString)) with false. cbn [andb].
    (* the value is what remains after the operator: nothing *)
    destruct (Z.ltb_spec (len leftOp + 1) (len leftOp + len operator + 2)); [|lia].
    cbn [negb].
    rewrite (eqb_nonempty leftOp Hleft), (eqb_nonempty operator).
    2:{ intros ->. vm_compute in Hop1. congruence. }
    cbn [negb andb].
    replace (len leftOp + 1 + len operator + 1)
      with (len (leftOp +:+ operatorPattern operator)) by lia.
    rewrite sliceFrom_end. cbn [mbind outcome_bind].
    rewrite findRightOp_empty. cbn [mbind outcome_bind].
    (* the criterion is validated, and the scan ends *)
    destruct (Validate (newCriterion leftOp operator [EmptyString] criteriaType))
      as [[]|e|p]; cbn [mbind outcome_bind]; [|reflexivity|reflexivity].
    change (len (encodeRune Separator)) with 1.
    destruct (Z.ltb_spec (len leftOp + 1 + (0 + len operator + 1) + 1)
                         (len leftOp + len operator + 2)); [lia|].
    reflexivity. }
  split; [exact Hprocess|]. split.
  - (* a numeric operator: neither nullable nor satisfied by the empty string *)
    intros Hty Hnumeric Hfloat Htime. rewrite Hprocess.
    assert (Hresult : String.eqb criteriaType ResultQuery = false)
      by (destruct Hty as [-> | ->]; reflexivity).
    assert (Hnullable : IsNullable operator = false).
    { revert Hnumeric. unfold operators in Hop. simpl in Hop.
      destruct Hop as [<-|[<-|[<-|[<-|[<-|[<-|[<-|[<-|[<-|[]]]]]]]]]];
        first [reflexivity | discriminate]. }
    unfold Validate, newCriterion. cbn [Type_ LeftOp RightOp Operator_].
    rewrite Hresult, Hnullable, Hnumeric. cbn [length Nat.ltb Nat.leb andb].
    change (indexList [EmptyString] 0) with (Ok EmptyString).
    cbn [mbind outcome_bind].
    unfold isNumeric, isDateTime. change (Atoi EmptyString) with (@None Z).
    rewrite Hfloat, Htime. reflexivity.
  - (* the nullable operator outside a field query *)
    intros -> ->. rewrite Hprocess. reflexivity.
Qed.

Lemma trailing_operator_empty_operand_witness :
  @process exampleEnv "a = " FieldQuery
  = Some (Ok [ByField EqualsOperator "a" [EmptyString]])
  /\ @process exampleEnv "a lte " LabelQuery
     = Some (Err (UnsupportedQueryError
                    (MsgNotNumeric LessThanOrEqualOperator EmptyString)))
  /\ @process exampleEnv "a eqornil " LabelQuery
     = Some (Err (UnsupportedQueryError MsgNullableOnlyFields)).
Proof.
  split; [|split].
  - refine (proj1 (@trailing_operator_empty_operand exampleEnv "a" EqualsOperator
                     FieldQuery _ _ _)).
    + discriminate.
    + left; reflexivity.
    + intros k remaining Hk Hslice.
      assert (k = 0) as -> by (change (len "a") with 1 in Hk; lia).
      vm_compute in Hslice. inversion Hslice. reflexivity.
  - refine (proj1 (proj2 (@trailing_operator_empty_operand exampleEnv "a"
                            LessThanOrEqualOperator LabelQuery _ _ _)) _ _ _ _).
    + discriminate.
    + do 7 right; left; reflexivity.
    + intros k remaining Hk Hslice.
      assert (k = 0) as -> by (change (len "a") with 1 in Hk; lia).
      vm_compute in Hslice. inversion Hslice. reflexivity.
    + right; reflexivity.
    + reflexivity.
    + reflexivity.
    + reflexivity.
  - refine (proj2 (proj2 (@trailing_operator_empty_operand exampleEnv "a"
                            EqualsOrNilOperator LabelQuery _ _ _)) _ _).
    + discriminate.
    + do 8 right; left; reflexivity.
    + intros k remaining Hk Hslice.
      assert (k = 0) as -> by (change (len "a") with 1 in Hk; lia).
      vm_compute in Hslice. inversion Hslice. reflexivity.
    + reflexivity.
    + reflexivity.
Defined.

(** The empty operand is validated: after a numeric operator it is refused
    for not being a number or a timestamp, and the nullable operator is
    refused in a label query as with any operand. *)
Lemma trailing_operator_empty_operand_rejected :
  @process exampleEnv "a gt " FieldQuery
  = Some (Err (UnsupportedQueryError
                 (MsgNotNumeric GreaterThanOperator EmptyString)))
  /\ @process exampleEnv "a eqornil " LabelQuery
     = Some (Err (UnsupportedQueryError MsgNullableOnlyFields)).
Proof. split; vm_compute; reflexivity. Qed.

(** ** Validation (C7, C8) *)

Lemma eqb_false_of_ne (a b : string) : a <> b -> String.eqb a b = false.
Proof. intros Hne. destruct (String.eqb_spec a b); congruence. Qed.

(** C7, amended.  For a [ResultQuery] criterion [Validate] looks at the left
    operand only to pick a check: [orderBy] is an error exactly when there
    are fewer than two right operands (the direction is not looked at);
    [limit], given a first right operand, is an error exactly when that
    operand is not a decimal integer of at least 1 (further operands are not
    looked at); any other left operand passes.  So every criterion of the
    shape of section 3 passes. *)
Theorem Validate_result_query `{GoEnv} (c : Criterion) :
  Type_ c = ResultQuery ->
  (LeftOp c = OrderBy ->
     ((length (RightOp c) < 2)%nat -> isErr (Validate c) = true)
     /\ ((2 <= length (RightOp c))%nat -> Validate c = Ok tt))
  /\ (LeftOp c = Limit ->
      forall r0 rest, RightOp c = r0 :: rest ->
        Validate c =
          match Atoi r0 with
          | None => Err (AtoiError r0)
          | Some limit =>
            if limit <? 1 then Err (UnsupportedQueryError (MsgLimitInvalid limit))
            else Ok tt
          end)
  /\ (LeftOp c <> OrderBy -> LeftOp c <> Limit -> Validate c = Ok tt).
Proof.
  intros Hty. unfold Validate. rewrite Hty.
  change (String.eqb ResultQuery ResultQuery) with true. cbn iota.
  split; [intros Hleft; split|split].
  - intros Hlt. rewrite Hleft. change (String.eqb OrderBy Limit) with false.
    change (String.eqb OrderBy OrderBy) with true. cbn [mbind outcome_bind].
    destruct (RightOp c) as [|r0 [|r1 rest]]; simpl in *; [reflexivity|reflexivity|lia].
  - intros Hge. rewrite Hleft. change (String.eqb OrderBy Limit) with false.
    change (String.eqb OrderBy OrderBy) with true. cbn [mbind outcome_bind].
    destruct (RightOp c) as [|r0 [|r1 rest]]; simpl in *; [lia|lia|reflexivity].
  - intros Hleft r0 rest Hright. rewrite Hleft, Hright.
    change (String.eqb Limit Limit) with true.
    change (String.eqb Limit OrderBy) with false.
    change (indexList (r0 :: rest) 0) with (Ok r0).
    cbn [mbind outcome_bind].
    destruct (Atoi r0) as [limit|]; [|reflexivity].
    destruct (limit <? 1); reflexivity.
  - intros Hno Hnl.
    rewrite (eqb_false_of_ne _ _ Hnl), (eqb_false_of_ne _ _ Hno). reflexivity.
Qed.

Lemma Validate_result_query_witness :
  @Validate exampleEnv (OrderResultBy "name" DescOrder) = Ok tt.
Proof.
  apply (proj1 (@Validate_result_query exampleEnv (OrderResultBy "name" DescOrder)
                  eq_refl) eq_refl).
  simpl. lia.
Defined.

(** Neither the direction of an ordering nor an unknown left operand is
    checked. *)
Lemma order_direction_not_checked :
  @Validate exampleEnv (OrderResultBy "name" "sideways") = Ok tt
  /\ @Validate exampleEnv (newCriterion "offset" NoOperator ["x"] ResultQuery)
     = Ok tt
  /\ @Validate exampleEnv (newCriterion Limit NoOperator ["5"; "x"] ResultQuery)
     = Ok tt.
Proof. repeat split. Qed.

Lemma indexList_no_error {A} (xs : list A) (i : Z) (e : error) :
  indexList xs i <> Err e.
Proof.
  unfold indexList.
  destruct ((0 <=? i) && (i <? Z.of_nat (length xs))); [|discriminate].
  destruct (xs !! Z.to_nat i); discriminate.
Qed.

Lemma checkNewLines_not_multiple (c : Criterion) (ops rightOp : list string)
    (operator : Operator) :
  checkNewLines c ops
  <> Err (UnsupportedQueryError (MsgMultipleValues rightOp operator)).
Proof.
  induction ops as [|op ops IH]; simpl; [discriminate|].
  destruct (ContainsRune op NewLine); [discriminate|exact IH].
Qed.

Lemma separatorCheck_not_multiple (c : Criterion) (rightOp : list string)
    (operator : Operator) :
  (_ ← (if ContainsRune (LeftOp c) Separator then
          possibleKey ← indexList (FieldsFuncSeparator (LeftOp c))
                          (Z.of_nat (length (FieldsFuncSeparator (LeftOp c))) - 1);
          Err (UnsupportedQueryError
                 (MsgSeparatorInLeftOp (Type_ c) (LeftOp c) possibleKey))
        else Ok tt);
   checkNewLines c (RightOp c))
  <> Err (UnsupportedQueryError (MsgMultipleValues rightOp operator)).
Proof.
  destruct (ContainsRune (LeftOp c) Separator).
  - destruct (indexList (FieldsFuncSeparator (LeftOp c))
                (Z.of_nat (length (FieldsFuncSeparator (LeftOp c))) - 1))
      as [k|e|p] eqn:Hidx; cbn [mbind outcome_bind]; try discriminate.
    exfalso. exact (indexList_no_error _ _ _ Hidx).
  - cbn [mbind outcome_bind]. apply checkNewLines_not_multiple.
Qed.

(** C8, amended.  [Validate] rejects a field or label criterion for the
    number of its right operands exactly when the operator is not
    multivariate and there is more than one of them: a criterion without
    any right operand is not rejected on that ground, nor is a multivariate
    operator with a single one. *)
Theorem Validate_multiple_values `{GoEnv} (c : Criterion) :
  Type_ c = FieldQuery \/ Type_ c = LabelQuery ->
  Validate c
  = Err (UnsupportedQueryError (MsgMultipleValues (RightOp c) (Operator_ c)))
  <-> (1 < length (RightOp c))%nat /\ IsMultiVariate (Operator_ c) = false.
Proof.
  intros Hty. unfold Validate. cbv zeta.
  replace (String.eqb (Type_ c) ResultQuery) with false
    by (destruct Hty as [-> | ->]; reflexivity).
  split.
  - destruct ((1 <? length (RightOp c))%nat && negb (IsMultiVariate (Operator_ c)))
      eqn:Hguard.
    + intros _. apply andb_true_iff in Hguard as [Hlen Hmulti].
      apply Nat.ltb_lt in Hlen. apply negb_true_iff in Hmulti. auto.
    + destruct (IsNullable (Operator_ c) && negb (String.eqb (Type_ c) FieldQuery));
        [discriminate|].
      destruct (IsNumeric (Operator_ c)).
      * destruct (indexList (RightOp c) 0) as [r0|e|p] eqn:Hidx;
          cbn [mbind outcome_bind];
          [|exfalso; exact (indexList_no_error _ _ _ Hidx)|discriminate].
        destruct (negb (isNumeric r0) && negb (isDateTime r0));
          cbn [mbind outcome_bind]; [discriminate|].
        intros Habs. exfalso. exact (separatorCheck_not_multiple _ _ _ Habs).
      * cbn [mbind outcome_bind].
        intros Habs. exfalso. exact (separatorCheck_not_multiple _ _ _ Habs).
  - intros [Hlen Hmulti]. rewrite Hmulti.
    destruct (Nat.ltb_spec 1 (length (RightOp c))); [reflexivity|lia].
Qed.

Lemma Validate_multiple_values_witness :
  @Validate exampleEnv (ByField EqualsOperator "x" ["1"; "2"])
  = Err (UnsupportedQueryError (MsgMultipleValues ["1"; "2"] EqualsOperator)).
Proof.
  apply (proj2 (@Validate_multiple_values exampleEnv
                  (ByField EqualsOperator "x" ["1"; "2"])
                  (or_introl eq_refl))).
  split; [simpl; lia|reflexivity].
Defined.

(** A criterion without any right operand passes when its operator is not
    numeric. *)
Lemma no_right_operand_accepted :
  @Validate exampleEnv (ByField EqualsOperator "x" []) = Ok tt.
Proof. reflexivity. Qed.

(** Where [Validate] indexes without a check it panics: on the first right
    operand of a numeric operator or of a limit that has none, and on the
    last field of a left operand made of separators only. *)
Lemma Validate_panics `{GoEnv} :
  Validate (ByField GreaterThanOperator "x" []) = Panic IndexOutOfRange
  /\ Validate (newCriterion Limit NoOperator [] ResultQuery) = Panic IndexOutOfRange
  /\ Validate (ByField EqualsOperator "|" ["v"]) = Panic IndexOutOfRange.
Proof. repeat split. Qed.

(** ** Slices in the store *)

Lemma slice_wf_cells (h : store) (l : loc) (n c : nat) :
  slice_wf h (mkSlice (Some l) n c) ->
  exists cs, h !! l = Some cs /\ length cs = c /\ (n <= c)%nat.
Proof.
  unfold slice_wf, cells. simpl. intros (Hle & Hlen & [cs Hcs]).
  rewrite Hcs in Hlen. simpl in Hlen. eauto.
Qed.

Lemma slice_wf_none (h : store) (n c : nat) :
  slice_wf h (mkSlice None n c) -> n = 0%nat /\ c = 0%nat.
Proof.
  unfold slice_wf, cells. simpl. intros (Hle & Hlen & _). lia.
Qed.

Lemma view_length (h : store) (s : Slice) :
  slice_wf h s -> length (view h s) = slen s.
Proof.
  intros (Hle & Hlen & _). unfold view. rewrite length_take. lia.
Qed.

Lemma allocSlice_spec (h h' : store) (xs : list Criterion) (cap : nat)
    (s : Slice) :
  allocSlice h xs cap = (s, h') -> (length xs <= cap)%nat ->
  view h' s = xs /\ slice_wf h' s
  /\ forall t, slice_wf h t -> view h' t = view h t /\ slice_wf h' t.
Proof.
  unfold allocSlice. intros Halloc Hcap. inversion Halloc; subst; clear Halloc.
  set (l := fresh (dom h)).
  assert (Hfresh : h !! l = None).
  { apply not_elem_of_dom. apply is_fresh. }
  split; [|split].
  - unfold view, cells. cbn [arr slen scap]. rewrite lookup_insert_eq. cbn beta iota.
    now rewrite take_app_length.
  - unfold slice_wf, cells. cbn [arr slen scap]. rewrite lookup_insert_eq. cbn beta iota.
    rewrite length_app, length_replicate. split; [lia|]. split; [lia|eauto].
  - intros [[l'|] n c] Hwf.
    + destruct (slice_wf_cells _ _ _ _ Hwf) as (cs & Hcs & Hlen & Hle).
      assert (l <> l') by congruence.
      unfold view, slice_wf, cells. cbn [arr slen scap].
      rewrite lookup_insert_ne by done. rewrite Hcs. cbn beta iota. eauto.
    + split; [reflexivity|]. exact Hwf.
Qed.

Lemma append_spec `{GoEnv} (h h' : store) (s s' : Slice) (xs : list Criterion) :
  slice_wf h s -> append h s xs = (s', h') ->
  view h' s' = view h s ++ xs /\ slice_wf h' s'
  /\ forall t, slice_wf h t -> outOfReach s t ->
       view h' t = view h t /\ slice_wf h' t.
Proof.
  intros Hwf Happ. unfold append in Happ.
  destruct (Nat.leb_spec (slen s + length xs) (scap s)) as [Hfit|Hgrow].
  - (* in place *)
    inversion Happ; subst; clear Happ.
    destruct s as [[l|] n c]; simpl in *.
    + destruct (slice_wf_cells _ _ _ _ Hwf) as (cs & Hcs & Hlen & Hle).
      unfold cells. cbn [arr slen scap]. rewrite Hcs. cbn beta iota.
      assert (Hnew : length (take n cs ++ xs ++ drop (n + length xs) cs) = c).
      { rewrite !length_app, length_take, length_drop. lia. }
      split; [|split].
      * unfold view, cells. cbn [arr slen scap]. rewrite lookup_insert_eq, Hcs. cbn beta iota.
        rewrite app_assoc, take_app_length'; [reflexivity|].
        rewrite length_app, length_take. lia.
      * unfold slice_wf, cells. cbn [arr slen scap]. rewrite lookup_insert_eq. cbn beta iota.
        split; [lia|]. split; [exact Hnew|eauto].
      * intros [[l'|] n' c'] Hwft Hreach.
        -- destruct (slice_wf_cells _ _ _ _ Hwft) as (cs' & Hcs' & Hlen' & Hle').
           destruct (decide (l = l')) as [->|Hne].
           ++ destruct Hreach as [Hreach|Hreach]; simpl in Hreach; [congruence|].
              assert (cs' = cs) as -> by congruence.
              unfold view, slice_wf, cells. cbn [arr slen scap].
              rewrite lookup_insert_eq, Hcs. cbn beta iota.
              split.
              ** rewrite take_app_le by (rewrite length_take; lia).
                 rewrite take_take. f_equal. lia.
              ** split; [lia|]. split; [congruence|eauto].
           ++ unfold view, slice_wf, cells. cbn [arr slen scap].
              rewrite lookup_insert_ne by done. rewrite Hcs'. cbn beta iota. eauto.
        -- split; [reflexivity|exact Hwft].
    + destruct (slice_wf_none _ _ _ Hwf) as [-> ->].
      assert (xs = []) as -> by (destruct xs; [reflexivity|simpl in Hfit; lia]).
      split; [reflexivity|]. split; [exact Hwf|]. intros t Hwft _. eauto.
  - (* into a new array *)
    pose proof (growslice_ge (scap s) (slen s + length xs)) as Hge.
    apply allocSlice_spec in Happ.
    + destruct Happ as (Hview & Hwf' & Hframe). split; [exact Hview|].
      split; [exact Hwf'|]. intros t Hwft _. apply Hframe, Hwft.
    + rewrite length_app, (view_length _ _ Hwf). exact Hge.
Qed.

(** ** Counting keys *)

Lemma keysOf_app (ty : CriterionType) (cs1 cs2 : list Criterion) :
  keysOf ty (cs1 ++ cs2) = keysOf ty cs1 ++ keysOf ty cs2.
Proof.
  induction cs1 as [|c cs1 IH]; simpl; [reflexivity|].
  destruct (String.eqb (Type_ c) ty); simpl; now rewrite IH.
Qed.

Lemma occurrences_app (ty : CriterionType) (cs1 cs2 : list Criterion) (k : string) :
  occurrences ty (cs1 ++ cs2) k = (occurrences ty cs1 k + occurrences ty cs2 k)%nat.
Proof. unfold occurrences. now rewrite keysOf_app, count_occ_app. Qed.

Lemma occurrences_member (ty : CriterionType) (cs : list Criterion) (c : Criterion) :
  In c cs -> Type_ c = ty -> (1 <= occurrences ty cs (LeftOp c))%nat.
Proof.
  intros Hin Hty. unfold occurrences.
  apply (proj1 (count_occ_In String.string_dec _ _)).
  induction cs as [|c' cs IH]; simpl in *; [contradiction|].
  destruct Hin as [->|Hin].
  - rewrite Hty, String.eqb_refl. now left.
  - destruct (String.eqb (Type_ c') ty); [right|]; auto.
Qed.

Lemma keysOf_member (ty : CriterionType) (cs : list Criterion) (k : string) :
  In k (keysOf ty cs) -> exists c, In c cs /\ Type_ c = ty /\ LeftOp c = k.
Proof.
  induction cs as [|c cs IH]; simpl; [contradiction|].
  destruct (String.eqb_spec (Type_ c) ty) as [Heq|Hne].
  - intros [<-|Hin]; [eauto|]. destruct (IH Hin) as (c' & ? & ? & ?). eauto.
  - intros Hin. destruct (IH Hin) as (c' & ? & ? & ?). eauto.
Qed.

Lemma lookup_increment (m : gmap string nat) (k k' : string) :
  default 0%nat (increment m k !! k')
  = (default 0%nat (m !! k') + if String.string_dec k' k then 1 else 0)%nat.
Proof.
  unfold increment. destruct (String.string_dec k' k) as [->|Hne].
  - rewrite lookup_insert_eq. simpl. lia.
  - rewrite lookup_insert_ne by congruence. lia.
Qed.

Lemma countLoop_fold (cs : list Criterion) (F L : gmap string nat) (k : string) :
  default 0%nat (fst (fold_left countStep cs (F, L)) !! k)
    = (default 0%nat (F !! k) + occurrences FieldQuery cs k)%nat
  /\ default 0%nat (snd (fold_left countStep cs (F, L)) !! k)
    = (default 0%nat (L !! k) + occurrences LabelQuery cs k)%nat.
Proof.
  revert F L. induction cs as [|c cs IH]; intros F L.
  - unfold occurrences. simpl. lia.
  - cbn [fold_left]. unfold countStep at 2 4.
    destruct (IH (if String.eqb (Type_ c) FieldQuery
                  then increment F (LeftOp c) else F)
                 (if String.eqb (Type_ c) LabelQuery
                  then increment L (LeftOp c) else L)) as [IHf IHl].
    rewrite IHf, IHl. unfold occurrences. cbn [keysOf].
    split.
    + destruct (String.eqb (Type_ c) FieldQuery).
      * rewrite lookup_increment. cbn [count_occ].
        destruct (String.string_dec k (LeftOp c)) as [->|Hne];
          destruct (String.string_dec (LeftOp c) _); try congruence; lia.
      * reflexivity.
    + destruct (String.eqb (Type_ c) LabelQuery).
      * rewrite lookup_increment. cbn [count_occ].
        destruct (String.string_dec k (LeftOp c)) as [->|Hne];
          destruct (String.string_dec (LeftOp c) _); try congruence; lia.
      * reflexivity.
Qed.

Lemma moreThanOnce_spec (m : gmap string nat) (k : string) :
  moreThanOnce m k = (1 <? default 0%nat (m !! k))%nat.
Proof. unfold moreThanOnce. destruct (m !! k); reflexivity. Qed.

(** The maps the first loop builds hold the number of occurrences of every
    key, so the tests of the second loop are tests on those numbers. *)
Lemma countLoop_moreThanOnce (cs : list Criterion) (k : string) :
  moreThanOnce (fst (countLoop cs)) k = (1 <? occurrences FieldQuery cs k)%nat
  /\ moreThanOnce (snd (countLoop cs)) k = (1 <? occurrences LabelQuery cs k)%nat.
Proof.
  unfold countLoop. rewrite !moreThanOnce_spec.
  destruct (countLoop_fold cs ∅ ∅ k) as [-> ->].
  rewrite !lookup_empty. simpl. auto.
Qed.

(** ** mergeCriteria on the elements *)

(** [mergeCriteria] in the store against its reading on the elements.  The
    incoming slice must be out of reach of the writes past the end of the
    existing one, as the slice of a variadic call is. *)
Lemma mergeCriteria_spec `{GoEnv} (h h' : store) (c1 c2 : Slice)
    (r : outcome Slice) :
  slice_wf h c1 -> slice_wf h c2 -> outOfReach c1 c2 ->
  mergeCriteria h c1 c2 = (r, h') ->
  view h' c1 = view h c1 /\ slice_wf h' c1 /\ view h' c2 = view h c2
  /\ match checkIncoming (view h c1) (view h c2) with
     | Ok _ => exists s, r = Ok s /\ view h' s = view h c1 ++ view h c2
                         /\ slice_wf h' s
     | Err e => r = Err e
     | Panic p => r = Panic p
     end.
Proof.
  intros Hwf1 Hwf2 Hreach. unfold mergeCriteria, checkIncoming.
  destruct (append h c1 (view h c2)) as [all h1] eqn:Hall.
  destruct (append_spec _ _ _ _ _ Hwf1 Hall) as (Hvall & _ & Hframe1).
  destruct (Hframe1 c1 Hwf1 (or_intror (le_n _))) as [Hv1 Hwf1'].
  destruct (Hframe1 c2 Hwf2 Hreach) as [Hv2 Hwf2'].
  rewrite Hvall, Hv2.
  destruct (countLoop (view h c1 ++ view h c2)) as [F L]. cbn [fst snd].
  destruct (checkLoop F L (view h c2)) as [[]|e|p].
  - destruct (append h1 c1 (view h c2)) as [res h2] eqn:Hres.
    destruct (append_spec _ _ _ _ _ Hwf1' Hres) as (Hvres & Hwfres & Hframe2).
    destruct (Hframe2 c1 Hwf1' (or_intror (le_n _))) as [Hv1' Hwf1''].
    destruct (Hframe2 c2 Hwf2' Hreach) as [Hv2' _].
    intros Heq. inversion Heq; subst; clear Heq.
    rewrite Hv1', Hv1, Hv2', Hv2.
    split; [reflexivity|]. split; [exact Hwf1''|]. split; [reflexivity|].
    exists res. rewrite Hvres, Hv1. auto.
  - intros Heq. inversion Heq; subst; clear Heq. auto.
  - intros Heq. inversion Heq; subst; clear Heq. auto.
Qed.

Lemma checkLoop_Ok `{GoEnv} (F L : gmap string nat) (c2 : list Criterion) :
  checkLoop F L c2 = Ok tt <-> Forall (fun c => checkStep F L c = Ok tt) c2.
Proof.
  induction c2 as [|c c2 IH]; simpl.
  - split; auto.
  - destruct (checkStep F L c) as [[]|e|p] eqn:Hc.
    + rewrite IH. split; [intros; constructor; auto|].
      intros Hall. inversion Hall; auto.
    + split; [discriminate|]. intros Hall. inversion Hall; congruence.
    + split; [discriminate|]. intros Hall. inversion Hall; congruence.
Qed.

(** The second loop on one incoming criterion, in terms of occurrences. *)
Lemma checkStep_occurrences `{GoEnv} (all : list Criterion) (c : Criterion) :
  checkStep (fst (countLoop all)) (snd (countLoop all)) c =
    if (1 <? occurrences LabelQuery all (LeftOp c))%nat
       && String.eqb (Type_ c) LabelQuery
    then Err (UnsupportedQueryError (MsgDuplicateLabelKey (LeftOp c)))
    else if (1 <? occurrences FieldQuery all (LeftOp c))%nat
            && String.eqb (Type_ c) FieldQuery
    then Err (UnsupportedQueryError (MsgDuplicateFieldKey (LeftOp c)))
    else Validate c.
Proof.
  unfold checkStep.
  destruct (countLoop_moreThanOnce all (LeftOp c)) as [-> ->]. reflexivity.
Qed.

Lemma checkStep_Ok_occurrences `{GoEnv} (all : list Criterion) (c : Criterion)
    (ty : CriterionType) :
  ty = FieldQuery \/ ty = LabelQuery ->
  checkStep (fst (countLoop all)) (snd (countLoop all)) c = Ok tt ->
  Type_ c = ty -> (occurrences ty all (LeftOp c) <= 1)%nat.
Proof.
  intros Hty. rewrite checkStep_occurrences. intros Hok Hc.
  destruct Hty as [-> | ->]; rewrite Hc in Hok.
  - change (String.eqb FieldQuery LabelQuery) with false in Hok.
    rewrite andb_false_r in Hok.
    change (String.eqb FieldQuery FieldQuery) with true in Hok.
    destruct (Nat.ltb_spec 1 (occurrences FieldQuery all (LeftOp c)));
      [discriminate|lia].
  - change (String.eqb LabelQuery LabelQuery) with true in Hok.
    destruct (Nat.ltb_spec 1 (occurrences LabelQuery all (LeftOp c)));
      [discriminate|lia].
Qed.

(** A merge that passes the second loop keeps the keys free of duplicates. *)
Lemma checkIncoming_noDuplicateKeys `{GoEnv} (existing incoming : list Criterion) :
  noDuplicateKeys existing -> checkIncoming existing incoming = Ok tt ->
  noDuplicateKeys (existing ++ incoming).
Proof.
  intros [Hf Hl] Hok. unfold checkIncoming in Hok.
  apply checkLoop_Ok in Hok. rewrite Forall_forall in Hok.
  assert (Hty : forall ty, ty = FieldQuery \/ ty = LabelQuery ->
            NoDup (keysOf ty existing) ->
            NoDup (keysOf ty (existing ++ incoming))).
  { intros ty Hty Hnd. apply NoDup_ListNoDup in Hnd. apply NoDup_ListNoDup.
    apply (proj2 (NoDup_count_occ String.string_dec _)). intros k.
    destruct (in_dec String.string_dec k (keysOf ty incoming)) as [Hin|Hnin].
    - destruct (keysOf_member _ _ _ Hin) as (c & Hc & Hcty & <-).
      apply (checkStep_Ok_occurrences _ _ ty Hty); auto.
      apply Hok. apply list_elem_of_In. exact Hc.
    - rewrite keysOf_app, count_occ_app.
      rewrite (proj1 (count_occ_not_In String.string_dec _ _) Hnin).
      pose proof (proj1 (NoDup_count_occ String.string_dec _) Hnd k). lia. }
  split; apply Hty; auto.
Qed.

(** ** Duplicate keys are counted per type (C4) *)

Lemma occurrences_In (ty : CriterionType) (cs : list Criterion) (k : string) :
  In k (keysOf ty cs) <-> (1 <= occurrences ty cs k)%nat.
Proof. unfold occurrences. apply count_occ_In. Qed.

Lemma occurrences_single (ty : CriterionType) (c : Criterion) :
  Type_ c = ty -> occurrences ty [c] (LeftOp c) = 1%nat.
Proof.
  intros <-. unfold occurrences. simpl. rewrite String.eqb_refl. simpl.
  destruct (String.string_dec (LeftOp c) (LeftOp c)); congruence.
Qed.

(** C4.  Merging one incoming field (label) criterion into a set that holds
    a field (label) criterion with the same left operand fails with the
    duplicate-key error of that type; if the set holds no criterion of that
    type with that left operand the merge of a valid criterion succeeds,
    whatever criteria of the other type the set holds under the same left
    operand. *)
Theorem merge_duplicates_per_type `{GoEnv} (h : store) (c1 c2 : Slice)
    (c : Criterion) (ty : CriterionType) :
  slice_wf h c1 -> slice_wf h c2 -> outOfReach c1 c2 ->
  view h c2 = [c] -> Type_ c = ty -> ty = FieldQuery \/ ty = LabelQuery ->
  (In (LeftOp c) (keysOf ty (view h c1)) ->
     fst (mergeCriteria h c1 c2) = Err (duplicateKeyError ty (LeftOp c)))
  /\ (~ In (LeftOp c) (keysOf ty (view h c1)) -> Validate c = Ok tt ->
      exists s, fst (mergeCriteria h c1 c2) = Ok s
                /\ view (snd (mergeCriteria h c1 c2)) s = view h c1 ++ [c]).
Proof.
  intros Hwf1 Hwf2 Hreach Hc2 Hcty Hty.
  destruct (mergeCriteria h c1 c2) as [r h'] eqn:Hmerge.
  destruct (mergeCriteria_spec _ _ _ _ _ Hwf1 Hwf2 Hreach Hmerge)
    as (_ & _ & _ & Hres).
  rewrite Hc2 in Hres. unfold checkIncoming in Hres. cbn [checkLoop] in Hres.
  rewrite checkStep_occurrences in Hres.
  pose proof (occurrences_app ty (view h c1) [c] (LeftOp c)) as Hocc.
  rewrite (occurrences_single ty c Hcty) in Hocc.
  cbn [fst snd]. split.
  - intros Hin. apply occurrences_In in Hin.
    destruct Hty as [-> | ->]; rewrite Hcty in Hres.
    + change (String.eqb FieldQuery LabelQuery) with false in Hres.
      rewrite andb_false_r in Hres.
      destruct (Nat.ltb_spec 1 (occurrences FieldQuery (view h c1 ++ [c]) (LeftOp c)));
        [exact Hres|lia].
    + destruct (Nat.ltb_spec 1 (occurrences LabelQuery (view h c1 ++ [c]) (LeftOp c)));
        [exact Hres|lia].
  - intros Hnin Hvalid.
    assert (occurrences ty (view h c1) (LeftOp c) = 0%nat) as Hzero.
    { destruct (occurrences ty (view h c1) (LeftOp c)) eqn:Hz; [reflexivity|].
      exfalso. apply Hnin, occurrences_In. lia. }
    rewrite Hzero in Hocc. rewrite Hvalid in Hres.
    destruct Hty as [-> | ->]; rewrite Hcty, Hocc in Hres.
    + change (String.eqb FieldQuery LabelQuery) with false in Hres.
      rewrite andb_false_r in Hres. cbn in Hres.
      destruct Hres as (s & -> & Hview & _). eauto.
    + change (String.eqb LabelQuery FieldQuery) with false in Hres.
      rewrite andb_false_r in Hres. cbn in Hres.
      destruct Hres as (s & -> & Hview & _). eauto.
Qed.

Lemma exampleStore_wf (l : positive) :
  l = 1%positive \/ l = 2%positive \/ l = 3%positive ->
  slice_wf exampleStore (sliceAt l).
Proof.
  intros [-> | [-> | ->]]; (split; [simpl; lia|split; [reflexivity|]]);
    eexists; vm_compute; reflexivity.
Defined.

Lemma merge_duplicates_per_type_witness :
  fst (@mergeCriteria exampleEnv exampleStore (sliceAt 1) (sliceAt 2))
  = Err (duplicateKeyError FieldQuery "x")
  /\ exists s,
       fst (@mergeCriteria exampleEnv exampleStore (sliceAt 1) (sliceAt 3)) = Ok s
       /\ view (snd (@mergeCriteria exampleEnv exampleStore (sliceAt 1) (sliceAt 3))) s
          = view exampleStore (sliceAt 1) ++ [ByLabel EqualsOperator "x" ["2"]].
Proof.
  split.
  - refine (proj1 (@merge_duplicates_per_type exampleEnv exampleStore
                     (sliceAt 1) (sliceAt 2) (ByField EqualsOperator "x" ["2"])
                     FieldQuery _ _ _ _ _ _) _).
    + apply exampleStore_wf; auto.
    + apply exampleStore_wf; auto.
    + left; discriminate.
    + vm_compute; reflexivity.
    + reflexivity.
    + left; reflexivity.
    + vm_compute. left; reflexivity.
  - refine (proj2 (@merge_duplicates_per_type exampleEnv exampleStore
                     (sliceAt 1) (sliceAt 3) (ByLabel EqualsOperator "x" ["2"])
                     LabelQuery _ _ _ _ _ _) _ _).
    + apply exampleStore_wf; auto.
    + apply exampleStore_wf; auto.
    + left; discriminate.
    + vm_compute; reflexivity.
    + reflexivity.
    + right; reflexivity.
    + vm_compute. intros [].
    + reflexivity.
Defined.

(** ** Merge is all or nothing, up to the panics of Validate (C5) *)

(** Whatever the outcome the existing elements are as they were; the merge
    returns a slice exactly when every incoming criterion passes the second
    loop, and the slice then holds the existing elements followed by the
    incoming ones; otherwise it returns the error, or propagates the panic,
    of the first incoming criterion that does not pass. *)
Lemma mergeCriteria_all_or_nothing `{GoEnv} (h : store) (c1 c2 : Slice) :
  slice_wf h c1 -> slice_wf h c2 -> outOfReach c1 c2 ->
  let r := fst (mergeCriteria h c1 c2) in
  let h' := snd (mergeCriteria h c1 c2) in
  view h' c1 = view h c1
  /\ (forall s, r = Ok s -> view h' s = view h c1 ++ view h c2)
  /\ (isOk r = true <-> checkIncoming (view h c1) (view h c2) = Ok tt)
  /\ (forall e, r = Err e <-> checkIncoming (view h c1) (view h c2) = Err e)
  /\ (forall p, r = Panic p <-> checkIncoming (view h c1) (view h c2) = Panic p).
Proof.
  intros Hwf1 Hwf2 Hreach.
  destruct (mergeCriteria h c1 c2) as [r h'] eqn:Hmerge. cbn [fst snd].
  destruct (mergeCriteria_spec _ _ _ _ _ Hwf1 Hwf2 Hreach Hmerge)
    as (Hv1 & _ & _ & Hres).
  split; [exact Hv1|].
  destruct (checkIncoming (view h c1) (view h c2)) as [[]|e|p].
  - destruct Hres as (s & -> & Hview & _).
    split; [intros s' Hs; inversion Hs; subst; exact Hview|].
    split; [split; reflexivity|].
    split; intros; split; discriminate.
  - subst r. split; [discriminate|]. split; [split; discriminate|].
    split; [intros e'; split; intros Heq; inversion Heq; reflexivity|].
    intros; split; discriminate.
  - subst r. split; [discriminate|]. split; [split; discriminate|].
    split; [intros; split; discriminate|].
    intros p'; split; intros Heq; inversion Heq; reflexivity.
Qed.

(** C5.  An incoming criterion whose left operand consists of separators
    only is one that validation is meant to refuse, but [Validate] indexes
    the last of the fields between the separators, of which there is none,
    and panics: the merge returns neither an error nor a list, also when a
    later criterion is one [Validate] returns an error for. *)
Theorem merge_panics_on_separator_key `{GoEnv} :
  let bad := ByField EqualsOperator "|" ["v"] in
  let refused := ByField EqualsOperator "a|b" ["v"] in
  Validate refused
    = Err (UnsupportedQueryError (MsgSeparatorInLeftOp FieldQuery "a|b" "b"))
  /\ fst (AddCriteria ∅ background [bad]) = Panic IndexOutOfRange
  /\ fst (AddCriteria ∅ background [bad; refused]) = Panic IndexOutOfRange
  /\ fst (mergeCriteria (<[1%positive := [bad; refused]]> ∅) emptySlice
            {| arr := Some 1%positive; slen := 2; scap := 2 |})
     = Panic IndexOutOfRange.
Proof. repeat split; vm_compute; reflexivity. Qed.

(** ** Duplicate keys and the reader of a context (C6) *)

Lemma emptySlice_wf (h : store) : slice_wf h emptySlice.
Proof. unfold slice_wf. simpl. auto. Qed.

Lemma fresh_outOfReach (h : store) (s : Slice) (n c : nat) :
  slice_wf h s ->
  outOfReach s {| arr := Some (fresh (dom h)); slen := n; scap := c |}.
Proof.
  intros (_ & _ & Halloc). left. cbn [arr]. intros Heq.
  rewrite <- Heq in Halloc.
  apply (is_fresh (dom h)). now apply elem_of_dom.
Qed.

(** One call of [AddCriteria] on a well-formed current slice. *)
Lemma AddCriteria_spec `{GoEnv} (h h' : store) (ctx : Context)
    (newCriteria : list Criterion) (r : outcome Context) :
  slice_wf h (CriteriaForContext ctx) ->
  AddCriteria h ctx newCriteria = (r, h') ->
  let current := CriteriaForContext ctx in
  view h' current = view h current /\ slice_wf h' current
  /\ match checkIncoming (view h current) newCriteria with
     | Ok _ => exists ctx', r = Ok ctx'
                 /\ view h' (CriteriaForContext ctx') = view h current ++ newCriteria
                 /\ slice_wf h' (CriteriaForContext ctx')
     | Err e => r = Err e
     | Panic p => r = Panic p
     end.
Proof.
  intros Hwf. unfold AddCriteria.
  destruct (allocSlice h newCriteria (length newCriteria)) as [variadic h0] eqn:Halloc.
  destruct (allocSlice_spec _ _ _ _ _ Halloc (le_n _)) as (Hvv & Hwfv & Hframe).
  destruct (Hframe _ Hwf) as [Hv0 Hwf0].
  assert (Hreach : outOfReach (CriteriaForContext ctx) variadic).
  { unfold allocSlice in Halloc. inversion Halloc; subst.
    now apply fresh_outOfReach. }
  destruct (mergeCriteria h0 (CriteriaForContext ctx) variadic) as [rm hm] eqn:Hmerge.
  destruct (mergeCriteria_spec _ _ _ _ _ Hwf0 Hwfv Hreach Hmerge)
    as (Hv1 & Hwf1 & _ & Hres).
  rewrite Hv0, Hvv in Hres. intros Heq.
  destruct (checkIncoming (view h (CriteriaForContext ctx)) newCriteria) as [[]|e|p].
  - destruct Hres as (s & -> & Hvs & Hwfs). inversion Heq; subst; clear Heq.
    split; [congruence|]. split; [exact Hwf1|].
    exists (ContextWithCriteria ctx s). split; [reflexivity|].
    cbn [ContextWithCriteria CriteriaForContext]. split; [congruence|exact Hwfs].
  - subst rm. inversion Heq; subst; clear Heq.
    split; [congruence|]. split; [exact Hwf1|reflexivity].
  - subst rm. inversion Heq; subst; clear Heq.
    split; [congruence|]. split; [exact Hwf1|reflexivity].
Qed.

Lemma reachable_invariant `{GoEnv} (h : store) (ctx : Context) :
  reachable h ctx ->
  slice_wf h (CriteriaForContext ctx)
  /\ noDuplicateKeys (view h (CriteriaForContext ctx)).
Proof.
  induction 1 as [h|h h' ctx ctx' new _ [IHwf IHnd] Hadd
                   |h h' ctx new r _ [IHwf IHnd] Hadd Hr].
  - split; [apply emptySlice_wf|]. split; constructor.
  - destruct (AddCriteria_spec _ _ _ _ _ IHwf Hadd) as (_ & _ & Hres).
    destruct (checkIncoming (view h (CriteriaForContext ctx)) new)
      as [[]|e|p] eqn:Hcheck; try discriminate.
    destruct Hres as (ctx1 & Heq & Hview & Hwf). inversion Heq; subst ctx1.
    split; [exact Hwf|]. rewrite Hview.
    now apply checkIncoming_noDuplicateKeys.
  - destruct (AddCriteria_spec _ _ _ _ _ IHwf Hadd) as (Hview & Hwf & _).
    split; [exact Hwf|]. now rewrite Hview.
Qed.

(** Along a chain of [AddCriteria] calls, each made on the context the
    chain has reached, starting from a context without criteria, the criteria
    read from the context hold no two field criteria and no two label
    criteria with the same left operand. *)
Theorem reachable_noDuplicateKeys `{GoEnv} (h : store) (ctx : Context) :
  reachable h ctx -> noDuplicateKeys (view h (CriteriaForContext ctx)).
Proof. intros Hreach. apply (reachable_invariant h ctx Hreach). Qed.

Lemma chainStep_reachable `{GoEnv} (st : gmap positive (list Criterion) * Context)
    (newCriteria : list Criterion) :
  reachable (fst st) (snd st) ->
  reachable (fst (chainStep st newCriteria)) (snd (chainStep st newCriteria)).
Proof.
  intros Hreach. unfold chainStep.
  destruct (AddCriteria (fst st) (snd st) newCriteria) as [[ctx'|e|p] h'] eqn:Hadd;
    cbn [fst snd].
  - exact (reach_added _ _ _ _ _ Hreach Hadd).
  - exact (reach_refused _ _ _ _ _ Hreach Hadd eq_refl).
  - exact (reach_refused _ _ _ _ _ Hreach Hadd eq_refl).
Defined.

Lemma exampleChain_view :
  view (fst exampleChain) (CriteriaForContext (snd exampleChain))
  = [ByField EqualsOperator "x" ["1"]; ByLabel EqualsOperator "x" ["2"]].
Proof. vm_compute; reflexivity. Qed.

Lemma reachable_noDuplicateKeys_witness :
  noDuplicateKeys (view (fst exampleChain) (CriteriaForContext (snd exampleChain))).
Proof.
  apply (@reachable_noDuplicateKeys exampleEnv).
  unfold exampleChain.
  repeat apply (@chainStep_reachable exampleEnv).
  apply (@reach_background exampleEnv).
Defined.

(** C6.  A handle reached by successful [AddCriteria] calls only can read
    two field criteria with one left operand.  The slice of a context shares
    its array with the slices derived from it while the capacity lasts, and
    [mergeCriteria] appends in place: a second successful call on the origin
    writes its criterion, checked against the origin's four only, over the
    fifth cell, which the first handle reads as well.  The capacities are the
    runtime's for these lengths: three for the first three criteria, doubled
    to six for the fourth. *)
Theorem sibling_call_rewrites_handle :
  view (fst forkOrigin) (CriteriaForContext (snd forkOrigin))
  = [ByField EqualsOperator "a" ["1"]; ByField EqualsOperator "b" ["1"];
     ByField EqualsOperator "c" ["1"]; ByField EqualsOperator "d" ["1"]]
  /\ view (fst forkFirst) (CriteriaForContext (snd forkFirst))
     = [ByField EqualsOperator "a" ["1"]; ByField EqualsOperator "b" ["1"];
        ByField EqualsOperator "c" ["1"]; ByField EqualsOperator "d" ["1"];
        ByField EqualsOperator "y" ["1"]; ByField EqualsOperator "z" ["1"]]
  /\ (exists ctx' : Context,
        fst forkSecond = Ok ctx'
        /\ view (snd forkSecond) (CriteriaForContext ctx')
           = [ByField EqualsOperator "a" ["1"]; ByField EqualsOperator "b" ["1"];
              ByField EqualsOperator "c" ["1"]; ByField EqualsOperator "d" ["1"];
              ByField EqualsOperator "z" ["2"]])
  /\ view (snd forkSecond) (CriteriaForContext (snd forkFirst))
     = [ByField EqualsOperator "a" ["1"]; ByField EqualsOperator "b" ["1"];
        ByField EqualsOperator "c" ["1"]; ByField EqualsOperator "d" ["1"];
        ByField EqualsOperator "z" ["2"]; ByField EqualsOperator "z" ["1"]]
  /\ ~ noDuplicateKeys
        (view (snd forkSecond) (CriteriaForContext (snd forkFirst))).
Proof.
  assert (Hread :
    view (snd forkSecond) (CriteriaForContext (snd forkFirst))
    = [ByField EqualsOperator "a" ["1"]; ByField EqualsOperator "b" ["1"];
       ByField EqualsOperator "c" ["1"]; ByField EqualsOperator "d" ["1"];
       ByField EqualsOperator "z" ["2"]; ByField EqualsOperator "z" ["1"]])
    by (vm_compute; reflexivity).
  split; [vm_compute; reflexivity|].
  split; [vm_compute; reflexivity|].
  split.
  { destruct (fst forkSecond) as [ctx'|e|p] eqn:Hcall.
    - exists ctx'. split; [reflexivity|].
      revert Hcall. generalize (eq_refl (snd forkSecond)).
      vm_compute. intros _ Hcall. injection Hcall as <-. reflexivity.
    - exfalso. revert Hcall. vm_compute. discriminate.
    - exfalso. revert Hcall. vm_compute. discriminate. }
  split; [exact Hread|].
  rewrite Hread. intros [Hfield _]. cbn in Hfield.
  apply NoDup_ListNoDup in Hfield.
  apply (proj1 (List.NoDup_count_occ String.string_dec _)) with (x := "z") in Hfield.
  vm_compute in Hfield. lia.
Qed.

(** ** The storage helpers (C1, C9) *)

(** C1.  [list] writes every non-empty filter value into the statement
    text, between quotes it does not escape, and hands the driver no
    argument: a value can close the quote and extend the statement. *)
Theorem list_interpolates_values :
  (forall (table key : string) (b : byte) (rest : string),
     PostgresV1.list' table [(key, [String b rest])]
     = (("SELECT * FROM " +:+ table) +:+ " WHERE "
          +:+ " (" +:+ (key +:+ "='" +:+ String b rest +:+ "'") +:+ ") ",
        []))
  /\ PostgresV1.list' "brokers" [("name", ["x' OR '1'='1"])]
     = ("SELECT * FROM brokers WHERE  (name='x' OR '1'='1') ", []).
Proof. split; [intros; reflexivity|vm_compute; reflexivity]. Qed.

Lemma availableColumns_fold (dbTags : list string) (m : gmap string bool)
    (k : string) :
  default false (fold_left (fun m dbTag => <[dbTag := true]> m) dbTags m !! k)
  = default false (m !! k) || bool_decide (k ∈ dbTags).
Proof.
  revert m. induction dbTags as [|t dbTags IH]; intros m; cbn [fold_left].
  - rewrite bool_decide_eq_false_2 by apply not_elem_of_nil.
    now rewrite orb_false_r.
  - rewrite IH. destruct (decide (t = k)) as [->|Hne].
    + rewrite lookup_insert_eq.
      rewrite (bool_decide_eq_true_2 (k ∈ k :: dbTags)) by apply list_elem_of_here.
      now rewrite orb_true_r.
    + rewrite lookup_insert_ne by done.
      f_equal. apply bool_decide_ext. rewrite elem_of_cons. intuition congruence.
Qed.

(** The older [validateFieldQueryParams] accepts a list of criteria exactly
    when the left operand of every criterion, of whatever type, is a
    column. *)
Lemma PostgresV1_validate_spec (dbTags : list string) (criteria : list Criterion) :
  PostgresV1.validateFieldQueryParams dbTags criteria = Ok tt
  <-> Forall (fun c => LeftOp c ∈ dbTags) criteria.
Proof.
  unfold PostgresV1.validateFieldQueryParams, PostgresV1.availableColumns.
  induction criteria as [|c criteria IH]; simpl.
  - split; auto.
  - rewrite availableColumns_fold, lookup_empty. simpl.
    destruct (decide (LeftOp c ∈ dbTags)) as [Hin|Hnin].
    + rewrite bool_decide_eq_true_2 by auto. simpl. rewrite IH.
      split; [intros; constructor; auto|]. intros Hall; inversion Hall; auto.
    + rewrite bool_decide_eq_false_2 by auto. simpl.
      split; [discriminate|]. intros Hall; inversion Hall; contradiction.
Qed.

(** The later one accepts it exactly when the left operand of every field
    criterion is a column; criteria of the other types are not looked at. *)
Lemma PostgresV2_validate_spec (columns : gmap string bool)
    (criteria : list Criterion) :
  PostgresV2.validateFieldQueryParams columns criteria = Ok tt
  <-> Forall (fun c => Type_ c = FieldQuery -> columns !! LeftOp c = Some true)
             criteria.
Proof.
  induction criteria as [|c criteria IH]; simpl.
  - split; auto.
  - destruct (String.eqb_spec (Type_ c) FieldQuery) as [Hty|Hty]; simpl.
    + destruct (columns !! LeftOp c) as [[|]|] eqn:Hcol; simpl.
      * rewrite IH. split; [intros; constructor; auto|].
        intros Hall; inversion Hall; auto.
      * split; [discriminate|]. intros Hall.
        inversion Hall as [|c' cs' Hc Hrest]; subst.
        specialize (Hc Hty). congruence.
      * split; [discriminate|]. intros Hall.
        inversion Hall as [|c' cs' Hc Hrest]; subst.
        specialize (Hc Hty). congruence.
    + rewrite IH. split; [intros; constructor; auto; contradiction|].
      intros Hall; inversion Hall; auto.
Qed.

(** C9.  A field criterion whose left operand is not a column is refused by
    both revisions of [validateFieldQueryParams].  A label criterion whose
    key is not a column passes the later revision and is refused by the
    older one, the one [listWithLabelsAndCriteria] calls, which looks up
    every criterion whatever its type. *)
Theorem label_keys_checked_against_columns :
  let columns : gmap string bool := <["id" := true]> (<["name" := true]> ∅) in
  let ghost := ByField EqualsOperator "ghost" ["v"] in
  let label := ByLabel EqualsOperator "env" ["prod"] in
  PostgresV1.validateFieldQueryParams ["id"; "name"] [ghost]
    = Err (UnsupportedQuery (MsgUnsupportedFieldKey "ghost"))
  /\ PostgresV2.validateFieldQueryParams columns [ghost]
    = Err (UnsupportedQueryError (MsgUnsupportedFieldKey "ghost"))
  /\ PostgresV2.validateFieldQueryParams columns [label] = Ok tt
  /\ PostgresV1.validateFieldQueryParams ["id"; "name"] [label]
    = Err (UnsupportedQuery (MsgUnsupportedFieldKey "env")).
Proof. repeat split; vm_compute; reflexivity. Qed.

(** * Further properties *)

(** ** What Validate accepts *)

Lemma checkNewLines_Ok (c : Criterion) (ops : list string) :
  checkNewLines c ops = Ok tt
  <-> Forall (fun op => ContainsRune op NewLine = false) ops.
Proof.
  induction ops as [|op ops IH]; simpl.
  - split; auto.
  - destruct (ContainsRune op NewLine) eqn:Hnl.
    + split; [discriminate|]. intros Hall.
      inversion Hall as [|x xs Hx Hxs]; subst. congruence.
    + rewrite IH. split; [intros; constructor; auto|].
      intros Hall. inversion Hall; auto.
Qed.

(** A field or label criterion passes [Validate] exactly when it has at most
    one right operand or a multivariate operator, a nullable operator only in
    a field query, under a numeric operator a first right operand that is a
    number or a date-time, no separator in the left operand and no new line
    in a right operand. *)
Theorem Validate_accepts `{GoEnv} (c : Criterion) :
  Type_ c <> ResultQuery ->
  Validate c = Ok tt
  <-> ((length (RightOp c) <= 1)%nat \/ IsMultiVariate (Operator_ c) = true)
      /\ (IsNullable (Operator_ c) = true -> Type_ c = FieldQuery)
      /\ (IsNumeric (Operator_ c) = true ->
          exists r0 rest, RightOp c = r0 :: rest
                          /\ (isNumeric r0 = true \/ isDateTime r0 = true))
      /\ ContainsRune (LeftOp c) Separator = false
      /\ Forall (fun op => ContainsRune op NewLine = false) (RightOp c).
Proof.
  intros Hty. unfold Validate. cbv zeta.
  rewrite (eqb_false_of_ne _ _ Hty).
  destruct (Nat.ltb_spec 1 (length (RightOp c))) as [Hlen|Hlen];
    destruct (IsMultiVariate (Operator_ c)) eqn:Hmulti; cbn [negb andb].
  2:{ split; [discriminate|]. intros ([Hle|Hm] & _); [lia|discriminate]. }
  all: destruct (IsNullable (Operator_ c)) eqn:Hnull; cbn [andb];
    [destruct (String.eqb_spec (Type_ c) FieldQuery) as [Hfield|Hfield];
     cbn [negb]|].
  all: try (split; [discriminate|]; intros (_ & Hn & _);
            exfalso; apply Hfield; auto; fail).
  all: destruct (IsNumeric (Operator_ c)) eqn:Hnum.
  all: try (destruct (RightOp c) as [|r0 rest] eqn:Hright;
            [change (indexList (@nil string) 0) with (@Panic string IndexOutOfRange)
            |change (indexList (r0 :: rest) 0) with (Ok r0)];
            cbn [mbind outcome_bind];
            [split; [discriminate|];
             intros (_ & _ & Hx & _); destruct (Hx eq_refl) as (? & ? & ? & _);
             discriminate|];
            destruct (isNumeric r0) eqn:Hn; destruct (isDateTime r0) eqn:Hd;
            cbn [negb andb mbind outcome_bind]).
  all: try (split; [discriminate|];
            intros (_ & _ & Hx & _);
            destruct (Hx eq_refl) as (r0' & rest' & Heq & [Hy|Hy]);
            inversion Heq; subst; congruence).
  all: cbn [mbind outcome_bind].
  all: destruct (ContainsRune (LeftOp c) Separator) eqn:Hsep.
  all: try (split;
            [destruct (indexList (FieldsFuncSeparator (LeftOp c))
                         (Z.of_nat (length (FieldsFuncSeparator (LeftOp c))) - 1));
             cbn [mbind outcome_bind]; discriminate
            |intros (_ & _ & _ & Hx & _); discriminate]).
  all: cbn [mbind outcome_bind]; rewrite checkNewLines_Ok.
  all: split;
    [intros Hall; repeat split; auto; try discriminate; try (right; reflexivity);
     try (left; lia); eauto 6
    |intros (_ & _ & _ & _ & Hall); exact Hall].
Qed.

Lemma Validate_accepts_witness :
  @Validate exampleEnv (ByField GreaterThanOperator "age" ["42"]) = Ok tt.
Proof.
  apply (proj2 (@Validate_accepts exampleEnv
                  (ByField GreaterThanOperator "age" ["42"]) ltac:(discriminate))).
  split; [left; simpl; lia|].
  split; [discriminate|].
  split; [intros _; exists "42", []; split; [reflexivity|left; reflexivity]|].
  split; [reflexivity|].
  repeat constructor.
Defined.

(** ** Limits *)

Lemma byteZ_byteOfZ (z : Z) : 0 <= z < 256 -> byteZ (byteOfZ z) = z.
Proof.
  intros Hz. unfold byteZ, byteOfZ.
  rewrite N_ascii_embedding by lia. lia.
Qed.

Lemma bytes_ofBytes (bs : list byte) : bytes (ofBytes bs) = bs.
Proof. apply list_ascii_of_string_of_list_ascii. Qed.

Lemma isDigit_digit (k : Z) : 0 <= k < 10 -> isDigit (byteOfZ (48 + k)) = true.
Proof.
  intros Hk. unfold isDigit, inRange. rewrite byteZ_byteOfZ by lia.
  apply andb_true_iff. split; [apply Z.leb_le|apply Z.leb_le]; lia.
Qed.

Lemma digitsValue_app (ds1 ds2 : list byte) (acc : Z) :
  digitsValue acc (ds1 ++ ds2)
  = match digitsValue acc ds1 with
    | Some v => digitsValue v ds2
    | None => None
    end.
Proof.
  revert acc. induction ds1 as [|d ds1 IH]; intros acc; simpl; [reflexivity|].
  destruct (isDigit d); [apply IH|reflexivity].
Qed.

(** The digits [itoaDigits] puts in front of [acc] read back as [n]. *)
Lemma itoaDigits_spec (fuel : nat) (n : Z) (acc : list byte) :
  (0 < fuel)%nat -> 0 <= n < 10 ^ Z.of_nat fuel ->
  exists d ds, itoaDigits fuel n acc = (d :: ds) ++ acc
            /\ isDigit d = true
            /\ forall a, digitsValue a (d :: ds)
                         = Some (a * 10 ^ Z.of_nat (length (d :: ds)) + n).
Proof.
  revert n acc. induction fuel as [|fuel IH]; intros n acc Hfuel Hn.
  - lia.
  - cbn [itoaDigits].
    assert (Hmod : 0 <= n mod 10 < 10) by (apply Z.mod_pos_bound; lia).
    destruct (Z.ltb_spec n 10) as [Hsmall|Hbig].
    + exists (byteOfZ (48 + n mod 10)), []. split; [reflexivity|].
      split; [apply isDigit_digit; exact Hmod|].
      intros a. cbn [digitsValue]. rewrite isDigit_digit by exact Hmod.
      rewrite byteZ_byteOfZ by lia. rewrite Z.mod_small by lia.
      cbn [length]. f_equal. change (10 ^ Z.of_nat 1) with 10. lia.
    + destruct (IH (n / 10) (byteOfZ (48 + n mod 10) :: acc)) as (d & ds & Heq & Hd & Hval).
      { destruct fuel; [|lia]. change (10 ^ Z.of_nat 1) with 10 in Hn. lia. }
      { rewrite Nat2Z.inj_succ, Z.pow_succ_r in Hn by lia.
        split; [apply Z.div_pos; lia|].
        apply Z.div_lt_upper_bound; lia. }
      exists d, (ds ++ [byteOfZ (48 + n mod 10)]). split.
      { rewrite Heq. simpl. f_equal. rewrite <- app_assoc. reflexivity. }
      split; [exact Hd|].
      intros a. rewrite app_comm_cons, digitsValue_app, Hval.
      cbn [digitsValue]. rewrite isDigit_digit by exact Hmod.
      rewrite byteZ_byteOfZ by lia. f_equal.
      rewrite length_app. cbn [length].
      rewrite Nat2Z.inj_add. change (Z.of_nat 1) with 1.
      rewrite Z.pow_add_r by lia. change (10 ^ 1) with 10.
      pose proof (Z.div_mod n 10 ltac:(lia)). lia.
Qed.

Lemma Atoi_Itoa (n : Z) :
  - 2 ^ 63 <= n < 2 ^ 63 -> Atoi (Itoa n) = Some n.
Proof.
  intros Hn. unfold Itoa.
  destruct (Z.ltb_spec n 0) as [Hneg|Hpos].
  - destruct (itoaDigits_spec 20 (- n) []) as (d & ds & Heq & Hd & Hval).
    { lia. }
    { change (10 ^ Z.of_nat 20) with 100000000000000000000.
      change (2 ^ 63) with 9223372036854775808 in Hn. lia. }
    rewrite Heq, app_nil_r. unfold Atoi. rewrite bytes_ofBytes.
    rewrite byteZ_byteOfZ by lia. cbn [Z.eqb Pos.eqb].
    rewrite (Hval 0). rewrite Z.mul_0_l, Z.add_0_l.
    destruct (Z.leb_spec (- n) (2 ^ 63)); [f_equal; lia|lia].
  - destruct (itoaDigits_spec 20 n []) as (d & ds & Heq & Hd & Hval).
    { lia. }
    { change (10 ^ Z.of_nat 20) with 100000000000000000000.
      change (2 ^ 63) with 9223372036854775808 in Hn. lia. }
    rewrite Heq, app_nil_r. unfold Atoi. rewrite bytes_ofBytes.
    unfold isDigit, inRange in Hd. apply andb_true_iff in Hd as [Hlo Hhi].
    apply Z.leb_le in Hlo. apply Z.leb_le in Hhi.
    destruct (Z.eqb_spec (byteZ d) 43); [lia|].
    destruct (Z.eqb_spec (byteZ d) 45); [lia|].
    rewrite (Hval 0). rewrite Z.mul_0_l, Z.add_0_l.
    destruct (Z.ltb_spec n (2 ^ 63)); [reflexivity|lia].
Qed.

(** The criterion [LimitResultBy] builds from an [int] is valid exactly when
    the limit is at least 1, and is refused with the invalid-limit error
    otherwise: the decimal text [strconv.Itoa] writes is read back by
    [strconv.Atoi] as the same number. *)
Theorem LimitResultBy_valid `{GoEnv} (limit : Z) :
  - 2 ^ 63 <= limit < 2 ^ 63 ->
  Validate (LimitResultBy limit)
  = if limit <? 1 then Err (UnsupportedQueryError (MsgLimitInvalid limit))
    else Ok tt.
Proof.
  intros Hn. unfold Validate, LimitResultBy, newCriterion. cbn [Type_ LeftOp RightOp].
  change (String.eqb ResultQuery ResultQuery) with true.
  change (String.eqb Limit Limit) with true.
  change (String.eqb Limit OrderBy) with false. cbn iota.
  change (indexList [Itoa limit] 0) with (Ok (Itoa limit)).
  cbn [mbind outcome_bind]. rewrite (Atoi_Itoa limit Hn).
  destruct (limit <? 1); reflexivity.
Qed.

Lemma LimitResultBy_valid_witness :
  @Validate exampleEnv (LimitResultBy 10) = Ok tt
  /\ @Validate exampleEnv (LimitResultBy 0)
     = Err (UnsupportedQueryError (MsgLimitInvalid 0)).
Proof.
  split.
  - apply (@LimitResultBy_valid exampleEnv 10). lia.
  - apply (@LimitResultBy_valid exampleEnv 0). lia.
Defined.

(** ** Parsing the text of criteria *)

Lemma byteOfZ_byteZ (b : byte) : byteOfZ (byteZ b) = b.
Proof. unfold byteOfZ, byteZ. rewrite N2Z.id. apply ascii_N_embedding. Qed.

Lemma byteZ_bound (b : byte) : 0 <= byteZ b < 256.
Proof.
  unfold byteZ. pose proof (N_ascii_bounded b). lia.
Qed.

Lemma bytes_append (a b : string) : bytes (a +:+ b) = bytes a ++ bytes b.
Proof. induction a as [|c a IH]; simpl; [reflexivity|now rewrite IH]. Qed.

Lemma ofBytes_bytes (s : string) : ofBytes (bytes s) = s.
Proof. apply string_of_list_ascii_of_string. Qed.

Lemma append_cons (x : byte) (a b : string) :
  String x a +:+ b = String x (a +:+ b).
Proof. reflexivity. Qed.

Lemma append_assoc (a b c : string) : (a +:+ b) +:+ c = a +:+ (b +:+ c).
Proof.
  induction a as [|x a IH]; [reflexivity|].
  rewrite !append_cons. now rewrite IH.
Qed.

Lemma append_nil_r (a : string) : a +:+ EmptyString = a.
Proof.
  induction a as [|x a IH]; [reflexivity|].
  rewrite append_cons. now rewrite IH.
Qed.

Lemma encodeRune_ascii (b : byte) :
  byteZ b < 128 -> encodeRune (byteZ b) = String b EmptyString.
Proof.
  intros Hb. pose proof (byteZ_bound b) as Hbound.
  unfold encodeRune, inRange.
  destruct (Z.leb_spec 0 (byteZ b)); [|lia].
  destruct (Z.leb_spec (byteZ b) 127); [|lia].
  simpl. now rewrite byteOfZ_byteZ.
Qed.

Lemma runesOf_ascii_app (bs rest : list byte) :
  forallb (fun b => byteZ b <? 128) bs = true ->
  runesOf (bs ++ rest) = map byteZ bs ++ runesOf rest.
Proof.
  induction bs as [|b bs IH]; intros Hall; [reflexivity|].
  cbn [forallb] in Hall. apply andb_true_iff in Hall as [Hb Hbs].
  cbn [app map runesOf]. unfold decodeRune. rewrite Hb. cbn iota beta.
  rewrite (IH Hbs). reflexivity.
Qed.

Lemma isPlain_ascii (bs : list byte) :
  forallb isPlain bs = true -> forallb (fun b => byteZ b <? 128) bs = true.
Proof.
  induction bs as [|b bs IH]; simpl; [auto|].
  intros Hall. apply andb_true_iff in Hall as [Hb Hbs].
  unfold isPlain in Hb. apply andb_true_iff in Hb as [Hb _].
  apply andb_true_iff in Hb as [Hb _]. rewrite Hb. simpl. auto.
Qed.

(** The scan of plain bytes only fills the buffer. *)
Lemma findRightOp_loop_plain (remaining : string) (bs : list byte)
    (rs : list rune) (acc : list string) (off : Z) (buf : string) :
  forallb isPlain bs = true ->
  findRightOp_loop remaining (map byteZ bs ++ rs) (mkScan acc off buf)
  = findRightOp_loop remaining rs
      (mkScan acc (off + Z.of_nat (length bs)) (buf +:+ ofBytes bs)).
Proof.
  revert off buf. induction bs as [|b bs IH]; intros off buf Hall.
  - simpl. now rewrite Z.add_0_r, append_nil_r.
  - cbn [forallb] in Hall. apply andb_true_iff in Hall as [Hb Hbs].
    unfold isPlain in Hb. apply andb_true_iff in Hb as [Hb Hback].
    apply andb_true_iff in Hb as [Hascii Hsep].
    apply Z.ltb_lt in Hascii. apply negb_true_iff in Hsep.
    cbn [map app findRightOp_loop]. unfold findRightOp_step.
    cbn [sOffset sRightOp sBuf]. rewrite Hsep.
    rewrite (encodeRune_ascii b Hascii), (IH _ _ Hbs).
    f_equal. f_equal; [cbn [length]; lia|].
    rewrite append_assoc. reflexivity.
Qed.

Lemma get_bytes (n : nat) (s : string) : String.get n s = bytes s !! n.
Proof.
  revert n. induction s as [|c s IH]; intros [|n]; simpl; auto.
Qed.

Lemma length_bytes (s : string) : length (bytes s) = String.length s.
Proof. induction s as [|c s IH]; simpl; auto. Qed.

Lemma index_lookup (s : string) (i : Z) (b : byte) :
  0 <= i -> bytes s !! Z.to_nat i = Some b -> index s i = Ok b.
Proof.
  intros Hi Hb. unfold index.
  assert (Z.to_nat i < length (bytes s))%nat as Hlt
    by (apply lookup_lt_is_Some; eauto).
  rewrite length_bytes in Hlt.
  destruct (Z.leb_spec 0 i); [|lia].
  destruct (Z.ltb_spec i (len s)); [|unfold len in *; lia].
  cbn [andb]. rewrite get_bytes. unfold byte in *. now rewrite Hb.
Qed.

Lemma len_bytes (s : string) : len s = Z.of_nat (length (bytes s)).
Proof. unfold len. now rewrite length_bytes. Qed.

(** The last byte of a non-empty plain element. *)
Lemma plainElement_last (v : string) :
  plainElement v = true ->
  exists b, bytes v !! (length (bytes v) - 1)%nat = Some b /\ isPlain b = true
            /\ 1 <= len v.
Proof.
  unfold plainElement, plainValue. intros Hv.
  apply andb_true_iff in Hv as [Hplain Hne].
  apply negb_true_iff in Hne.
  destruct v as [|c v]; [discriminate|].
  assert (length (bytes (String c v)) - 1 < length (bytes (String c v)))%nat as Hlt
    by (simpl; lia).
  apply lookup_lt_is_Some in Hlt as [b Hb].
  exists b. split; [exact Hb|]. split.
  - rewrite forallb_forall in Hplain. apply Hplain.
    apply list_elem_of_In. eapply list_elem_of_lookup_2; eauto.
  - unfold len. simpl. lia.
Qed.

(** One element of a list operand and the doubled separator after it. *)
Lemma findRightOp_loop_element (pre e rest : string) (rs : list rune)
    (acc : list string) :
  plainElement e = true ->
  (forall r, rest <> String "|" r) -> rest <> EmptyString ->
  let remaining := pre +:+ e +:+ "||" +:+ rest in
  findRightOp_loop remaining
    (map byteZ (bytes e) ++ Separator :: Separator :: rs)
    (mkScan acc (len pre) EmptyString)
  = findRightOp_loop remaining rs
      (mkScan (acc ++ [e]) (len pre + len e + 2) EmptyString).
Proof.
  intros He Hrest Hrest' remaining.
  destruct (plainElement_last e He) as (b & Hb & Hplain & Hlen).
  unfold plainElement in He. apply andb_true_iff in He as [He _].
  rewrite findRightOp_loop_plain by exact He.
  rewrite ofBytes_bytes. change (EmptyString +:+ e) with e.
  rewrite <- len_bytes.
  assert (Hrem : bytes remaining
                 = bytes pre ++ bytes e ++ "|"%char :: "|"%char :: bytes rest).
  { unfold remaining. rewrite !bytes_append. reflexivity. }
  assert (Hlenrem : len remaining = len pre + len e + 2 + len rest).
  { unfold remaining. rewrite !len_append. change (len "||") with 2. lia. }
  pose proof (len_nonneg pre) as Hpre. pose proof (len_nonneg rest) as Hr.
  (* the first separator closes the element *)
  cbn [findRightOp_loop]. unfold findRightOp_step at 1.
  cbn [sOffset sRightOp sBuf]. change (Separator =? Separator) with true. cbn iota.
  destruct (Z.ltb_spec (len pre + len e + 1) (len remaining)); [|lia].
  rewrite (index_lookup remaining (len pre + len e + 1) "|"%char); [|lia|].
  2:{ rewrite Hrem, !len_bytes.
      rewrite lookup_app_r by lia. rewrite lookup_app_r by lia.
      replace (Z.to_nat (Z.of_nat (length (bytes pre)) + Z.of_nat (length (bytes e)) + 1)
               - length (bytes pre) - length (bytes e))%nat with 1%nat by lia.
      reflexivity. }
  cbn [mbind outcome_bind]. change (byteZ "|"%char =? Separator) with true. cbn iota.
  rewrite (index_lookup remaining (len pre + len e - 1) b); [|lia|].
  2:{ rewrite Hrem, !len_bytes. rewrite lookup_app_r by (rewrite len_bytes in Hlen; lia).
      rewrite lookup_app_l by (rewrite len_bytes in Hlen; lia).
      rewrite <- Hb. f_equal. rewrite len_bytes in Hlen. lia. }
  cbn [mbind outcome_bind].
  unfold isPlain in Hplain. apply andb_true_iff in Hplain as [Hplain Hback].
  apply negb_true_iff in Hback. rewrite Hback. cbn [negb]. cbn iota.
  (* the second one is skipped *)
  cbn [findRightOp_loop]. unfold findRightOp_step at 1.
  cbn [sOffset sRightOp sBuf]. change (Separator =? Separator) with true. cbn iota.
  assert (Hnext : exists c rest', rest = String c rest' /\ byteZ c <> Separator).
  { destruct rest as [|c rest']; [congruence|]. exists c, rest'. split; [reflexivity|].
    intros Hc. apply (Hrest rest'). f_equal.
    rewrite <- (byteOfZ_byteZ c), Hc. reflexivity. }
  destruct Hnext as (c & rest' & -> & Hc).
  destruct (Z.ltb_spec (len pre + len e + 1 + 1) (len remaining));
    [|unfold len in *; simpl in *; lia].
  rewrite (index_lookup remaining (len pre + len e + 1 + 1) c); [|lia|].
  2:{ rewrite Hrem, !len_bytes.
      rewrite lookup_app_r by lia. rewrite lookup_app_r by lia.
      replace (Z.to_nat (Z.of_nat (length (bytes pre)) + Z.of_nat (length (bytes e)) + 1 + 1)
               - length (bytes pre) - length (bytes e))%nat with 2%nat by lia.
      reflexivity. }
  cbn [mbind outcome_bind].
  destruct (Z.eqb_spec (byteZ c) Separator); [contradiction|]. cbn iota.
  rewrite (index_lookup remaining (len pre + len e + 1 - 1) "|"%char); [|lia|].
  2:{ rewrite Hrem, !len_bytes.
      rewrite lookup_app_r by lia. rewrite lookup_app_r by lia.
      replace (Z.to_nat (Z.of_nat (length (bytes pre)) + Z.of_nat (length (bytes e)) + 1 - 1)
               - length (bytes pre) - length (bytes e))%nat with 0%nat by lia.
      reflexivity. }
  cbn [mbind outcome_bind]. change (byteZ "|"%char =? Separator) with true. cbn iota.
  f_equal. f_equal. lia.
Qed.

Lemma runes_plain_append (e rest : string) :
  plainValue e = true ->
  runes (e +:+ rest) = map byteZ (bytes e) ++ runes rest.
Proof.
  intros He. unfold runes. rewrite bytes_append.
  apply runesOf_ascii_app, isPlain_ascii, He.
Qed.

Lemma endsValue_runes (tail : string) :
  endsValue tail = true ->
  tail = EmptyString
  \/ exists tail', tail = String "|" tail' /\ runes tail = Separator :: runes tail'
                   /\ (tail' = EmptyString
                       \/ exists c r, tail' = String c r /\ byteZ c <> Separator).
Proof.
  destruct tail as [|b tail']; [auto|]. simpl. intros Htail.
  apply andb_true_iff in Htail as [Hb Hnext]. apply Z.eqb_eq in Hb.
  assert (b = "|"%char) as ->.
  { rewrite <- (byteOfZ_byteZ b), Hb. reflexivity. }
  right. exists tail'. split; [reflexivity|]. split; [reflexivity|].
  destruct tail' as [|c r]; [auto|]. right. exists c, r. split; [reflexivity|].
  apply negb_true_iff in Hnext. now apply Z.eqb_neq.
Qed.

(** The last element of an operand, up to the end of the input or to the
    single separator that ends the criterion. *)
Lemma findRightOp_loop_last (pre e tail : string) (acc : list string) :
  plainElement e = true -> endsValue tail = true ->
  exists st,
    findRightOp_loop (pre +:+ e +:+ tail) (runes (e +:+ tail))
      (mkScan acc (len pre) EmptyString) = Ok st
    /\ flushed st = acc ++ [e] /\ sOffset st = len pre + len e.
Proof.
  intros He Htail.
  destruct (plainElement_last e He) as (b & Hb & Hplain & Hlen).
  pose proof He as He'.
  unfold plainElement in He'. apply andb_true_iff in He' as [Hpv _].
  rewrite (runes_plain_append _ _ Hpv), findRightOp_loop_plain by exact Hpv.
  rewrite ofBytes_bytes. change (EmptyString +:+ e) with e.
  rewrite <- len_bytes.
  pose proof (len_nonneg pre) as Hpre.
  destruct (endsValue_runes tail Htail) as [->|(tail' & -> & Hrunes & Hnext)].
  - exists (mkScan acc (len pre + len e) e). split; [reflexivity|].
    unfold flushed. cbn [sBuf sRightOp sOffset].
    destruct (Z.ltb_spec 0 (len e)); [auto|lia].
  - exists (mkScan (acc ++ [e]) (len pre + len e) EmptyString).
    split; [|split; reflexivity].
    rewrite Hrunes. cbn [findRightOp_loop]. unfold findRightOp_step.
    cbn [sOffset sRightOp sBuf]. change (Separator =? Separator) with true. cbn iota.
    set (remaining := pre +:+ e +:+ String "|" tail').
    assert (Hrem : bytes remaining = bytes pre ++ bytes e ++ "|"%char :: bytes tail').
    { unfold remaining. rewrite !bytes_append. reflexivity. }
    assert (Hprev : index remaining (len pre + len e - 1) = Ok b).
    { apply index_lookup; [lia|].
      rewrite Hrem, !len_bytes. rewrite len_bytes in Hlen.
      rewrite lookup_app_r by lia. rewrite lookup_app_l by lia.
      rewrite <- Hb. f_equal. lia. }
    unfold isPlain in Hplain. apply andb_true_iff in Hplain as [Hplain Hback].
    apply andb_true_iff in Hplain as [_ Hsep].
    apply negb_true_iff in Hback. apply negb_true_iff in Hsep.
    assert (Hboundary :
      (if len pre + len e + 1 <? len remaining then
         next ← index remaining (len pre + len e + 1);
         if byteZ next =? Separator then
           prev ← index remaining (len pre + len e - 1);
           Ok (negb (Ascii.eqb prev Backslash))
         else Ok false
       else Ok false) = Ok false).
    { destruct (Z.ltb_spec (len pre + len e + 1) (len remaining)) as [Hlt|Hge];
        [|reflexivity].
      destruct Hnext as [->|(c & r & -> & Hc)].
      - unfold remaining in Hlt. rewrite !len_append in Hlt.
        change (len (String "|" EmptyString)) with 1 in Hlt. lia.
      - rewrite (index_lookup remaining (len pre + len e + 1) c); [| lia |].
        + cbn [mbind outcome_bind].
          destruct (Z.eqb_spec (byteZ c) Separator); [contradiction|reflexivity].
        + rewrite Hrem, !len_bytes. simpl.
          rewrite lookup_app_r by lia. rewrite lookup_app_r by lia.
          replace (Z.to_nat (Z.of_nat (length (bytes pre))
                             + Z.of_nat (length (bytes e)) + 1)
                   - length (bytes pre) - length (bytes e))%nat with 1%nat by lia.
          reflexivity. }
    rewrite Hboundary. cbn [mbind outcome_bind]. cbn iota.
    rewrite Hprev. cbn [mbind outcome_bind]. rewrite Hsep, Hback. reflexivity.
Qed.

Lemma Join_cons2 (e e2 : string) (T : list string) (sep : string) :
  PostgresV1.Join (e :: e2 :: T) sep = e +:+ sep +:+ PostgresV1.Join (e2 :: T) sep.
Proof. reflexivity. Qed.

Lemma plainElement_first (e : string) :
  plainElement e = true ->
  exists c r, e = String c r /\ byteZ c <> Separator.
Proof.
  unfold plainElement, plainValue. intros He.
  apply andb_true_iff in He as [Hplain Hne].
  destruct e as [|c r]; [discriminate|]. exists c, r. split; [reflexivity|].
  simpl in Hplain. apply andb_true_iff in Hplain as [Hc _].
  unfold isPlain in Hc. apply andb_true_iff in Hc as [Hc _].
  apply andb_true_iff in Hc as [_ Hc]. apply negb_true_iff in Hc.
  now apply Z.eqb_neq.
Qed.

(** The scan of the elements of an operand, separated by doubled
    separators. *)
Lemma findRightOp_loop_elements (T : list string) (tail : string) :
  T <> [] -> forallb plainElement T = true -> endsValue tail = true ->
  forall (pre : string) (acc : list string),
  exists st,
    findRightOp_loop (pre +:+ PostgresV1.Join T "||" +:+ tail) (runes (PostgresV1.Join T "||" +:+ tail))
      (mkScan acc (len pre) EmptyString) = Ok st
    /\ flushed st = acc ++ T
    /\ sOffset st = len pre + len (PostgresV1.Join T "||").
Proof.
  intros Hne HT Htail. induction T as [|e T IH]; [congruence|]. clear Hne.
  cbn [forallb] in HT. apply andb_true_iff in HT as [He HT].
  destruct T as [|e2 T].
  - intros pre acc. exact (findRightOp_loop_last pre e tail acc He Htail).
  - intros pre acc. rewrite Join_cons2.
    pose proof HT as HT'. cbn [forallb] in HT'.
    apply andb_true_iff in HT' as [He2 _].
    destruct (plainElement_first e2 He2) as (c & r & Hc & Hsep).
    pose proof He as Hpv. unfold plainElement in Hpv.
    apply andb_true_iff in Hpv as [Hpv _].
    set (rest := PostgresV1.Join (e2 :: T) "||" +:+ tail).
    replace ((e +:+ "||" +:+ PostgresV1.Join (e2 :: T) "||") +:+ tail)
      with (e +:+ "||" +:+ rest)
      by (unfold rest; now rewrite !append_assoc).
    rewrite (runes_plain_append _ _ Hpv).
    change (runes ("||" +:+ rest)) with (Separator :: Separator :: runes rest).
    assert (Hrest1 : forall r', rest <> String "|" r').
    { intros r' Heq. unfold rest in Heq. destruct T as [|e3 T].
      - cbn [PostgresV1.Join] in Heq. rewrite Hc in Heq. inversion Heq; subst.
        apply Hsep. reflexivity.
      - rewrite Join_cons2, Hc in Heq. inversion Heq; subst.
        apply Hsep. reflexivity. }
    assert (Hrest2 : rest <> EmptyString).
    { unfold rest. destruct T as [|e3 T].
      - cbn [PostgresV1.Join]. rewrite Hc. discriminate.
      - rewrite Join_cons2, Hc. discriminate. }
    rewrite (findRightOp_loop_element pre e rest (runes rest) acc He Hrest1 Hrest2).
    destruct (IH ltac:(discriminate) HT (pre +:+ e +:+ "||") (acc ++ [e]))
      as (st & Hloop & Hflush & Hoff).
    exists st. fold rest in Hloop.
    replace ((pre +:+ e +:+ "||") +:+ rest) with (pre +:+ e +:+ "||" +:+ rest) in Hloop
      by (now rewrite !append_assoc).
    replace (len (pre +:+ e +:+ "||")) with (len pre + len e + 2) in Hloop, Hoff
      by (rewrite !len_append; change (len "||") with 2; lia).
    split; [exact Hloop|]. split.
    + rewrite Hflush, <- app_assoc. reflexivity.
    + rewrite Hoff, !len_append. change (len "||") with 2. lia.
Qed.

Lemma splitRightOp_elements (T : list string) (tail : string) :
  T <> [] -> forallb plainElement T = true -> endsValue tail = true ->
  splitRightOp (PostgresV1.Join T "||" +:+ tail) = Ok (T, len (PostgresV1.Join T "||")).
Proof.
  intros Hne HT Htail.
  destruct (findRightOp_loop_elements T tail Hne HT Htail EmptyString [])
    as (st & Hloop & Hflush & Hoff).
  unfold splitRightOp. change (EmptyString +:+ PostgresV1.Join T "||" +:+ tail)
    with (PostgresV1.Join T "||" +:+ tail) in Hloop.
  change (len EmptyString) with 0 in Hloop. rewrite Hloop.
  cbn [mbind outcome_bind]. unfold flushed in Hflush. rewrite Hflush, Hoff.
  reflexivity.
Qed.

Lemma Join_snoc (init : list string) (lst sep suffix : string) :
  PostgresV1.Join (init ++ [lst +:+ suffix]) sep = PostgresV1.Join (init ++ [lst]) sep +:+ suffix.
Proof.
  induction init as [|x init IH]; [reflexivity|].
  destruct init as [|y init].
  - cbn [app PostgresV1.Join]. now rewrite !append_assoc.
  - cbn [app] in *. rewrite !Join_cons2, IH. now rewrite !append_assoc.
Qed.

Lemma plainValue_append (a b : string) :
  plainValue (a +:+ b) = plainValue a && plainValue b.
Proof. unfold plainValue. now rewrite bytes_append, forallb_app. Qed.

Lemma plainElement_append_r (a b : string) :
  plainValue a = true -> plainElement b = true -> plainElement (a +:+ b) = true.
Proof.
  unfold plainElement. intros Ha Hb. apply andb_true_iff in Hb as [Hb Hne].
  rewrite plainValue_append, Ha, Hb. cbn [andb].
  destruct a as [|c a]; [exact Hne|reflexivity].
Qed.

Lemma plainElement_append_l (a b : string) :
  plainElement a = true -> plainValue b = true -> plainElement (a +:+ b) = true.
Proof.
  unfold plainElement. intros Ha Hb. apply andb_true_iff in Ha as [Ha Hne].
  rewrite plainValue_append, Ha, Hb. cbn [andb].
  destruct a as [|c a]; [discriminate|reflexivity].
Qed.

Lemma findRightOp_operandText (op : Operator) (vs : list string)
    (tail leftOp : string) (criteriaType : CriterionType) :
  printableOperand op vs = true -> endsValue tail = true ->
  findRightOp (operandText op vs +:+ tail) leftOp op criteriaType
  = Ok (vs, len (operandText op vs)).
Proof.
  unfold printableOperand, operandText. intros Hvs Htail.
  apply andb_true_iff in Hvs as [Hvs Hcount].
  apply andb_true_iff in Hvs as [Hne Hplain].
  apply negb_true_iff, Nat.eqb_neq in Hne.
  assert (vs <> []) as Hnil by (destruct vs; [simpl in Hne; lia|discriminate]).
  unfold findRightOp.
  destruct (IsMultiVariate op) eqn:Hmulti.
  - destruct (exists_last Hnil) as (init & lst & ->).
    rewrite forallb_app in Hplain. apply andb_true_iff in Hplain as [Hinit Hlst].
    cbn [forallb] in Hlst. rewrite andb_true_r in Hlst.
    assert (exists first' rest, first' :: rest = init ++ [lst +:+ "]"])
      as (first' & rest & Heq) by (destruct init; simpl; eauto).
    assert (HT : forallb plainElement (first' :: rest) = true).
    { rewrite Heq, forallb_app, Hinit. cbn [forallb andb].
      rewrite andb_true_r. now apply plainElement_append_l. }
    assert (Htext : "[" +:+ PostgresV1.Join (init ++ [lst]) "||" +:+ "]"
                    = PostgresV1.Join (String "[" first' :: rest) "||").
    { rewrite <- Join_snoc, <- Heq. destruct rest; reflexivity. }
    rewrite Htext.
    rewrite splitRightOp_elements; [|discriminate| |exact Htail].
    2:{ cbn [forallb] in HT |- *. apply andb_true_iff in HT as [Hf Hr].
        rewrite Hr, andb_true_r.
        apply (plainElement_append_r "[" first'); [reflexivity|exact Hf]. }
    cbn [mbind outcome_bind length Nat.ltb Nat.leb andb].
    rewrite stripBrackets_open, Heq.
    rewrite indexList_last. cbn [mbind outcome_bind].
    rewrite index_append_last. cbn [mbind outcome_bind].
    change (byteZ "]"%char =? CloseBracket) with true. cbn iota.
    rewrite sliceTo_append_last. cbn [mbind outcome_bind].
    rewrite insert_last. rewrite length_app. cbn [length].
    destruct (Nat.eqb_spec (length init + 1) 0); [lia|reflexivity].
  - cbn [orb] in Hcount. apply Nat.eqb_eq in Hcount.
    rewrite splitRightOp_elements by assumption.
    cbn [mbind outcome_bind]. rewrite andb_false_r. cbn [mbind outcome_bind].
    destruct (Nat.eqb_spec (length vs) 0); [lia|reflexivity].
Qed.

Lemma bytes_substring (s : string) (n m : nat) :
  bytes (String.substring n m s) = take m (drop n (bytes s)).
Proof.
  revert n m. induction s as [|c s IH]; intros n m.
  - destruct n, m; reflexivity.
  - destruct n as [|n].
    + destruct m as [|m]; [reflexivity|]. simpl. now rewrite IH.
    + simpl. apply IH.
Qed.

Lemma sliceFrom_bytes (s r : string) (pos : Z) :
  sliceFrom s pos = Ok r -> bytes r = drop (Z.to_nat pos) (bytes s).
Proof.
  unfold sliceFrom, slice. destruct ((0 <=? pos) && (pos <=? len s) && (len s <=? len s));
    [|discriminate].
  intros Heq. inversion Heq; subst. rewrite bytes_substring.
  apply take_ge. rewrite length_drop, length_bytes. unfold len. lia.
Qed.

Lemma matchOperator_nonspace (b : byte) (r : string) :
  byteZ b <> OperandSeparator -> matchOperator (String b r) = None.
Proof.
  intros Hb. unfold matchOperator.
  destruct (find _ operators) as [op|] eqn:Hfind; [|reflexivity].
  apply find_some in Hfind as [_ Hprefix]. exfalso.
  unfold HasPrefix in Hprefix. rewrite operatorPattern_eq in Hprefix.
  change (String.prefix (String " " (op +:+ " ")) (String b r))
    with (if ascii_dec " " b then String.prefix (op +:+ " ") r else false)
    in Hprefix.
  destruct (ascii_dec " " b) as [<-|Hne]; [|discriminate].
  apply Hb. reflexivity.
Qed.

Lemma prefix_append (p rest : string) : String.prefix p (p +:+ rest) = true.
Proof.
  induction p as [|a p IH]; [destruct rest; reflexivity|].
  rewrite append_cons.
  change (String.prefix (String a p) (String a (p +:+ rest)))
    with (if ascii_dec a a then String.prefix p (p +:+ rest) else false).
  destruct (ascii_dec a a); [exact IH|congruence].
Qed.

(** Every pattern ends with the space that no operator contains, so at most
    one pattern starts a given text. *)
Lemma HasPrefix_pattern (op op' : Operator) (rest : string) :
  In op operators -> In op' operators ->
  HasPrefix (operatorPattern op +:+ rest) (operatorPattern op')
  = String.eqb op' op.
Proof.
  unfold operators. simpl.
  intros [<-|[<-|[<-|[<-|[<-|[<-|[<-|[<-|[<-|[]]]]]]]]]]
         [<-|[<-|[<-|[<-|[<-|[<-|[<-|[<-|[<-|[]]]]]]]]]];
    first [apply prefix_append | vm_compute; reflexivity].
Qed.

Lemma find_eqb (f : string -> bool) (l : list string) (op : string) :
  (forall op', In op' l -> f op' = String.eqb op' op) -> In op l ->
  find f l = Some op.
Proof.
  induction l as [|a l IH]; intros Hf Hin; [destruct Hin|].
  cbn [find]. rewrite (Hf a (or_introl eq_refl)).
  destruct (String.eqb_spec a op) as [->|Hne]; [reflexivity|].
  apply IH.
  - intros op' Hop'. apply Hf. now right.
  - destruct Hin as [Heq|Hin]; [contradiction|exact Hin].
Qed.

Lemma matchOperator_pattern_append (op : Operator) (rest : string) :
  In op operators -> matchOperator (operatorPattern op +:+ rest) = Some op.
Proof.
  intros Hop. unfold matchOperator. apply find_eqb; [|exact Hop].
  intros op' Hop'. now apply HasPrefix_pattern.
Qed.

Lemma slice_middle (a k b : string) :
  slice (a +:+ k +:+ b) (len a) (len a + len k) = Ok k.
Proof.
  pose proof (len_nonneg a). pose proof (len_nonneg k). pose proof (len_nonneg b).
  rewrite slice_ok; [|lia|lia|rewrite !len_append; lia].
  f_equal. unfold len. rewrite Nat2Z.id.
  replace (Z.to_nat (Z.of_nat (String.length a) + Z.of_nat (String.length k)
                     - Z.of_nat (String.length a))) with (String.length k) by lia.
  rewrite substring_append_r. apply substring_append_l.
Qed.

Lemma newCriterion_eta (c : Criterion) :
  newCriterion (LeftOp c) (Operator_ c) (RightOp c) (Type_ c) = c.
Proof. destruct c; reflexivity. Qed.

Lemma existsb_operators (op : Operator) :
  existsb (String.eqb op) operators = true -> In op operators.
Proof.
  intros Hex. apply existsb_exists in Hex as (x & Hin & Heq).
  apply String.eqb_eq in Heq. now subst.
Qed.

(** The scan over a left operand finds no operator. *)
Lemma process_loop_scan_key `{GoEnv} (fuel : nat) (pre k rest : string)
    (criteriaType : CriterionType) (j : Z) (c : list Criterion) :
  forallb isKeyByte (bytes k) = true ->
  process_loop (String.length k + fuel) (pre +:+ k +:+ rest) criteriaType
    (len pre) j EmptyString EmptyString c
  = process_loop fuel (pre +:+ k +:+ rest) criteriaType
      (len pre + len k) j EmptyString EmptyString c.
Proof.
  intros Hk. pose proof (len_nonneg pre) as Hpre.
  apply process_loop_scan; [exact Hpre|rewrite !len_append; unfold len; lia|].
  intros pos remaining Hpos Hslice.
  apply sliceFrom_bytes in Hslice.
  rewrite !bytes_append in Hslice.
  rewrite drop_app_ge in Hslice by (rewrite length_bytes; unfold len in *; lia).
  assert (Z.to_nat pos - length (bytes pre) < length (bytes k))%nat as Hlt.
  { rewrite !length_bytes. unfold len in *. lia. }
  apply lookup_lt_is_Some in Hlt as [b Hb].
  rewrite drop_app_le in Hslice by (apply lookup_lt_Some in Hb; lia).
  rewrite (drop_S _ _ _ Hb) in Hslice.
  destruct remaining as [|b' r]; [discriminate|].
  cbn [app] in Hslice. inversion Hslice; subst b'.
  apply matchOperator_nonspace.
  rewrite forallb_forall in Hk.
  assert (isKeyByte b = true) as Hkey.
  { apply Hk, list_elem_of_In. eapply list_elem_of_lookup_2; eauto. }
  unfold isKeyByte in Hkey. apply andb_true_iff in Hkey as [Hsp _].
  apply negb_true_iff in Hsp. now apply Z.eqb_neq.
Qed.

(** The iteration of [process] that meets an operator. *)
Lemma process_loop_match `{GoEnv} (fuel : nat) (input : string)
    (criteriaType : CriterionType) (i j : Z) (remaining l : string)
    (op : Operator) (c : list Criterion) :
  i < len input -> sliceFrom input i = Ok remaining ->
  matchOperator remaining = Some op -> slice input j i = Ok l ->
  process_loop (S fuel) input criteriaType i j EmptyString EmptyString c
  = process_loop fuel input criteriaType (i + 1) j l op c.
Proof.
  intros Hi Hrem Hop Hl. cbn [process_loop].
  destruct (Z.ltb_spec i (len input)); [|lia]. cbn [negb].
  change (negb (String.eqb EmptyString EmptyString)) with false. cbn [andb].
  now rewrite Hrem, Hop, Hl.
Qed.

(** The iteration of [process] that reads the right operand. *)
Lemma process_loop_criterion `{GoEnv} (fuel : nat) (input : string)
    (criteriaType : CriterionType) (i j : Z) (remaining l : string)
    (op : Operator) (rightOp : list string) (offset : Z) (c : list Criterion) :
  i < len input -> l <> EmptyString -> op <> EmptyString ->
  sliceFrom input (i + len op + 1) = Ok remaining ->
  findRightOp remaining l op criteriaType = Ok (rightOp, offset) ->
  Validate (newCriterion l op rightOp criteriaType) = Ok tt ->
  process_loop (S fuel) input criteriaType i j l op c
  = process_loop fuel input criteriaType
      (i + (offset + len op + 1) + 1) (i + (offset + len op + 1) + 1)
      EmptyString EmptyString (c ++ [newCriterion l op rightOp criteriaType]).
Proof.
  intros Hi Hl Hop Hrem Hfind Hvalid. cbn [process_loop].
  destruct (Z.ltb_spec i (len input)); [|lia]. cbn [negb].
  rewrite (eqb_nonempty l Hl), (eqb_nonempty op Hop). cbn [negb andb].
  rewrite Hrem. cbn [mbind outcome_bind]. rewrite Hfind. cbn [mbind outcome_bind].
  rewrite Hvalid. cbn [mbind outcome_bind].
  change (len (encodeRune Separator)) with 1. reflexivity.
Qed.

Lemma len_segmentText (c : Criterion) :
  len (segmentText c)
  = len (LeftOp c) + len (Operator_ c) + 2
    + len (operandText (Operator_ c) (RightOp c)).
Proof.
  unfold segmentText. rewrite !len_append, len_operatorPattern. lia.
Qed.

(** One criterion of the text, from the start of its left operand to the
    byte after the separator that ends it. *)
Lemma process_loop_segment `{GoEnv} (fuel : nat) (pre tail : string)
    (c : Criterion) (acc : list Criterion) :
  printable c = true -> Validate c = Ok tt -> endsValue tail = true ->
  process_loop (String.length (LeftOp c) + S (S fuel))
    (pre +:+ segmentText c +:+ tail) (Type_ c) (len pre) (len pre)
    EmptyString EmptyString acc
  = process_loop fuel (pre +:+ segmentText c +:+ tail) (Type_ c)
      (len pre + len (segmentText c) + 1) (len pre + len (segmentText c) + 1)
      EmptyString EmptyString (acc ++ [c]).
Proof.
  intros Hc Hvalid Htail. unfold printable in Hc.
  apply andb_true_iff in Hc as [Hc Hvs]. apply andb_true_iff in Hc as [Hkey Hop].
  apply existsb_operators in Hop. unfold plainKey in Hkey.
  apply andb_true_iff in Hkey as [Hne Hkey].
  apply negb_true_iff in Hne. apply String.eqb_neq in Hne.
  pose proof (operators_nonempty _ Hop) as Hop1.
  pose proof (len_nonneg pre) as Hpre. pose proof (len_nonneg (LeftOp c)) as Hk.
  pose proof (len_nonneg tail) as Ht.
  pose proof (len_nonneg (operandText (Operator_ c) (RightOp c))) as Hv.
  rewrite len_segmentText.
  set (key := LeftOp c) in *. set (op := Operator_ c) in *.
  set (operand := operandText op (RightOp c)) in *.
  assert (Hinput : pre +:+ segmentText c +:+ tail
                   = pre +:+ key +:+ operatorPattern op +:+ operand +:+ tail).
  { unfold segmentText. fold key op operand. now rewrite !append_assoc. }
  rewrite Hinput.
  set (input := pre +:+ key +:+ operatorPattern op +:+ operand +:+ tail).
  assert (Hlen : len input = len pre + len key + len op + 2 + len operand + len tail).
  { unfold input. rewrite !len_append, len_operatorPattern. lia. }
  unfold input at 1. rewrite process_loop_scan_key by exact Hkey. fold input.
  rewrite (process_loop_match (S fuel) input (Type_ c) (len pre + len key) (len pre)
             (operatorPattern op +:+ operand +:+ tail) key op acc).
  - rewrite (process_loop_criterion fuel input (Type_ c) (len pre + len key + 1)
               (len pre) (operand +:+ tail) key op (RightOp c) (len operand) acc).
    + unfold key, op. rewrite newCriterion_eta. f_equal; lia.
    + lia.
    + exact Hne.
    + intros Heq. rewrite Heq in Hop1. change (len EmptyString) with 0 in Hop1. lia.
    + replace (len pre + len key + 1 + len op + 1)
        with (len (pre +:+ key +:+ operatorPattern op))
        by (rewrite !len_append, len_operatorPattern; lia).
      unfold input.
      replace (pre +:+ key +:+ operatorPattern op +:+ operand +:+ tail)
        with ((pre +:+ key +:+ operatorPattern op) +:+ operand +:+ tail)
        by (now rewrite !append_assoc).
      apply sliceFrom_append.
    + apply findRightOp_operandText; assumption.
    + unfold key, op. rewrite newCriterion_eta. exact Hvalid.
  - lia.
  - replace (len pre + len key) with (len (pre +:+ key))
      by (rewrite len_append; lia).
    unfold input.
    replace (pre +:+ key +:+ operatorPattern op +:+ operand +:+ tail)
      with ((pre +:+ key) +:+ operatorPattern op +:+ operand +:+ tail)
      by (now rewrite !append_assoc).
    apply sliceFrom_append.
  - now apply matchOperator_pattern_append.
  - apply slice_middle.
Qed.

Lemma queryText_cons2 (c c2 : Criterion) (cs : list Criterion) :
  queryText (c :: c2 :: cs) = segmentText c +:+ "|" +:+ queryText (c2 :: cs).
Proof. reflexivity. Qed.

Lemma queryText_first (c : Criterion) (cs : list Criterion) :
  printable c = true ->
  exists b r, queryText (c :: cs) = String b r /\ byteZ b <> Separator.
Proof.
  unfold printable, plainKey. intros Hc.
  apply andb_true_iff in Hc as [Hc _]. apply andb_true_iff in Hc as [Hkey _].
  apply andb_true_iff in Hkey as [Hne Hkey].
  assert (exists b r, segmentText c = String b r /\ byteZ b <> Separator)
    as (b & r & Hseg & Hb).
  { unfold segmentText. destruct (LeftOp c) as [|b k]; [discriminate|].
    exists b. eexists. split; [apply append_cons|].
    cbn [bytes list_ascii_of_string forallb] in Hkey.
    apply andb_true_iff in Hkey as [Hb _]. unfold isKeyByte in Hb.
    apply andb_true_iff in Hb as [_ Hb]. apply negb_true_iff in Hb.
    now apply Z.eqb_neq. }
  destruct cs as [|c2 cs].
  - exists b, r. split; [exact Hseg|exact Hb].
  - rewrite queryText_cons2, Hseg. exists b. eexists.
    split; [apply append_cons|exact Hb].
Qed.

Lemma process_loop_queryText `{GoEnv} (criteriaType : CriterionType)
    (cs : list Criterion) :
  cs <> [] -> forallb printable cs = true ->
  Forall (fun c => Type_ c = criteriaType /\ Validate c = Ok tt) cs ->
  forall (pre : string) (acc : list Criterion) (fuel : nat),
    len (queryText cs) < Z.of_nat fuel ->
    process_loop fuel (pre +:+ queryText cs) criteriaType (len pre) (len pre)
      EmptyString EmptyString acc
    = Some (Ok (acc ++ cs)).
Proof.
  intros Hne Hprint Hok. induction cs as [|c cs IH]; [congruence|]. clear Hne.
  cbn [forallb] in Hprint. apply andb_true_iff in Hprint as [Hc Hprint].
  inversion Hok as [|c' cs' [Hty Hvalid] Hok']; subst c' cs'.
  intros pre acc fuel Hfuel.
  pose proof (len_nonneg pre) as Hpre.
  pose proof (len_segmentText c) as Hseg.
  pose proof (len_nonneg (LeftOp c)) as Hk.
  pose proof (len_nonneg (operandText (Operator_ c) (RightOp c))) as Hv.
  assert (1 <= len (Operator_ c)) as Hop.
  { apply operators_nonempty, existsb_operators.
    unfold printable in Hc. apply andb_true_iff in Hc as [Hc _].
    now apply andb_true_iff in Hc as [_ Hc]. }
  destruct cs as [|c2 cs].
  - change (queryText [c]) with (segmentText c) in *.
    replace (pre +:+ segmentText c) with (pre +:+ segmentText c +:+ EmptyString)
      by (now rewrite append_nil_r).
    replace fuel
      with (String.length (LeftOp c) + S (S (fuel - String.length (LeftOp c) - 2)))%nat
      by (unfold len in *; lia).
    rewrite <- Hty.
    rewrite process_loop_segment by (assumption || reflexivity).
    destruct (fuel - String.length (LeftOp c) - 2)%nat as [|fuel'] eqn:Hfuel';
      [unfold len in *; lia|].
    cbn [process_loop]. rewrite !len_append. change (len EmptyString) with 0.
    destruct (Z.ltb_spec (len pre + len (segmentText c) + 1)
                         (len pre + (len (segmentText c) + 0))); [lia|].
    reflexivity.
  - rewrite queryText_cons2 in *.
    pose proof Hprint as Hc2. cbn [forallb] in Hc2.
    apply andb_true_iff in Hc2 as [Hc2 _].
    destruct (queryText_first c2 cs Hc2) as (b & r & Hq2 & Hb).
    set (q2 := queryText (c2 :: cs)) in *.
    assert (Htail : endsValue ("|" +:+ q2) = true).
    { rewrite Hq2. cbn [endsValue String.append].
      change (byteZ "|"%char =? Separator) with true. cbn [andb].
      apply negb_true_iff. now apply Z.eqb_neq. }
    rewrite !len_append in Hfuel. change (len "|") with 1 in Hfuel.
    pose proof (len_nonneg q2) as Hq.
    replace fuel
      with (String.length (LeftOp c) + S (S (fuel - String.length (LeftOp c) - 2)))%nat
      by (unfold len in *; lia).
    replace (pre +:+ segmentText c +:+ "|" +:+ q2)
      with (pre +:+ segmentText c +:+ ("|" +:+ q2)) by reflexivity.
    rewrite <- Hty.
    rewrite process_loop_segment by assumption.
    replace (pre +:+ segmentText c +:+ "|" +:+ q2)
      with ((pre +:+ segmentText c +:+ "|") +:+ q2)
      by (now rewrite !append_assoc).
    replace (len pre + len (segmentText c) + 1)
      with (len (pre +:+ segmentText c +:+ "|"))
      by (rewrite !len_append; change (len "|") with 1; lia).
    rewrite Hty. rewrite IH; [|discriminate|exact Hprint|exact Hok'|].
    + now rewrite <- app_assoc.
    + unfold len in *. lia.
Qed.

(** Parsing the text of a list of criteria gives the list back. *)
Theorem process_queryText `{GoEnv} (criteriaType : CriterionType)
    (cs : list Criterion) :
  cs <> [] -> forallb printable cs = true ->
  Forall (fun c => Type_ c = criteriaType /\ Validate c = Ok tt) cs ->
  process (queryText cs) criteriaType = Some (Ok cs).
Proof.
  intros Hne Hprint Hok. unfold process.
  destruct cs as [|c cs]; [congruence|].
  pose proof Hprint as Hc. cbn [forallb] in Hc. apply andb_true_iff in Hc as [Hc _].
  destruct (queryText_first c cs Hc) as (b & r & Hq & _).
  rewrite Hq at 1. cbn [String.eqb].
  pose proof (process_loop_queryText criteriaType (c :: cs) Hne Hprint Hok
                EmptyString [] (S (String.length (queryText (c :: cs))))) as Hloop.
  change (EmptyString +:+ queryText (c :: cs)) with (queryText (c :: cs)) in Hloop.
  change (len EmptyString) with 0 in Hloop.
  rewrite Hloop by (unfold len; lia).
  reflexivity.
Qed.

(** ** Operator tokens *)

Lemma prefix_split (p s : string) :
  String.prefix p s = true -> exists rest, s = p +:+ rest.
Proof.
  revert s. induction p as [|a p IH]; intros s Hp.
  - exists s. reflexivity.
  - destruct s as [|b s]; [discriminate|].
    change (String.prefix (String a p) (String b s))
      with (if ascii_dec a b then String.prefix p s else false) in Hp.
    destruct (ascii_dec a b) as [->|]; [|discriminate].
    destruct (IH s Hp) as [rest ->]. exists rest. reflexivity.
Qed.

Lemma matchOperator_unambiguous_prefix (remaining : string) (op : Operator) :
  matchOperator remaining = Some op ->
  exists rest, remaining = operatorPattern op +:+ rest.
Proof.
  unfold matchOperator. intros Hfind. apply find_some in Hfind as [_ Hp].
  now apply prefix_split.
Qed.

(** The operator [process] finds at a position is the one whose pattern
    starts there, whatever its place in [operators]: no text starts with the
    patterns of two operators. *)
Theorem matchOperator_unambiguous (remaining : string) (op : Operator) :
  matchOperator remaining = Some op
  <-> In op operators /\ HasPrefix remaining (operatorPattern op) = true.
Proof.
  split.
  - unfold matchOperator. intros Hfind. apply find_some in Hfind. exact Hfind.
  - intros [Hop Hprefix]. unfold HasPrefix in Hprefix.
    destruct (prefix_split _ _ Hprefix) as [rest ->].
    now apply matchOperator_pattern_append.
Qed.

Lemma anyOperator_drop (bs : list byte) (k : nat) :
  anyOperator (ofBytes bs) = false -> (k < length bs)%nat ->
  matchOperator (ofBytes (drop k bs)) = None.
Proof.
  revert k. induction bs as [|b bs IH]; intros k Hany Hk; [simpl in Hk; lia|].
  cbn [ofBytes string_of_list_ascii anyOperator] in Hany.
  destruct (matchOperator (String b (string_of_list_ascii bs))) eqn:Hm;
    [discriminate|].
  destruct k as [|k]; [exact Hm|].
  cbn [drop]. apply IH; [exact Hany|simpl in Hk; lia].
Qed.

(** A text in which no operator occurs between two spaces is no query. *)
Theorem process_without_operator `{GoEnv} (input : string)
    (criteriaType : CriterionType) :
  input <> EmptyString -> anyOperator input = false ->
  process input criteriaType
  = Some (Err (UnsupportedQueryError (MsgNotValid input criteriaType))).
Proof.
  intros Hne Hany. unfold process. rewrite (eqb_nonempty input Hne).
  replace (S (String.length input)) with (String.length input + 1)%nat by lia.
  rewrite process_loop_scan; [| lia | unfold len; lia |].
  - cbn [process_loop]. fold (len input). rewrite Z.add_0_l.
    destruct (Z.ltb_spec (len input) (len input)); [lia|]. reflexivity.
  - intros k remaining Hk Hslice.
    pose proof (sliceFrom_bytes _ _ _ Hslice) as Hbytes.
    rewrite <- (ofBytes_bytes remaining), Hbytes.
    apply anyOperator_drop.
    + now rewrite ofBytes_bytes.
    + rewrite length_bytes. lia.
Qed.

Lemma process_without_operator_witness :
  @process exampleEnv "name=x" FieldQuery
  = Some (Err (UnsupportedQueryError (MsgNotValid "name=x" FieldQuery))).
Proof.
  apply (@process_without_operator exampleEnv "name=x" FieldQuery).
  - discriminate.
  - reflexivity.
Defined.

Lemma process_queryText_witness :
  @process exampleEnv "a = 1|b in [x||y]" FieldQuery
  = Some (Ok [ByField EqualsOperator "a" ["1"]; ByField InOperator "b" ["x"; "y"]]).
Proof.
  apply (@process_queryText exampleEnv FieldQuery
           [ByField EqualsOperator "a" ["1"]; ByField InOperator "b" ["x"; "y"]]).
  - discriminate.
  - reflexivity.
  - repeat constructor.
Defined.

(** ** What the parser returns *)

Lemma findRightOp_nonempty (remaining leftOp : string) (operator : Operator)
    (criteriaType : CriterionType) (rightOp : list string) (offset : Z) :
  findRightOp remaining leftOp operator criteriaType = Ok (rightOp, offset) ->
  rightOp <> [].
Proof.
  unfold findRightOp.
  destruct (splitRightOp remaining) as [[rightOp0 offset0]| |];
    cbn [mbind outcome_bind]; try discriminate.
  match goal with
  | |- context [mbind _ ?m] => destruct m as [rightOp1| |]
  end; cbn [mbind outcome_bind]; try discriminate.
  intros Heq. inversion Heq; subst.
  destruct rightOp1; [discriminate|]. cbn [length Nat.eqb]. discriminate.
Qed.

Lemma matchOperator_In (remaining : string) (op : Operator) :
  matchOperator remaining = Some op -> In op operators.
Proof.
  unfold matchOperator. intros Hfind. now apply find_some in Hfind.
Qed.

Lemma process_loop_parsed `{GoEnv} (fuel : nat) (input : string)
    (criteriaType : CriterionType) (i j : Z) (leftOp : string)
    (operator : Operator) (c cs : list Criterion) :
  operator = EmptyString \/ In operator operators ->
  Forall (parsed criteriaType) c ->
  process_loop fuel input criteriaType i j leftOp operator c = Some (Ok cs) ->
  Forall (parsed criteriaType) cs.
Proof.
  revert i j leftOp operator c.
  induction fuel as [|fuel IH]; intros i j leftOp operator c Hop Hc; [discriminate|].
  cbn [process_loop].
  destruct (negb (i <? len input)); [intros Heq; inversion Heq; subst; exact Hc|].
  destruct (String.eqb_spec leftOp EmptyString) as [Hl|Hl];
    destruct (String.eqb_spec operator EmptyString) as [Ho|Ho]; cbn [negb andb].
  4:{ destruct (sliceFrom input (i + len operator + 1)) as [remaining| |];
        cbn [mbind outcome_bind]; try discriminate.
      destruct (findRightOp remaining leftOp operator criteriaType)
        as [[rightOp offset]| |] eqn:Hfind; cbn [mbind outcome_bind];
        try discriminate.
      destruct (Validate (newCriterion leftOp operator rightOp criteriaType))
        as [[]| |] eqn:Hvalid; cbn [mbind outcome_bind]; try discriminate.
      apply IH; [now left|]. apply Forall_app. split; [exact Hc|].
      constructor; [|constructor]. unfold parsed. cbn.
      split; [reflexivity|]. split; [exact Hl|].
      split; [destruct Hop; [contradiction|assumption]|].
      split; [eapply findRightOp_nonempty; eauto|exact Hvalid]. }
  all: destruct (sliceFrom input i) as [remaining| |]; try discriminate;
    destruct (matchOperator remaining) as [op|] eqn:Hm;
    [destruct (slice input j i); try discriminate;
     apply IH; [right; eapply matchOperator_In; eauto|exact Hc]
    |apply IH; assumption].
Qed.

Lemma process_Forall_parsed `{GoEnv} (input : string)
    (criteriaType : CriterionType) (cs : list Criterion) :
  process input criteriaType = Some (Ok cs) -> Forall (parsed criteriaType) cs.
Proof.
  unfold process. destruct (String.eqb_spec input EmptyString) as [->|Hne].
  - intros Heq. inversion Heq; subst. constructor.
  - destruct (process_loop _ input criteriaType 0 0 EmptyString EmptyString [])
      as [[c| |]|] eqn:Hloop; try discriminate.
    destruct (length c =? 0)%nat; [discriminate|].
    intros Heq. inversion Heq; subst.
    eapply process_loop_parsed; [| |exact Hloop]; [now left|constructor].
Qed.

(** Whatever [process] returns has been through the parser's checks: every
    criterion is of the type asked for, has a non-empty left operand, one of
    the nine operators and at least one right operand, and passes
    [Validate]; and the list is empty only for the empty input. *)
Theorem process_parsed `{GoEnv} (input : string) (criteriaType : CriterionType)
    (cs : list Criterion) :
  process input criteriaType = Some (Ok cs) ->
  Forall (parsed criteriaType) cs /\ (cs = [] <-> input = EmptyString).
Proof.
  intros Hp. split; [now apply (process_Forall_parsed input)|].
  revert Hp. unfold process.
  destruct (String.eqb_spec input EmptyString) as [->|Hne].
  - intros Heq. inversion Heq; subst. split; auto.
  - destruct (process_loop _ input criteriaType 0 0 EmptyString EmptyString [])
      as [[c| |]|]; try discriminate.
    destruct (Nat.eqb_spec (length c) 0) as [Hlen|Hlen]; [discriminate|].
    intros Heq. inversion Heq; subst.
    split; [intros ->; simpl in Hlen; lia|contradiction].
Qed.

Lemma process_parsed_witness :
  Forall (@parsed exampleEnv FieldQuery) [ByField EqualsOperator "a" ["1"]]
  /\ ([ByField EqualsOperator "a" ["1"]] = [] <-> "a = 1" = EmptyString).
Proof.
  apply (@process_parsed exampleEnv "a = 1" FieldQuery). vm_compute. reflexivity.
Defined.

(** ** When the merge succeeds *)

Lemma checkStep_passesMerge `{GoEnv} (all : list Criterion) (c : Criterion) :
  checkStep (fst (countLoop all)) (snd (countLoop all)) c = Ok tt
  <-> passesMerge Validate all c.
Proof.
  rewrite checkStep_occurrences. unfold passesMerge.
  destruct (String.eqb_spec (Type_ c) LabelQuery) as [Hl|Hl];
    destruct (String.eqb_spec (Type_ c) FieldQuery) as [Hf|Hf];
    try (rewrite Hl in Hf; discriminate);
    destruct (Nat.ltb_spec 1 (occurrences LabelQuery all (LeftOp c)));
    destruct (Nat.ltb_spec 1 (occurrences FieldQuery all (LeftOp c)));
    cbn [andb]; split;
    try discriminate;
    try (intros (_ & Hfield & Hlabel);
         first [specialize (Hfield Hf)|specialize (Hlabel Hl)]; lia);
    try (intros Hv; repeat split; auto; intros; first [lia|contradiction]);
    try (intros (Hv & _); exact Hv).
Qed.

(** [mergeCriteria] returns a slice exactly when every incoming criterion is
    valid and the key of every incoming field (label) criterion occurs once
    among the field (label) criteria of both slices together. *)
Theorem mergeCriteria_succeeds `{GoEnv} (h : store) (c1 c2 : Slice) :
  slice_wf h c1 -> slice_wf h c2 -> outOfReach c1 c2 ->
  isOk (fst (mergeCriteria h c1 c2)) = true
  <-> Forall (passesMerge Validate (view h c1 ++ view h c2)) (view h c2).
Proof.
  intros Hwf1 Hwf2 Hreach.
  destruct (mergeCriteria h c1 c2) as [r h'] eqn:Hmerge. cbn [fst].
  destruct (mergeCriteria_spec _ _ _ _ _ Hwf1 Hwf2 Hreach Hmerge)
    as (_ & _ & _ & Hres).
  assert (Hcheck : checkIncoming (view h c1) (view h c2) = Ok tt
                   <-> Forall (passesMerge Validate (view h c1 ++ view h c2)) (view h c2)).
  { unfold checkIncoming. rewrite checkLoop_Ok.
    split; intros Hall; eapply Forall_impl; eauto;
      intros c Hc; now apply checkStep_passesMerge. }
  rewrite <- Hcheck.
  destruct (checkIncoming (view h c1) (view h c2)) as [[]|e|p].
  - destruct Hres as (s & -> & _). split; reflexivity.
  - subst r. split; discriminate.
  - subst r. split; discriminate.
Qed.

Lemma mergeCriteria_succeeds_witness :
  isOk (fst (@mergeCriteria exampleEnv exampleStore (sliceAt 1) (sliceAt 3))) = true.
Proof.
  refine (proj2 (@mergeCriteria_succeeds exampleEnv exampleStore
                   (sliceAt 1) (sliceAt 3) _ _ _) _).
  - apply exampleStore_wf; auto.
  - apply exampleStore_wf; auto.
  - left; discriminate.
  - replace (view exampleStore (sliceAt 1))
      with [ByField EqualsOperator "x" ["1"]] by (vm_compute; reflexivity).
    replace (view exampleStore (sliceAt 3))
      with [ByLabel EqualsOperator "x" ["2"]] by (vm_compute; reflexivity).
    constructor; [|constructor].
    split; [reflexivity|]. split; [discriminate|].
    intros _. vm_compute. lia.
Defined.

Lemma mergeCriteria_all_or_nothing_witness :
  view (snd (@mergeCriteria exampleEnv exampleStore (sliceAt 1) (sliceAt 2)))
       (sliceAt 1)
  = view exampleStore (sliceAt 1).
Proof.
  refine (proj1 (@mergeCriteria_all_or_nothing exampleEnv exampleStore
                   (sliceAt 1) (sliceAt 2) _ _ _)).
  - apply exampleStore_wf; auto.
  - apply exampleStore_wf; auto.
  - left; discriminate.
Defined.

(** A successful [AddCriteria] returns a context that reads the criteria of
    the context it was called on followed by the new ones, and that context
    reads after the call what it read before.  A call without criteria
    always succeeds. *)
Theorem AddCriteria_extends `{GoEnv} (h : store) (ctx : Context)
    (newCriteria : list Criterion) :
  slice_wf h (CriteriaForContext ctx) ->
  (forall ctx' h', AddCriteria h ctx newCriteria = (Ok ctx', h') ->
     view h' (CriteriaForContext ctx')
     = view h (CriteriaForContext ctx) ++ newCriteria
     /\ view h' (CriteriaForContext ctx) = view h (CriteriaForContext ctx))
  /\ isOk (fst (AddCriteria h ctx [])) = true.
Proof.
  intros Hwf. split.
  - intros ctx' h' Hadd.
    destruct (AddCriteria_spec _ _ _ _ _ Hwf Hadd) as (Hold & _ & Hres).
    split; [|exact Hold].
    destruct (checkIncoming (view h (CriteriaForContext ctx)) newCriteria)
      as [[]|e|p]; try discriminate.
    destruct Hres as (ctx1 & Heq & Hview & _). inversion Heq; subst. exact Hview.
  - destruct (AddCriteria h ctx []) as [r h'] eqn:Hadd. cbn [fst].
    destruct (AddCriteria_spec _ _ _ _ _ Hwf Hadd) as (_ & _ & Hres).
    change (checkIncoming (view h (CriteriaForContext ctx)) [])
      with (@Ok unit tt) in Hres.
    destruct Hres as (ctx1 & -> & _). reflexivity.
Qed.

Lemma AddCriteria_extends_witness :
  (view (snd (@AddCriteria exampleEnv (fst forkOrigin) (snd forkOrigin)
                [ByLabel EqualsOperator "env" ["prod"]]))
        (CriteriaForContext
           (match fst (@AddCriteria exampleEnv (fst forkOrigin) (snd forkOrigin)
                         [ByLabel EqualsOperator "env" ["prod"]]) with
            | Ok ctx' => ctx'
            | _ => background
            end))
   = view (fst forkOrigin) (CriteriaForContext (snd forkOrigin))
     ++ [ByLabel EqualsOperator "env" ["prod"]]
   /\ view (snd (@AddCriteria exampleEnv (fst forkOrigin) (snd forkOrigin)
                   [ByLabel EqualsOperator "env" ["prod"]]))
           (CriteriaForContext (snd forkOrigin))
      = view (fst forkOrigin) (CriteriaForContext (snd forkOrigin)))
  /\ isOk (fst (@AddCriteria exampleEnv (fst forkOrigin) (snd forkOrigin) []))
     = true.
Proof.
  assert (Hwf : slice_wf (fst forkOrigin) (CriteriaForContext (snd forkOrigin))).
  { apply (@reachable_invariant exampleEnv). unfold forkOrigin.
    do 2 apply (@chainStep_reachable exampleEnv). apply reach_background. }
  destruct (@AddCriteria_extends exampleEnv (fst forkOrigin) (snd forkOrigin)
              [ByLabel EqualsOperator "env" ["prod"]] Hwf) as [Hadd Hnil].
  split; [|exact Hnil].
  apply Hadd. vm_compute. reflexivity.
Defined.

(** ** BuildCriteriaFromRequest *)

Lemma sliceOf_spec (h h' : store) (cs : list Criterion) (s : Slice) :
  sliceOf h cs = (s, h') ->
  view h' s = cs /\ slice_wf h' s
  /\ forall t, slice_wf h t ->
       view h' t = view h t /\ slice_wf h' t /\ outOfReach t s.
Proof.
  destruct cs as [|c cs]; cbn [sliceOf].
  - intros Heq. inversion Heq; subst. split; [reflexivity|].
    split; [apply emptySlice_wf|]. intros t Hwf.
    split; [reflexivity|]. split; [exact Hwf|]. right. simpl. lia.
  - intros Halloc.
    destruct (allocSlice_spec _ _ _ _ _ Halloc (le_n _)) as (Hv & Hwf & Hframe).
    split; [exact Hv|]. split; [exact Hwf|]. intros t Ht.
    destruct (Hframe t Ht) as [Hvt Hwft]. split; [exact Hvt|]. split; [exact Hwft|].
    unfold allocSlice in Halloc. inversion Halloc; subst.
    now apply fresh_outOfReach.
Qed.

Lemma keysOf_other (ty ty' : CriterionType) (cs : list Criterion) :
  ty <> ty' -> Forall (fun c => Type_ c = ty) cs -> keysOf ty' cs = [].
Proof.
  intros Hne. induction 1 as [|c cs Hc _ IH]; [reflexivity|].
  cbn [keysOf]. rewrite Hc, (eqb_false_of_ne _ _ Hne). exact IH.
Qed.

Lemma keysOf_same (ty : CriterionType) (cs : list Criterion) :
  Forall (fun c => Type_ c = ty) cs -> keysOf ty cs = map LeftOp cs.
Proof.
  induction 1 as [|c cs Hc _ IH]; [reflexivity|].
  cbn [keysOf map]. rewrite Hc, String.eqb_refl. now rewrite IH.
Qed.

Lemma count_occ_NoDup (l : list string) :
  NoDup l <-> forall k, (count_occ String.string_dec l k <= 1)%nat.
Proof.
  rewrite NoDup_ListNoDup. apply NoDup_count_occ.
Qed.

(** The second loop on criteria of one type that [process] has validated,
    merged into criteria that hold none of that type: it fails exactly on a
    repeated left operand, and then with an error. *)
Lemma checkIncoming_typed `{GoEnv} (ty : CriterionType)
    (existing incoming : list Criterion) :
  ty = FieldQuery \/ ty = LabelQuery -> keysOf ty existing = [] ->
  Forall (fun c => Type_ c = ty /\ Validate c = Ok tt) incoming ->
  (NoDup (map LeftOp incoming) -> checkIncoming existing incoming = Ok tt)
  /\ (~ NoDup (map LeftOp incoming) ->
      exists e, checkIncoming existing incoming = Err e).
Proof.
  intros Hty Hnone Hall.
  assert (Htypes : Forall (fun c => Type_ c = ty) incoming)
    by (eapply Forall_impl; [exact Hall|]; intros c [Hc _]; exact Hc).
  assert (Hocc : forall k, occurrences ty (existing ++ incoming) k
                           = count_occ String.string_dec (map LeftOp incoming) k).
  { intros k. unfold occurrences.
    now rewrite keysOf_app, Hnone, (keysOf_same _ _ Htypes). }
  assert (Hstep : forall c, In c incoming ->
            checkStep (fst (countLoop (existing ++ incoming)))
                      (snd (countLoop (existing ++ incoming))) c
            = if (1 <? count_occ String.string_dec (map LeftOp incoming) (LeftOp c))%nat
              then Err (duplicateKeyError ty (LeftOp c)) else Ok tt).
  { intros c Hin. rewrite Forall_forall in Hall.
    destruct (Hall c (proj2 (list_elem_of_In _ _) Hin)) as [Hc Hvalid].
    rewrite checkStep_occurrences, Hvalid, Hc. unfold duplicateKeyError.
    destruct Hty as [-> | ->]; rewrite ?Hocc.
    - change (String.eqb FieldQuery LabelQuery) with false.
      change (String.eqb FieldQuery FieldQuery) with true.
      rewrite andb_false_r, andb_true_r. reflexivity.
    - change (String.eqb LabelQuery LabelQuery) with true.
      change (String.eqb LabelQuery FieldQuery) with false.
      rewrite andb_true_r, andb_false_r.
      destruct (1 <? count_occ _ _ _)%nat; reflexivity. }
  assert (Hloop : forall l, (forall c, In c l -> In c incoming) ->
            (Forall (fun c => (count_occ String.string_dec (map LeftOp incoming)
                                 (LeftOp c) <= 1)%nat) l ->
             checkLoop (fst (countLoop (existing ++ incoming)))
                       (snd (countLoop (existing ++ incoming))) l = Ok tt)
            /\ (~ Forall (fun c => (count_occ String.string_dec (map LeftOp incoming)
                                      (LeftOp c) <= 1)%nat) l ->
                exists e, checkLoop (fst (countLoop (existing ++ incoming)))
                            (snd (countLoop (existing ++ incoming))) l = Err e)).
  { induction l as [|c l IH]; intros Hsub.
    - split; [reflexivity|]. intros Hno. exfalso. apply Hno. constructor.
    - cbn [checkLoop]. rewrite (Hstep c (Hsub c (or_introl eq_refl))).
      destruct (IH (fun x Hx => Hsub x (or_intror Hx))) as [IHok IHerr].
      destruct (Nat.ltb_spec 1 (count_occ String.string_dec (map LeftOp incoming)
                                  (LeftOp c))) as [Hdup|Hone].
      + split; [|eauto]. intros Hall'. inversion Hall'; subst. lia.
      + split.
        * intros Hall'. inversion Hall'; subst. now apply IHok.
        * intros Hno. apply IHerr. intros Hl. apply Hno. now constructor. }
  unfold checkIncoming. destruct (Hloop incoming (fun c Hc => Hc)) as [Hok Herr].
  split.
  - intros Hnd. apply Hok. rewrite Forall_forall. intros c _.
    now apply count_occ_NoDup.
  - intros Hnd. apply Herr. intros Hall'. apply Hnd.
    apply count_occ_NoDup. intros k.
    destruct (in_dec String.string_dec k (map LeftOp incoming)) as [Hin|Hnin].
    + apply in_map_iff in Hin as (c & <- & Hc).
      rewrite Forall_forall in Hall'. apply Hall'. now apply list_elem_of_In.
    + rewrite (proj1 (count_occ_not_In String.string_dec _ _) Hnin). lia.
Qed.

(** One round of the loop of [BuildCriteriaFromRequest]: criteria of type
    [ty] that [process] returned, merged into criteria that hold none of
    that type. *)
Lemma buildLoop_round `{GoEnv} (h : store) (criteria : Slice)
    (ty : CriterionType) (segs : list Criterion) :
  ty = FieldQuery \/ ty = LabelQuery ->
  slice_wf h criteria -> keysOf ty (view h criteria) = [] ->
  Forall (fun c => Type_ c = ty /\ Validate c = Ok tt) segs ->
  let r := mergeCriteria (snd (sliceOf h segs)) criteria (fst (sliceOf h segs)) in
  (NoDup (map LeftOp segs) ->
   exists criteria', fst r = Ok criteria'
     /\ view (snd r) criteria' = view h criteria ++ segs
     /\ slice_wf (snd r) criteria')
  /\ (~ NoDup (map LeftOp segs) -> exists e, fst r = Err e).
Proof.
  intros Hty Hwf Hnone Hsegs.
  destruct (sliceOf h segs) as [s h0] eqn:Hslice. cbn [fst snd].
  destruct (sliceOf_spec _ _ _ _ Hslice) as (Hvs & Hwfs & Hframe).
  destruct (Hframe _ Hwf) as (Hvc & Hwfc & Hreach).
  destruct (mergeCriteria h0 criteria s) as [r h1] eqn:Hmerge. cbn [fst snd].
  destruct (mergeCriteria_spec _ _ _ _ _ Hwfc Hwfs Hreach Hmerge)
    as (_ & _ & _ & Hres).
  rewrite Hvs, Hvc in Hres.
  destruct (checkIncoming_typed ty (view h criteria) segs Hty Hnone Hsegs)
    as [Hok Herr].
  split.
  - intros Hnd. rewrite (Hok Hnd) in Hres.
    destruct Hres as (c' & -> & Hview & Hwf'). eauto.
  - intros Hnd. destruct (Herr Hnd) as [e He]. rewrite He in Hres. eauto.
Qed.

(** When both request parameters parse, [BuildCriteriaFromRequest] fails
    exactly when a left operand is repeated among the field criteria or
    among the label criteria, and with an error; otherwise it returns the
    field criteria followed by the label criteria, as [sort.Sort] rearranges
    them. *)
Theorem BuildCriteriaFromRequest_spec `{GoEnv}
    (sortByLeftOp : list Criterion -> list Criterion)
    (query : CriterionType -> string) (fields labels : list Criterion) :
  process (query FieldQuery) FieldQuery = Some (Ok fields) ->
  process (query LabelQuery) LabelQuery = Some (Ok labels) ->
  match BuildCriteriaFromRequest sortByLeftOp query with
  | Some (Ok cs) =>
    cs = sortByLeftOp (fields ++ labels)
    /\ NoDup (map LeftOp fields) /\ NoDup (map LeftOp labels)
  | Some (Err _) =>
    ~ (NoDup (map LeftOp fields) /\ NoDup (map LeftOp labels))
  | Some (Panic _) | None => False
  end.
Proof.
  intros Hf Hl.
  assert (Hfields : Forall (fun c => Type_ c = FieldQuery /\ Validate c = Ok tt)
                            fields).
  { eapply Forall_impl; [exact (process_Forall_parsed _ _ _ Hf)|].
    intros c (Hc & _ & _ & _ & Hv). auto. }
  assert (Hlabels : Forall (fun c => Type_ c = LabelQuery /\ Validate c = Ok tt)
                            labels).
  { eapply Forall_impl; [exact (process_Forall_parsed _ _ _ Hl)|].
    intros c (Hc & _ & _ & _ & Hv). auto. }
  unfold BuildCriteriaFromRequest, supportedQueryTypes. cbn [buildLoop].
  rewrite Hf.
  destruct (buildLoop_round ∅ emptySlice FieldQuery fields (or_introl eq_refl)
              (emptySlice_wf ∅) eq_refl Hfields) as [Hok1 Herr1].
  destruct (sliceOf ∅ fields) as [s1 h0]. cbn [fst snd] in Hok1, Herr1.
  destruct (mergeCriteria h0 emptySlice s1) as [r1 h1]. cbn [fst snd] in Hok1, Herr1.
  destruct (decide (NoDup (map LeftOp fields))) as [Hnd1|Hnd1].
  2:{ destruct (Herr1 Hnd1) as [e ->]. intros [Hno _]. contradiction. }
  destruct (Hok1 Hnd1) as (c1 & -> & Hv1 & Hwf1).
  change (view ∅ emptySlice) with (@nil Criterion) in Hv1. cbn [app] in Hv1.
  rewrite Hl.
  assert (Hnone : keysOf LabelQuery (view h1 c1) = []).
  { rewrite Hv1. apply (keysOf_other FieldQuery); [discriminate|].
    eapply Forall_impl; [exact Hfields|]. intros c [Hc _]. exact Hc. }
  destruct (buildLoop_round h1 c1 LabelQuery labels (or_intror eq_refl)
              Hwf1 Hnone Hlabels) as [Hok2 Herr2].
  destruct (sliceOf h1 labels) as [s2 h2]. cbn [fst snd] in Hok2, Herr2.
  destruct (mergeCriteria h2 c1 s2) as [r2 h3]. cbn [fst snd] in Hok2, Herr2.
  destruct (decide (NoDup (map LeftOp labels))) as [Hnd2|Hnd2].
  2:{ destruct (Herr2 Hnd2) as [e ->]. intros [_ Hno]. contradiction. }
  destruct (Hok2 Hnd2) as (c2 & -> & Hv2 & _).
  rewrite Hv2, Hv1. split; [reflexivity|]. split; assumption.
Qed.

Lemma BuildCriteriaFromRequest_spec_witness :
  match @BuildCriteriaFromRequest exampleEnv insertionSort exampleQuery with
  | Some (Ok cs) =>
    cs = insertionSort ([ByField EqualsOperator "b" ["1"];
                         ByField EqualsOperator "a" ["2"]]
                        ++ [ByLabel EqualsOperator "x" ["y"]])
    /\ NoDup (map LeftOp [ByField EqualsOperator "b" ["1"];
                          ByField EqualsOperator "a" ["2"]])
    /\ NoDup (map LeftOp [ByLabel EqualsOperator "x" ["y"]])
  | Some (Err _) =>
    ~ (NoDup (map LeftOp [ByField EqualsOperator "b" ["1"];
                          ByField EqualsOperator "a" ["2"]])
       /\ NoDup (map LeftOp [ByLabel EqualsOperator "x" ["y"]]))
  | Some (Panic _) | None => False
  end.
Proof.
  apply (@BuildCriteriaFromRequest_spec exampleEnv insertionSort exampleQuery).
  - vm_compute. reflexivity.
  - vm_compute. reflexivity.
Defined.

(** ** The OIDC label filter *)

(** When the filter lets the request through, the context it hands on reads
    the criteria of the incoming context followed by one label criterion per
    configured claim, in the order visited, and no key is repeated among its
    field criteria or among its label criteria. *)
Theorem addLabelCriteria_next `{GoEnv} (h h' : store) (ctx ctx' : Context)
    (claims : gmap string string) (entries : list (string * string)) :
  slice_wf h (CriteriaForContext ctx) ->
  noDuplicateKeys (view h (CriteriaForContext ctx)) ->
  addLabelCriteria h ctx claims entries = (FilterNext ctx', h') ->
  view h' (CriteriaForContext ctx')
  = view h (CriteriaForContext ctx) ++ map (claimCriterion claims) entries
  /\ noDuplicateKeys (view h' (CriteriaForContext ctx')).
Proof.
  revert h ctx. induction entries as [|entry entries IH]; intros h ctx Hwf Hnd.
  - cbn [addLabelCriteria map]. intros Heq. inversion Heq; subst.
    rewrite app_nil_r. split; [reflexivity|exact Hnd].
  - cbn [addLabelCriteria map].
    destruct (AddCriteria h ctx [claimCriterion claims entry]) as [r h1] eqn:Hadd.
    destruct (AddCriteria_spec _ _ _ _ _ Hwf Hadd) as (_ & _ & Hres).
    destruct (checkIncoming (view h (CriteriaForContext ctx))
                [claimCriterion claims entry]) as [[]|e|p] eqn:Hcheck.
    + destruct Hres as (ctx1 & -> & Hview & Hwf1). intros Hrest.
      destruct (IH h1 ctx1 Hwf1) as [Hv Hnd'].
      { rewrite Hview. now apply checkIncoming_noDuplicateKeys. }
      { exact Hrest. }
      split; [|exact Hnd']. rewrite Hv, Hview, <- app_assoc. reflexivity.
    + subst r. discriminate.
    + subst r. discriminate.
Qed.

Lemma addLabelCriteria_next_witness :
  view (snd (@addLabelCriteria exampleEnv ∅ background
               (<["zid" := "tenant-1"]> ∅) [("zid", "tenant_id"); ("sub", "user")]))
       (CriteriaForContext
          (match fst (@addLabelCriteria exampleEnv ∅ background
                        (<["zid" := "tenant-1"]> ∅)
                        [("zid", "tenant_id"); ("sub", "user")]) with
           | FilterNext ctx' => ctx'
           | _ => background
           end))
  = view ∅ (CriteriaForContext background)
    ++ map (claimCriterion (<["zid" := "tenant-1"]> ∅))
           [("zid", "tenant_id"); ("sub", "user")].
Proof.
  refine (proj1 (@addLabelCriteria_next exampleEnv ∅ _ background _
                   (<["zid" := "tenant-1"]> ∅)
                   [("zid", "tenant_id"); ("sub", "user")] _ _ _)).
  - apply emptySlice_wf.
  - split; constructor.
  - vm_compute. reflexivity.
Defined.

(** ** Columns and JSON texts *)

Lemma fold_left_map_insert (f : string -> string) (tags : list string)
    (m : gmap string bool) :
  fold_left (fun acc tag => <[f tag := true]> acc) tags m
  = fold_left (fun acc tag => <[tag := true]> acc) (map f tags) m.
Proof.
  revert m. induction tags as [|t tags IH]; intros m; [reflexivity|].
  cbn [map fold_left]. apply IH.
Qed.

Lemma lookup_true_default (m : gmap string bool) (k : string) :
  m !! k = Some true <-> default false (m !! k) = true.
Proof. destruct (m !! k) as [[|]|]; simpl; split; congruence. Qed.

(** With the columns [columnsByTags] computes, the later
    [validateFieldQueryParams] accepts the criteria exactly when the left
    operand of every field criterion is the name some tag starts with, up to
    its first comma; label criteria are not looked at. *)
Theorem validateFieldQueryParams_columnsByTags (tags : list string)
    (criteria : list Criterion) :
  PostgresV2.validateFieldQueryParams (columnsByTags tags) criteria = Ok tt
  <-> Forall (fun c => Type_ c = FieldQuery -> LeftOp c ∈ map beforeComma tags)
             criteria.
Proof.
  rewrite PostgresV2_validate_spec. unfold columnsByTags.
  rewrite fold_left_map_insert.
  assert (Hcol : forall k,
            fold_left (fun acc tag => <[tag := true]> acc)
                      (map beforeComma tags) (∅ : gmap string bool) !! k = Some true
            <-> k ∈ map beforeComma tags).
  { intros k. rewrite lookup_true_default, availableColumns_fold, lookup_empty.
    cbn [default orb]. apply bool_decide_eq_true. }
  split; intros Hall; eapply Forall_impl; eauto; intros c Hc Hty;
    apply Hcol, Hc, Hty.
Qed.

(** What was stored with [getJSONText] reads back with [getJSONRawMessage]
    as it was, except for the texts [null] and [{}], which both read back as
    nil. *)
Theorem getJSONRawMessage_getJSONText (item : jsonBytes) :
  getJSONRawMessage (getJSONText item)
  = if String.eqb (jsonString item) "null" || String.eqb (jsonString item) "{}"
    then None else item.
Proof.
  unfold getJSONRawMessage, getJSONText.
  destruct (String.eqb (jsonString item) "null") eqn:Hnull.
  - apply String.eqb_eq in Hnull.
    destruct item as [s|]; [|discriminate]. cbn [jsonString] in Hnull. subst s.
    reflexivity.
  - rewrite andb_false_r. cbn iota. rewrite Hnull, orb_false_r. cbn [orb].
    destruct (String.eqb (jsonString item) "{}") eqn:Hobj.
    + apply String.eqb_eq in Hobj.
      destruct item as [s|]; [|discriminate]. cbn [jsonString] in Hobj. subst s.
      reflexivity.
    + now rewrite andb_false_r.
Qed.

(** ** Inputs on which the parser cannot panic *)

Lemma sliceFrom_len (s r : string) (pos : Z) :
  0 <= pos <= len s -> sliceFrom s pos = Ok r -> len r = len s - pos.
Proof.
  intros Hpos Hslice. apply sliceFrom_bytes in Hslice.
  rewrite (len_bytes r), Hslice, length_drop, length_bytes. unfold len in *. lia.
Qed.

Lemma matchOperator_len (remaining : string) (op : Operator) :
  matchOperator remaining = Some op -> len op + 2 <= len remaining.
Proof.
  intros Hm. apply matchOperator_unambiguous_prefix in Hm as [rest ->].
  rewrite len_append, len_operatorPattern. pose proof (len_nonneg rest). lia.
Qed.

Lemma lor_ge_l (a b : Z) : 0 <= b -> a <= Z.lor a b.
Proof.
  intros Hb. pose proof (Z.sub_lor_l_same_l b a) as Hsub.
  assert (0 <= Z.land b (Z.lnot a)) by (apply Z.land_nonneg; now left).
  lia.
Qed.

Lemma lor_ge_128 (a b : Z) :
  0 <= a -> 0 <= b -> 128 <= a \/ 128 <= b -> 128 <= Z.lor a b.
Proof.
  intros Ha Hb [H|H].
  - pose proof (lor_ge_l a b Hb). lia.
  - pose proof (lor_ge_l b a Ha). rewrite Z.lor_comm. lia.
Qed.

Lemma shiftl_land_ones (x n k : Z) :
  0 <= n -> 0 <= k ->
  Z.shiftl (Z.land x (Z.ones n)) k = (x mod 2 ^ n) * 2 ^ k.
Proof.
  intros Hn Hk. now rewrite Z.shiftl_mul_pow2, Z.land_ones by assumption.
Qed.

Ltac byte_mod x :=
  pose proof (Z.div_mod x 8 ltac:(lia));
  pose proof (Z.mod_pos_bound x 8 ltac:(lia));
  pose proof (Z.div_mod x 16 ltac:(lia));
  pose proof (Z.mod_pos_bound x 16 ltac:(lia));
  pose proof (Z.div_mod x 32 ltac:(lia));
  pose proof (Z.mod_pos_bound x 32 ltac:(lia));
  pose proof (Z.div_mod x 64 ltac:(lia));
  pose proof (Z.mod_pos_bound x 64 ltac:(lia)).

Ltac rune_bound :=
  repeat match goal with
  | |- 128 <= Z.lor _ _ => apply lor_ge_128
  | |- 0 <= Z.lor _ _ => apply Z.lor_nonneg; split
  | |- 0 <= _ => lia
  | |- _ \/ _ => first [left; rune_bound; fail | right; rune_bound; fail]
  | |- 128 <= _ => lia
  end.

(** A rune that [range] decodes from more than one byte, or from a byte that
    is no UTF-8, is not an ASCII rune. *)
Lemma decodeRune_ascii (b0 : byte) (rest : list byte) :
  fst (decodeRune b0 rest) = byteZ b0 \/ 128 <= fst (decodeRune b0 rest).
Proof.
  unfold decodeRune. pose proof (byteZ_bound b0) as H0.
  destruct (Z.ltb_spec (byteZ b0) 128); [now left|]. right.
  assert (Hbad : 128 <= RuneError) by (unfold RuneError; lia).
  unfold inRange.
  repeat match goal with
  | |- context [Z.leb ?a ?b] => destruct (Z.leb_spec a b); cbn [andb negb]
  | |- context [Z.eqb ?a ?b] => destruct (Z.eqb_spec a b); cbn [andb negb]
  | |- context [Nat.eqb ?a ?b] => destruct (Nat.eqb_spec a b); cbn [andb negb]
  | |- context [match ?l with [] => _ | _ :: _ => _ end] => destruct l
  end; cbn [fst]; try exact Hbad; try lia.
  all: change 31 with (Z.ones 5); change 15 with (Z.ones 4);
    change 7 with (Z.ones 3); change 63 with (Z.ones 6).
  all: rewrite ?shiftl_land_ones, ?Z.land_ones by lia.
  all: change (2 ^ 6) with 64; change (2 ^ 12) with 4096;
    change (2 ^ 18) with 262144; change (2 ^ 5) with 32;
    change (2 ^ 4) with 16; change (2 ^ 3) with 8.
  all: byte_mod (byteZ b0).
  all: repeat match goal with
       | b : byte |- _ =>
         lazymatch goal with
         | _ : byteZ b = 64 * (byteZ b / 64) + _ |- _ => fail
         | _ => byte_mod (byteZ b)
         end
       end.
  all: rune_bound.
Qed.

(** Bytes without the separator decode to runes without the separator. *)
Lemma runesOf_no_separator (bs : list byte) :
  Forall (fun b => byteZ b <> Separator) bs ->
  Forall (fun r => r <> Separator) (runesOf bs).
Proof.
  remember (length bs) as n eqn:Hn. revert bs Hn.
  induction n as [n IH] using lt_wf_ind. intros bs Hn Hbs.
  destruct bs as [|b0 t1]; [constructor|].
  inversion Hbs as [|x xs Hb0 Ht1]; subst x xs.
  cbn [runesOf].
  pose proof (decodeRune_ascii b0 t1) as Hr.
  destruct (decodeRune b0 t1) as [r w]. cbn [fst] in Hr.
  assert (Hrune : r <> Separator).
  { destruct Hr as [->|Hbig]; [exact Hb0|]. unfold Separator. lia. }
  assert (Hrest : forall t, (length t < n)%nat ->
            Forall (fun b => byteZ b <> Separator) t ->
            Forall (fun r => r <> Separator) (runesOf t)).
  { intros t Hlt Ht. exact (IH (length t) Hlt t eq_refl Ht). }
  assert (Htail : forall k, Forall (fun b => byteZ b <> Separator) (drop k t1))
    by (intros k; now apply Forall_drop).
  subst n. cbn [length] in Hrest.
  destruct w as [|[|[|[|[|w]]]]];
    try (constructor; [exact Hrune|apply Hrest; [lia|exact Ht1]]).
  - destruct t1 as [|b1 t2]; constructor; try exact Hrune;
      [constructor|apply Hrest; [simpl; lia|exact (Htail 1%nat)]].
  - destruct t1 as [|b1 [|b2 t3]]; constructor; try exact Hrune;
      try (apply Hrest; [simpl; lia|]);
      [exact Ht1|exact Ht1|exact (Htail 2%nat)].
  - destruct t1 as [|b1 [|b2 [|b3 t4]]]; constructor; try exact Hrune;
      try (apply Hrest; [simpl; lia|]);
      [exact Ht1|exact Ht1|exact Ht1|exact (Htail 3%nat)].
Qed.

Lemma findRightOp_loop_no_separator (remaining : string) (chs : list rune)
    (st : scan) :
  Forall (fun ch => ch <> Separator) chs ->
  findRightOp_loop remaining chs st
  = Ok (mkScan (sRightOp st) (sOffset st + Z.of_nat (length chs))
               (sBuf st +:+ encodeRunes chs)).
Proof.
  revert st. induction chs as [|ch chs IH]; intros st Hall.
  - cbn [findRightOp_loop length encodeRunes foldr].
    rewrite append_nil_r, Z.add_0_r. now destruct st.
  - inversion Hall as [|x xs Hch Hchs]; subst x xs.
    cbn [findRightOp_loop]. unfold findRightOp_step.
    destruct (Z.eqb_spec ch Separator); [contradiction|].
    rewrite (IH _ Hchs). cbn [sRightOp sOffset sBuf length encodeRunes foldr].
    f_equal. f_equal; [lia|]. now rewrite append_assoc.
Qed.

Lemma encodeRune_length (r : rune) : 1 <= len (encodeRune r).
Proof.
  unfold encodeRune.
  repeat match goal with
  | |- context [if ?c then _ else _] => destruct c
  end; vm_compute; discriminate.
Qed.

Lemma encodeRune_one_byte (r : rune) (c : byte) :
  encodeRune r = String c EmptyString -> r = byteZ c.
Proof.
  unfold encodeRune, inRange.
  destruct (Z.leb_spec 0 r); destruct (Z.leb_spec r 127); cbn [andb].
  1:{ intros Heq. cbn in Heq. inversion Heq; subst.
      now rewrite byteZ_byteOfZ by lia. }
  all: repeat match goal with
       | |- context [if ?c then _ else _] => destruct c
       end; cbn; discriminate.
Qed.

Lemma runesOf_nonempty (b : byte) (bs : list byte) : runesOf (b :: bs) <> [].
Proof.
  cbn [runesOf]. destruct (decodeRune b bs) as [r w].
  destruct w as [|[|[|[|[|w]]]]]; try discriminate;
    destruct bs as [|b1 [|b2 [|b3 t]]]; discriminate.
Qed.

Lemma encodeRunes_empty (chs : list rune) :
  encodeRunes chs = EmptyString -> chs = [].
Proof.
  destruct chs as [|ch chs]; [reflexivity|]. cbn [encodeRunes foldr].
  intros Heq. pose proof (encodeRune_length ch) as Hlen.
  apply (f_equal len) in Heq. rewrite len_append in Heq.
  change (len EmptyString) with 0 in Heq.
  pose proof (len_nonneg (foldr (fun ch acc => encodeRune ch +:+ acc) EmptyString chs)).
  lia.
Qed.

Lemma runesOf_head (b0 : byte) (t : list byte) :
  exists rs, runesOf (b0 :: t) = fst (decodeRune b0 t) :: rs.
Proof.
  cbn [runesOf]. destruct (decodeRune b0 t) as [r w]. cbn [fst].
  destruct w as [|[|[|[|[|w]]]]]; destruct t as [|b1 [|b2 [|b3 t]]]; eauto.
Qed.

Lemma runesOf_ascii_head (b0 : byte) (t : list byte) :
  byteZ b0 < 128 -> runesOf (b0 :: t) = byteZ b0 :: runesOf t.
Proof.
  intros Hb. cbn [runesOf]. unfold decodeRune.
  destruct (Z.ltb_spec (byteZ b0) 128); [reflexivity|lia].
Qed.

(** The buffer holds a lone opening bracket only after the text [[]. *)
Lemma encodeRunes_bracket (s : string) :
  encodeRunes (runes s) = String "[" EmptyString -> s = String "[" EmptyString.
Proof.
  destruct s as [|b0 s]; [discriminate|].
  destruct (runesOf_head b0 (bytes s)) as [rs Hrunes].
  pose proof (decodeRune_ascii b0 (bytes s)) as Hdec.
  assert (Hfirst : runes (String b0 s) = fst (decodeRune b0 (bytes s)) :: rs)
    by exact Hrunes.
  rewrite Hfirst. set (r := fst (decodeRune b0 (bytes s))) in *.
  cbn [encodeRunes foldr]. fold (encodeRunes rs). intros Heq.
  pose proof (encodeRune_length r) as Hlen.
  destruct (encodeRune r) as [|c e] eqn:Henc;
    [change (len EmptyString) with 0 in Hlen; lia|].
  rewrite append_cons in Heq. inversion Heq as [[Hc Hrest]]. subst c.
  destruct e as [|c' e]; [|discriminate].
  apply encodeRune_one_byte in Henc. change (byteZ "["%char) with 91 in Henc.
  assert (Hb0 : byteZ b0 = 91) by (destruct Hdec as [Hd|Hd]; lia).
  rewrite runesOf_ascii_head in Hrunes by lia.
  inversion Hrunes as [[Hr Hrs]].
  change (EmptyString +:+ encodeRunes rs) with (encodeRunes rs) in Hrest.
  apply encodeRunes_empty in Hrest. rewrite Hrest in Hrs.
  destruct (bytes s) as [|b1 t] eqn:Hbs; [|exfalso; eapply runesOf_nonempty; eauto].
  assert (s = EmptyString) as -> by (destruct s; [reflexivity|discriminate]).
  f_equal. rewrite <- (byteOfZ_byteZ b0), Hb0. reflexivity.
Qed.

Lemma indexByteFrom_range (bs : list byte) (b : byte) (pos : Z) :
  indexByteFrom bs b pos = -1 \/ pos <= indexByteFrom bs b pos.
Proof.
  revert pos. induction bs as [|x bs IH]; intros pos; cbn [indexByteFrom]; [now left|].
  destruct (Ascii.eqb x b); [right; lia|].
  destruct (IH (pos + 1)) as [->|Hle]; [now left|right; lia].
Qed.

Lemma IndexRune_zero (s : string) (r : rune) :
  IndexRune s r = 0 -> exists t, s = String (byteOfZ r) t.
Proof.
  unfold IndexRune. destruct s as [|c t]; [discriminate|].
  cbn [bytes list_ascii_of_string indexByteFrom].
  destruct (Ascii.eqb_spec c (byteOfZ r)) as [->|Hne]; [eauto|].
  intros Hidx.
  destruct (indexByteFrom_range (list_ascii_of_string t) (byteOfZ r) (0 + 1)); lia.
Qed.

Lemma ContainsRune_separatorFree (s : string) :
  separatorFree s -> ContainsRune s Separator = false.
Proof.
  unfold separatorFree, ContainsRune, IndexRune. intros Hs.
  assert (Hidx : forall pos, indexByteFrom (bytes s) (byteOfZ Separator) pos = -1).
  { induction Hs as [|b bs Hb _ IH]; intros pos; cbn [indexByteFrom]; [reflexivity|].
    destruct (Ascii.eqb_spec b (byteOfZ Separator)) as [->|_]; [|apply IH].
    exfalso. apply Hb. reflexivity. }
  now rewrite Hidx.
Qed.

Lemma index_last (t : string) :
  t <> EmptyString -> exists b, index t (len t - 1) = Ok b.
Proof.
  intros Hne. assert (1 <= len t) as Hlen
    by (destruct t; [congruence|unfold len; simpl; lia]).
  assert (Z.to_nat (len t - 1) < length (bytes t))%nat as Hlt
    by (rewrite length_bytes; unfold len in *; lia).
  apply lookup_lt_is_Some in Hlt as [b Hb].
  exists b. apply index_lookup; [lia|exact Hb].
Qed.

Lemma stripBrackets_single (buf leftOp : string) (operator : Operator)
    (criteriaType : CriterionType) (p : panic) :
  buf <> String "[" EmptyString ->
  stripBrackets [buf] leftOp operator criteriaType <> Panic p.
Proof.
  intros Hbuf. unfold stripBrackets.
  change (indexList [buf] 0) with (Ok buf). cbn [mbind outcome_bind].
  destruct (Z.eqb_spec (IndexRune buf OpenBracket) 0) as [Hopen|Hopen];
    [|discriminate].
  apply IndexRune_zero in Hopen as [t ->].
  change (byteOfZ OpenBracket) with "["%char in *.
  rewrite sliceFrom_tail. cbn [mbind outcome_bind].
  change (<[0%nat:=t]> [String "[" t]) with [t].
  change (indexList [t] (Z.of_nat (length [t]) - 1)) with (Ok t).
  cbn [mbind outcome_bind].
  destruct (index_last t) as [b Hb]; [congruence|].
  rewrite Hb. cbn [mbind outcome_bind].
  destruct (byteZ b =? CloseBracket); [|discriminate].
  assert (1 <= len t) as Hlen
    by (destruct t; [congruence|unfold len; simpl; lia]).
  unfold sliceTo. rewrite slice_ok by lia. discriminate.
Qed.

Lemma findRightOp_separatorFree (remaining leftOp : string) (operator : Operator)
    (criteriaType : CriterionType) (p : panic) :
  separatorFree remaining -> remaining <> String "[" EmptyString ->
  findRightOp remaining leftOp operator criteriaType <> Panic p.
Proof.
  intros Hfree Hne. unfold findRightOp, splitRightOp.
  rewrite findRightOp_loop_no_separator
    by (apply runesOf_no_separator, Hfree).
  cbn [mbind outcome_bind sBuf sRightOp sOffset].
  change (EmptyString +:+ encodeRunes (runes remaining))
    with (encodeRunes (runes remaining)).
  destruct (0 <? len (encodeRunes (runes remaining))); cbn [app length].
  - destruct (IsMultiVariate operator); cbn [Nat.ltb Nat.leb andb].
    + pose proof (stripBrackets_single (encodeRunes (runes remaining)) leftOp
                    operator criteriaType p) as Hstrip.
      destruct (stripBrackets _ leftOp operator criteriaType) as [r|e|p'];
        cbn [mbind outcome_bind]; try discriminate.
      intros Heq. inversion Heq; subst p'. apply Hstrip; [|reflexivity].
      intros Hbuf. apply Hne. now apply encodeRunes_bracket.
    + discriminate.
  - cbn [Nat.ltb Nat.leb andb mbind outcome_bind]. discriminate.
Qed.

Lemma checkNewLines_no_panic (c : Criterion) (ops : list string) (p : panic) :
  checkNewLines c ops <> Panic p.
Proof.
  induction ops as [|op ops IH]; cbn [checkNewLines]; [discriminate|].
  destruct (ContainsRune op NewLine); [discriminate|exact IH].
Qed.

(** [Validate] does not panic on a criterion that has a right operand and
    no separator in its left operand. *)
Lemma Validate_no_panic `{GoEnv} (c : Criterion) (p : panic) :
  RightOp c <> [] -> ContainsRune (LeftOp c) Separator = false ->
  Validate c <> Panic p.
Proof.
  intros Hright Hsep. unfold Validate. rewrite Hsep.
  destruct (RightOp c) as [|r0 rest] eqn:Hr; [congruence|].
  change (indexList (r0 :: rest) 0) with (Ok r0).
  destruct (String.eqb (Type_ c) ResultQuery).
  - destruct (String.eqb (LeftOp c) Limit); cbn [mbind outcome_bind].
    + destruct (Atoi r0) as [limit|]; [|discriminate].
      destruct (limit <? 1); cbn [mbind outcome_bind]; [discriminate|].
      destruct (String.eqb (LeftOp c) OrderBy); cbn [mbind outcome_bind];
        [|discriminate].
      destruct rest; cbn; discriminate.
    + destruct (String.eqb (LeftOp c) OrderBy); cbn [mbind outcome_bind];
        [|discriminate].
      destruct rest; cbn; discriminate.
  - destruct ((1 <? length (r0 :: rest))%nat && negb (IsMultiVariate (Operator_ c)));
      [discriminate|].
    destruct (IsNullable (Operator_ c) && negb (String.eqb (Type_ c) FieldQuery));
      [discriminate|].
    destruct (IsNumeric (Operator_ c)); cbn [mbind outcome_bind].
    + destruct (negb (isNumeric r0) && negb (isDateTime r0));
        cbn [mbind outcome_bind]; [discriminate|].
      apply checkNewLines_no_panic.
    + apply checkNewLines_no_panic.
Qed.

Lemma substring_separatorFree (s : string) (n m : nat) :
  separatorFree s -> separatorFree (String.substring n m s).
Proof.
  unfold separatorFree. rewrite bytes_substring. intros Hs.
  apply Forall_take, Forall_drop, Hs.
Qed.

Lemma substring_suffix (s : string) (n : nat) :
  (n <= String.length s)%nat ->
  exists pre, s = pre +:+ String.substring n (String.length s - n) s.
Proof.
  intros Hn. exists (ofBytes (take n (bytes s))).
  rewrite <- (ofBytes_bytes s) at 1.
  rewrite <- (ofBytes_bytes (String.substring n (String.length s - n) s)).
  rewrite bytes_substring.
  assert (Hlen : (length (drop n (bytes s)) <= String.length s - n)%nat)
    by (rewrite length_drop, length_bytes; lia).
  rewrite (take_ge _ _ Hlen).
  rewrite <- (take_drop n (bytes s)) at 1.
  generalize (take n (bytes s)) (drop n (bytes s)). intros a b.
  induction a as [|x a IH]; [reflexivity|].
  cbn [app ofBytes string_of_list_ascii]. rewrite append_cons. f_equal. exact IH.
Qed.

Lemma process_loop_no_panic `{GoEnv} (fuel : nat) (input : string)
    (criteriaType : CriterionType) (i j : Z) (leftOp : string)
    (operator : Operator) (c : list Criterion) (p : panic) :
  separatorFree input ->
  (forall pre, input <> pre +:+ String "[" EmptyString) ->
  0 <= j <= i ->
  (leftOp <> EmptyString -> operator <> EmptyString ->
   i + len operator + 1 <= len input) ->
  separatorFree leftOp ->
  process_loop fuel input criteriaType i j leftOp operator c <> Some (Panic p).
Proof.
  intros Hfree Hlast. revert i j leftOp operator c.
  induction fuel as [|fuel IH]; intros i j leftOp operator c Hij Hop Hleft;
    [discriminate|].
  cbn [process_loop].
  destruct (Z.ltb_spec i (len input)) as [Hi|Hi]; cbn [negb]; [|discriminate].
  pose proof (len_nonneg operator) as Hlen.
  assert (Hempty : separatorFree EmptyString) by constructor.
  destruct (String.eqb_spec leftOp EmptyString) as [Hl|Hl];
    destruct (String.eqb_spec operator EmptyString) as [Ho|Ho]; cbn [negb andb].
  4:{ specialize (Hop Hl Ho).
      unfold sliceFrom at 1. rewrite slice_ok by lia. cbn [mbind outcome_bind].
      set (k := Z.to_nat (i + len operator + 1)).
      replace (Z.to_nat (len input - (i + len operator + 1)))
        with (String.length input - k)%nat by (unfold k, len; lia).
      set (remaining := String.substring k (String.length input - k) input).
      assert (Hrem : findRightOp remaining leftOp operator criteriaType <> Panic p).
      { apply findRightOp_separatorFree.
        - now apply substring_separatorFree.
        - intros Heq. destruct (substring_suffix input k) as [pre Hpre];
            [unfold k, len in *; lia|].
          fold remaining in Hpre. rewrite Heq in Hpre. exact (Hlast pre Hpre). }
      destruct (findRightOp remaining leftOp operator criteriaType)
        as [[rightOp offset]|e|p'] eqn:Hfind; cbn [mbind outcome_bind];
        [|discriminate|congruence].
      pose proof (Validate_no_panic (newCriterion leftOp operator rightOp criteriaType)
                    p) as Hvalid.
      destruct (Validate (newCriterion leftOp operator rightOp criteriaType))
        as [[]|e|p'] eqn:Hv; cbn [mbind outcome_bind].
      - apply findRightOp_offset_nonneg in Hfind.
        change (len (encodeRune Separator)) with 1.
        apply IH; [lia| |exact Hempty]. intros Habs. congruence.
      - discriminate.
      - intros Heq. inversion Heq; subst p'. apply Hvalid; [| |reflexivity].
        + cbn. eapply findRightOp_nonempty; eauto.
        + cbn. now apply ContainsRune_separatorFree. }
  all: unfold sliceFrom at 1; rewrite slice_ok by lia;
    set (remaining := String.substring _ _ input);
    assert (Hrem : sliceFrom input i = Ok remaining)
      by (unfold sliceFrom; rewrite slice_ok by lia; reflexivity);
    destruct (matchOperator remaining) as [op|] eqn:Hm;
    [rewrite slice_ok by lia;
     apply IH; [lia| |now apply substring_separatorFree];
     intros _ _;
     apply matchOperator_unambiguous_prefix in Hm as [rest Hrest];
     pose proof (f_equal len Hrest) as Hl';
     rewrite len_append, len_operatorPattern in Hl';
     pose proof (len_nonneg rest);
     rewrite (sliceFrom_len input remaining i ltac:(lia) Hrem) in Hl'; lia
    |apply IH; [lia| |assumption]; intros Hl' Ho'; congruence].
Qed.

Lemma last_bytes_append (pre : string) (b : byte) :
  last (bytes (pre +:+ String b EmptyString)) = Some b.
Proof. rewrite bytes_append. apply last_snoc. Qed.

(** A query text that holds no separator byte and does not end in an opening
    bracket never makes [process] panic: it returns the criteria or an
    error. *)
Theorem process_no_panic `{GoEnv} (input : string) (criteriaType : CriterionType) :
  separatorFree input ->
  last (bytes input) <> Some "["%char ->
  exists r, process input criteriaType = Some r /\ isOk r || isErr r = true.
Proof.
  intros Hfree Hlast.
  destruct (process_returns input criteriaType) as [r Hr]. exists r.
  split; [exact Hr|]. destruct r as [cs|e|p]; [reflexivity|reflexivity|].
  exfalso. revert Hr. unfold process.
  destruct (String.eqb input EmptyString); [discriminate|].
  pose proof (process_loop_no_panic (S (String.length input)) input criteriaType
                0 0 EmptyString EmptyString [] p Hfree) as Hloop.
  destruct (process_loop _ input criteriaType 0 0 EmptyString EmptyString [])
    as [[c| |]|] eqn:Heq; try discriminate.
  - destruct (length c =? 0)%nat; discriminate.
  - intros Hp. apply Hloop; [|lia|congruence|constructor|exact Hp].
    intros pre Hpre. apply Hlast. rewrite Hpre. apply last_bytes_append.
Qed.

Lemma process_no_panic_witness :
  exists r, @process exampleEnv "age gt 5" FieldQuery = Some r /\
            isOk r || isErr r = true.
Proof.
  apply (@process_no_panic exampleEnv "age gt 5" FieldQuery).
  - repeat constructor; discriminate.
  - discriminate.
Defined.
